(** * EGourd: dual-model prediction arbitration and scan stabilisation

    A shallow embedding of the decision logic of the EGourd mobile app:

    - [GeminiService.comparePredictions] (both revisions that live in
      [services/geminiService.js]) and the response parsing of
      [analyzeFlower];
    - the moving-average smoother and the "Not Flower" synthesis of
      [ModelServiceTM.predictWithAllProbabilities]
      ([services/modelServiceTM.js]);
    - the scanning tick of [startScanning] and the frame selection of
      [handleCapture] (the camera screen stored in
      [screens/ScanScreens/ResultsScreenTM.js]).

    JavaScript numbers are modelled by exact rationals extended with [NaN].
    Arithmetic is exact and the thresholds are the decimal literals of the
    code.  The rounding of binary floating point is modelled apart, in
    [Binary64]: the computations whose value depends on it (the moving
    average, the percentage and the simulated distribution) are written
    out there with their roundings, and the facts on their values are
    stated about those.  Every comparison with [NaN] (or with
    [undefined]) is false, as in the language. *)

From Stdlib Require Import QArith Qround Qabs Qpower String Ascii List Bool
  Lia Lqa Sorted PeanoNat Permutation ZArith.
Import ListNotations.

Open Scope string_scope.
Open Scope Q_scope.
Open Scope list_scope.

(* ================================================================== *)
(** * JavaScript numbers *)
(* ================================================================== *)

Module JsNumber.

Inductive number : Type :=
| NaN
| Num (q : Q).

(** [a < b], [a > b], [a >= b], [a <= b] and [a === b] on numbers. *)
Definition lt (a b : number) : bool :=
  match a, b with
  | Num x, Num y => negb (Qle_bool y x)
  | _, _ => false
  end.

Definition gt (a b : number) : bool := lt b a.

Definition ge (a b : number) : bool :=
  match a, b with
  | Num x, Num y => Qle_bool y x
  | _, _ => false
  end.

Definition le (a b : number) : bool := ge b a.

Definition eqb (a b : number) : bool :=
  match a, b with
  | Num x, Num y => Qeq_bool x y
  | _, _ => false
  end.

Definition add (a b : number) : number :=
  match a, b with
  | Num x, Num y => Num (x + y)
  | _, _ => NaN
  end.

Definition sub (a b : number) : number :=
  match a, b with
  | Num x, Num y => Num (x - y)
  | _, _ => NaN
  end.

Definition mul (a b : number) : number :=
  match a, b with
  | Num x, Num y => Num (x * y)
  | _, _ => NaN
  end.

(** Division by a non-zero literal (the only divisions the code makes). *)
Definition divq (a : number) (d : Q) : number :=
  match a with
  | Num x => Num (x / d)
  | NaN => NaN
  end.

(** [Math.max(a, b)]. *)
Definition max (a b : number) : number :=
  match a, b with
  | Num x, Num y => if Qle_bool x y then Num y else Num x
  | _, _ => NaN
  end.

(** [Math.abs(a)]. *)
Definition abs (a : number) : number :=
  match a with
  | Num x => Num (Qabs x)
  | NaN => NaN
  end.

(** [Math.round] on a rational: the nearest integer, halves rounded up. *)
Definition Qround_half_up (x : Q) : Z := Qfloor (x + (1 # 2)).

Definition round (a : number) : number :=
  match a with
  | Num x => Num (inject_Z (Qround_half_up x))
  | NaN => NaN
  end.

End JsNumber.

Import JsNumber.

(** [a === b] on values that are either [null] or a string. *)
Definition strict_eq (a b : option string) : bool :=
  match a, b with
  | None, None => true
  | Some x, Some y => String.eqb x y
  | _, _ => false
  end.

(** Truthiness of a value that is [null] (or [undefined]) or a string:
    only a non-empty string is truthy. *)
Definition truthy (v : option string) : bool :=
  match v with
  | Some (String _ _) => true
  | _ => false
  end.

(* ================================================================== *)
(** * Arbitration: [comparePredictions] *)
(* ================================================================== *)

(** The fields of a prediction object that [comparePredictions] reads. *)
Record Prediction : Type := mkPrediction {
  variety : option string;
  gender : option string;
  rawScore : number
}.

Inductive Recommendation : Type :=
| manual
| gemini
| tflite.

Record ComparisonResult : Type := mkComparison {
  agree : bool;
  varietyMatch : bool;
  genderMatch : bool;
  confidence : number;
  recommendation : Recommendation;
  confidenceGap : number
}.

(** The first revision of the service (geminiService.js, lines 299-332). *)
Module GeminiServiceLegacy.

Definition comparePredictions (tflitePrediction geminiPrediction : Prediction)
  : ComparisonResult :=
  let varietyMatch :=
    strict_eq (variety tflitePrediction) (variety geminiPrediction) in
  let genderMatch :=
    strict_eq (gender tflitePrediction) (gender geminiPrediction) in
  let bothAgree := varietyMatch && genderMatch in
  let avgConfidence :=
    divq (add (rawScore tflitePrediction) (rawScore geminiPrediction)) 2 in
  let maxConfidence :=
    max (rawScore tflitePrediction) (rawScore geminiPrediction) in
  let recommendation :=
    if bothAgree then
      if ge (rawScore geminiPrediction) (rawScore tflitePrediction)
      then gemini else tflite
    else if gt (rawScore geminiPrediction) (Num 0.8)
            && lt (rawScore tflitePrediction) (Num 0.6) then gemini
    else if gt (rawScore tflitePrediction) (Num 0.8)
            && lt (rawScore geminiPrediction) (Num 0.6) then tflite
    else manual in
  {| agree := bothAgree;
     varietyMatch := varietyMatch;
     genderMatch := genderMatch;
     confidence := if bothAgree then maxConfidence else avgConfidence;
     recommendation := recommendation;
     confidenceGap :=
       abs (sub (rawScore tflitePrediction) (rawScore geminiPrediction)) |}.

End GeminiServiceLegacy.

(** The current revision of the service (geminiService.js, lines 721-785). *)
Module GeminiService.

Definition comparePredictions (tflitePrediction geminiPrediction : Prediction)
  : ComparisonResult :=
  let varietyMatch :=
    strict_eq (variety tflitePrediction) (variety geminiPrediction) in
  let genderMatch :=
    strict_eq (gender tflitePrediction) (gender geminiPrediction) in
  let bothAgree := varietyMatch && genderMatch in
  let avgConfidence :=
    divq (add (rawScore tflitePrediction) (rawScore geminiPrediction)) 2 in
  let maxConfidence :=
    max (rawScore tflitePrediction) (rawScore geminiPrediction) in
  let recommendation :=
    if bothAgree then
      if ge (rawScore geminiPrediction) (rawScore tflitePrediction)
      then gemini else tflite
    else
      (* 0. species check *)
      if strict_eq (variety tflitePrediction) (Some "Upo (Smooth)")
         && strict_eq (variety geminiPrediction) (Some "Ampalaya Bilog")
      then
        if gt (rawScore tflitePrediction) (Num 0.8) then tflite else manual
      (* 1. gender check, the female protection rule *)
      else if strict_eq (gender tflitePrediction) (Some "female")
              && strict_eq (gender geminiPrediction) (Some "male")
      then
        if lt (rawScore geminiPrediction) (Num 0.98)
           && gt (rawScore tflitePrediction) (Num 0.65) then tflite
        else if ge (rawScore geminiPrediction) (Num 0.98) then gemini
        else manual
      (* 2. local extremely high confidence *)
      else if ge (rawScore tflitePrediction) (Num 0.98) then tflite
      (* 3. remote very high against local low *)
      else if ge (rawScore geminiPrediction) (Num 0.95)
              && lt (rawScore tflitePrediction) (Num 0.7) then gemini
      (* 4. local high against remote low or medium *)
      else if ge (rawScore tflitePrediction) (Num 0.90)
              && lt (rawScore geminiPrediction) (Num 0.90) then tflite
      (* 5. remote high against local low or medium *)
      else if ge (rawScore geminiPrediction) (Num 0.90)
              && lt (rawScore tflitePrediction) (Num 0.80) then gemini
      else manual in
  {| agree := bothAgree;
     varietyMatch := varietyMatch;
     genderMatch := genderMatch;
     confidence := if bothAgree then maxConfidence else avgConfidence;
     recommendation := recommendation;
     confidenceGap :=
       abs (sub (rawScore tflitePrediction) (rawScore geminiPrediction)) |}.

(** ** Parsing the response of the remote model *)

(** The result of a call that may throw. *)
Inductive Outcome (A : Type) : Type :=
| Returned (value : A)
| Thrown (message : string).
Arguments Returned {A} value.
Arguments Thrown {A} message.

(** The object [geminiResult]: a field the response does not carry is
    [None]; a field that is present has the type the prompt asks for. *)
Record GeminiResult : Type := mkGeminiResult {
  gr_variety : option string;
  gr_gender : option string;
  gr_confidence : option number;
  gr_reasoning : option string;
  gr_keyFeatures : list string
}.

(** The prediction object built by [formatPrediction], without the message
    text, the timing fields and the quality metadata copied through. *)
Record FormattedPrediction : Type := mkFormatted {
  fp_predictedClass : string;
  fp_variety : option string;
  fp_gender : option string;
  fp_isFlower : bool;
  fp_confidence : number;
  fp_rawScore : number;
  fp_isLowConfidence : bool;
  fp_isUncertain : bool;
  fp_shouldReject : bool;
  fp_isNotFlower : bool;
  fp_reasoning : option string;
  fp_keyFeatures : list string;
  fp_probabilities : list (string * number)
}.

(** *** The regular expressions

    A character of the text is a code unit below 256; the quotation mark is
    code 34 and [\s] is the white space of that range. *)

Definition dquote : ascii := ascii_of_nat 34.

Definition quoted (name : string) : string :=
  String dquote (name ++ String dquote EmptyString)%string.

Definition is_space (c : ascii) : bool :=
  let n := nat_of_ascii c in
  (Nat.leb 9 n && Nat.leb n 13) || Nat.eqb n 32 || Nat.eqb n 160.

Definition is_digit_or_dot (c : ascii) : bool :=
  let n := nat_of_ascii c in
  (Nat.leb 48 n && Nat.leb n 57) || Nat.eqb n 46.

Definition not_dquote (c : ascii) : bool := negb (Ascii.eqb c dquote).

(** The longest prefix of characters satisfying [f], and the rest. *)
Fixpoint span (f : ascii -> bool) (s : string) : string * string :=
  match s with
  | EmptyString => (EmptyString, EmptyString)
  | String c rest =>
      if f c then
        let '(taken, others) := span f rest in (String c taken, others)
      else (EmptyString, s)
  end.

Fixpoint strip_prefix (p s : string) : option string :=
  match p, s with
  | EmptyString, _ => Some s
  | String a p', String b s' =>
      if Ascii.eqb a b then strip_prefix p' s' else None
  | String _ _, EmptyString => None
  end.

(** The leftmost position at which [m] matches. *)
Fixpoint search (m : string -> option string) (s : string) : option string :=
  match m s with
  | Some captured => Some captured
  | None =>
      match s with
      | EmptyString => None
      | String _ rest => search m rest
      end
  end.

(** The quoted key, white space, a colon and white space at the start of
    [s] (the common head of the four field patterns): what follows. *)
Definition after_key (name : string) (s : string) : option string :=
  match strip_prefix (quoted name) s with
  | None => None
  | Some r =>
      match snd (span is_space r) with
      | String c r' =>
          if Ascii.eqb c ":" then Some (snd (span is_space r')) else None
      | EmptyString => None
      end
  end.

Definition nonempty (s : string) : option string :=
  match s with
  | EmptyString => None
  | String _ _ => Some s
  end.

(** Group 1 of the pattern for [variety] and [gender]: after the head, a
    quotation mark, one or more characters other than the mark, and the
    closing mark. *)
Definition quotedFieldAt (name : string) (s : string) : option string :=
  match after_key name s with
  | Some (String c r) =>
      if Ascii.eqb c dquote then
        let '(captured, others) := span not_dquote r in
        match others with
        | String _ _ => nonempty captured
        | EmptyString => None
        end
      else None
  | _ => None
  end.

(** Group 1 of the pattern for [reasoning]: as above, without the closing
    mark. *)
Definition openFieldAt (name : string) (s : string) : option string :=
  match after_key name s with
  | Some (String c r) =>
      if Ascii.eqb c dquote then nonempty (fst (span not_dquote r)) else None
  | _ => None
  end.

(** Group 1 of the pattern for [confidence]: after the head, one or more
    digits or dots. *)
Definition numberFieldAt (name : string) (s : string) : option string :=
  match after_key name s with
  | Some r => nonempty (fst (span is_digit_or_dot r))
  | None => None
  end.

Definition varietyMatch_re (text : string) : option string :=
  search (quotedFieldAt "variety") text.
Definition genderMatch_re (text : string) : option string :=
  search (quotedFieldAt "gender") text.
Definition confidenceMatch_re (text : string) : option string :=
  search (numberFieldAt "confidence") text.
Definition reasoningMatch_re (text : string) : option string :=
  search (openFieldAt "reasoning") text.

(** The longest prefix of [s] that ends with [c]. *)
Fixpoint through_last (c : ascii) (s : string) : option string :=
  match s with
  | EmptyString => None
  | String a rest =>
      match through_last c rest with
      | Some p => Some (String a p)
      | None => if Ascii.eqb a c then Some (String a EmptyString) else None
      end
  end.

(** [text.match(/\{[\s\S]*\}/)]: from the first opening brace to the
    last closing brace after it. *)
Fixpoint jsonMatch_re (text : string) : option string :=
  match text with
  | EmptyString => None
  | String a rest =>
      if Ascii.eqb a "{" then
        match through_last "}" rest with
        | Some p => Some (String a p)
        | None => jsonMatch_re rest
        end
      else jsonMatch_re rest
  end.

Definition classes : list string :=
  [ "ampalaya_bilog_female";
    "ampalaya_bilog_male";
    "patola_female";
    "patola_male";
    "upo_smooth_female";
    "upo_smooth_male";
    "not_flower" ].

(** A value interpolated in a template literal. *)
Definition interpolate (v : option string) : string :=
  match v with
  | Some s => s
  | None => "undefined"
  end.

Definition toNumber (v : option number) : number :=
  match v with
  | Some n => n
  | None => NaN
  end.

Definition buildProbabilities (variety gender : option string)
  (confidence : number) : list (string * number) :=
  let predictedClass :=
    if strict_eq variety (Some "not_flower") then "not_flower"
    else (interpolate variety ++ "_" ++ interpolate gender)%string in
  let remainingProb := sub (Num 1) confidence in
  let otherClassProb :=
    divq remainingProb (inject_Z (Z.of_nat (length classes)) - 1) in
  map (fun cls =>
         (cls, if String.eqb cls predictedClass then confidence
               else otherClassProb))
      classes.

Definition formatPrediction (geminiResult : GeminiResult)
  : FormattedPrediction :=
  let variety := gr_variety geminiResult in
  let gender := gr_gender geminiResult in
  let confidence := toNumber (gr_confidence geminiResult) in
  let isNotFlower := strict_eq variety (Some "not_flower") in
  let isFlower := negb isNotFlower in
  let varietyDisplay :=
    if strict_eq variety (Some "ampalaya_bilog") then Some "Ampalaya Bilog"
    else if strict_eq variety (Some "patola") then Some "Patola"
    else if strict_eq variety (Some "upo_smooth") then Some "Upo (Smooth)"
    else None in
  let predictedClass :=
    if isNotFlower then "not_flower"
    else if truthy varietyDisplay && truthy gender
         then (interpolate variety ++ "_" ++ interpolate gender)%string
    else "unknown" in
  let confidencePercent :=
    divq (round (mul (mul confidence (Num 100)) (Num 10))) 10 in
  let isLowConfidence := lt confidence (Num 0.65) in
  let isUncertain := lt confidence (Num 0.5) in
  let shouldReject := isNotFlower || isUncertain in
  {| fp_predictedClass := predictedClass;
     fp_variety := varietyDisplay;
     fp_gender := if isFlower then gender else None;
     fp_isFlower := isFlower;
     fp_confidence := confidencePercent;
     fp_rawScore := confidence;
     fp_isLowConfidence := isLowConfidence;
     fp_isUncertain := isUncertain;
     fp_shouldReject := shouldReject;
     fp_isNotFlower := isNotFlower;
     fp_reasoning := gr_reasoning geminiResult;
     fp_keyFeatures := gr_keyFeatures geminiResult;
     fp_probabilities := buildProbabilities variety gender confidence |}.

Section AnalyzeFlower.
(** The two built-ins the parsing relies on: [JSON.parse], which throws
    ([None]) on text that is not JSON, and [parseFloat]. *)
Variable JSON_parse : string -> option GeminiResult.
Variable parseFloat : string -> number.

(** The object built from the three extracted fields. *)
Definition extracted (text : string) (reasoning : string)
  : option GeminiResult :=
  match varietyMatch_re text, genderMatch_re text,
        confidenceMatch_re text with
  | Some v, Some g, Some c =>
      Some {| gr_variety := Some v;
              gr_gender := Some g;
              gr_confidence := Some (parseFloat c);
              gr_reasoning := Some reasoning;
              gr_keyFeatures := [] |}
  | _, _, _ => None
  end.

(** The [try] block of lines 518-542. *)
Definition strictOrPartial (text : string) : Outcome GeminiResult :=
  match jsonMatch_re text with
  | Some json =>
      match JSON_parse json with
      | Some geminiResult => Returned geminiResult
      | None => Thrown "SyntaxError"
      end
  | None =>
      let reasoning :=
        match reasoningMatch_re text with
        | Some r => r
        | None => "Analysis completed"
        end in
      match extracted text reasoning with
      | Some geminiResult => Returned geminiResult
      | None => Thrown "Could not parse Gemini response"
      end
  end.

(** The [try] and its [catch (parseError)] (lines 518-562). *)
Definition parseResponse (text : string) : Outcome GeminiResult :=
  match strictOrPartial text with
  | Returned geminiResult => Returned geminiResult
  | Thrown _ =>
      match extracted text "Analysis completed (partial response)" with
      | Some geminiResult => Returned geminiResult
      | None => Thrown "Invalid response format from Gemini"
      end
  end.

(** [analyzeFlower] from the raw response text on (lines 510-579). *)
Definition analyzeFlower (text : string) : Outcome FormattedPrediction :=
  let body :=
    match parseResponse text with
    | Thrown message => Thrown message
    | Returned geminiResult =>
        if negb (truthy (gr_variety geminiResult))
           || negb (truthy (gr_gender geminiResult))
           || match gr_confidence geminiResult with
              | None => true
              | Some _ => false
              end
        then Thrown "Incomplete response from Gemini"
        else Returned (formatPrediction geminiResult)
    end in
  match body with
  | Returned prediction => Returned prediction
  | Thrown message =>
    Thrown ("Gemini analysis failed: " ++ message)%string
  end.
End AnalyzeFlower.

End GeminiService.

(* ================================================================== *)
(** * Array helpers *)
(* ================================================================== *)

Module JsArray.

Section Generic.
Context {A : Type}.

(** [arr.push(x)] and [arr.shift()] on the array contents. *)
Definition push (arr : list A) (x : A) : list A := arr ++ [x].
Definition shift (arr : list A) : list A := tl arr.

(** [arr.slice(-n)]: the last [n] elements, or all of them. *)
Definition slice_last (n : nat) (arr : list A) : list A :=
  skipn (length arr - n) arr.

(** [arr.sort(compareFn)].  ECMAScript requires the sort to be stable,
    so for a comparator that orders by a key any conforming
    implementation returns the list computed here: [x] stays in front
    of [y] when [compareFn x y <= 0]. *)
Variable compareFn : A -> A -> Q.

Fixpoint insert (x : A) (sorted : list A) : list A :=
  match sorted with
  | [] => [x]
  | y :: rest =>
      if Qle_bool (compareFn x y) 0 then x :: y :: rest
      else y :: insert x rest
  end.

Fixpoint sort (arr : list A) : list A :=
  match arr with
  | [] => []
  | x :: rest => insert x (sort rest)
  end.
End Generic.

(** [arr.map((x, index) => f x index)]. *)
Fixpoint mapi_from {A B : Type} (f : A -> nat -> B) (i : nat) (arr : list A)
  : list B :=
  match arr with
  | [] => []
  | x :: rest => f x i :: mapi_from f (S i) rest
  end.

Definition mapi {A B : Type} (f : A -> nat -> B) (arr : list A) : list B :=
  mapi_from f 0 arr.

End JsArray.

(* ================================================================== *)
(** * Ranking by a numeric key *)
(* ================================================================== *)

Module Ranking.

Section Key.
Context {A : Type}.
Variable key : A -> Q.

(** The comparator [(a, b) => key b - key a] of a descending sort. *)
Definition descending (a b : A) : Q := key b - key a.

(** The first element, from the left, whose key no other element
    exceeds. *)
Fixpoint leftmostMax (l : list A) : option A :=
  match l with
  | [] => None
  | x :: rest =>
      match leftmostMax rest with
      | None => Some x
      | Some y => if Qle_bool (key y) (key x) then Some x else Some y
      end
  end.
End Key.

End Ranking.

(* ================================================================== *)
(** * The on-device classifier wrapper: smoothing and reject synthesis *)
(* ================================================================== *)

Module ModelServiceTM.

Definition TM_LABELS : list string :=
  [ "Ampalaya Bilog Male";
    "Ampalaya Bilog Female";
    "Patola Female";
    "Patola Male";
    "Upo Smooth Female";
    "Upo Smooth Male" ].

Definition historySize : nat := 5.

Definition CONFIDENCE_THRESHOLD : Q := 0.70.

Record TMPrediction : Type := mkTMPrediction {
  label : string;
  probability : Q;
  percentage : Q;
  index : Z;
  isSynthetic : bool
}.

Record TMResult : Type := mkTMResult {
  predictions : list TMPrediction;
  topPrediction : TMPrediction;
  isUncertain : bool
}.

(** [historyItem[i] || 0]: a missing, [NaN] or zero entry counts as 0. *)
Definition orZero (v : option number) : Q :=
  match v with
  | Some (Num q) => q
  | _ => 0
  end.

(** [Math.round(x * 10) / 10]. *)
Definition round1 (x : Q) : Q := inject_Z (Qround_half_up (x * 10)) / 10.

(** The smoothing step: push the new output, evict the oldest one beyond
    [historySize]. *)
Definition pushHistory (predictionHistory : list (list number))
  (normalizedOutput : list number) : list (list number) :=
  let h := JsArray.push predictionHistory normalizedOutput in
  if Nat.ltb historySize (length h) then JsArray.shift h else h.

(** [averagedProbs[i]]: the sum over the window divided by its length. *)
Definition averagedProb (predictionHistory : list (list number)) (i : nat)
  : Q :=
  let sum :=
    fold_left (fun sum historyItem => sum + orZero (nth_error historyItem i))
      predictionHistory 0 in
  sum / inject_Z (Z.of_nat (length predictionHistory)).

Definition averagedProbs (predictionHistory : list (list number)) : list Q :=
  map (averagedProb predictionHistory) (seq 0 (length TM_LABELS)).

(** [b.probability - a.probability], the comparator of both sorts. *)
Definition byProbabilityDesc (a b : TMPrediction) : Q :=
  probability b - probability a.

Definition labelled (averaged : list Q) : list TMPrediction :=
  JsArray.mapi
    (fun label index =>
       let probability := nth index averaged 0 in
       let percentage := probability * 100 in
       {| label := label;
          probability := probability;
          percentage := round1 percentage;
          index := Z.of_nat index;
          isSynthetic := false |})
    TM_LABELS.

(** The ranking before the reject synthesis: the averaged distribution of
    the window after the first sort. *)
Definition smoothedRanking (predictionHistory : list (list number))
  (normalizedOutput : list number) : list TMPrediction :=
  JsArray.sort byProbabilityDesc
    (labelled (averagedProbs (pushHistory predictionHistory normalizedOutput))).

Definition notFlowerPrediction (top : TMPrediction) : TMPrediction :=
  let notFlowerProbability := 1.0 - probability top in
  {| label := "Not Flower";
     probability := notFlowerProbability;
     percentage := round1 (notFlowerProbability * 100);
     index := (-1)%Z;
     isSynthetic := true |}.

(** [predictions[0]]; the array holds one entry per label, so it is never
    empty and the fallback is not reached. *)
Definition first (predictions : list TMPrediction) : TMPrediction :=
  hd {| label := EmptyString; probability := 0; percentage := 0;
        index := 0%Z; isSynthetic := false |} predictions.

(** [predictWithAllProbabilities] from the smoothing logic on (lines
    217-278): the state is [this.predictionHistory], the input is the
    normalised output tensor of the inference that precedes it. *)
Definition predictWithAllProbabilities
  (predictionHistory : list (list number)) (normalizedOutput : list number)
  : list (list number) * TMResult :=
  let predictionHistory := pushHistory predictionHistory normalizedOutput in
  let predictions :=
    JsArray.sort byProbabilityDesc
      (labelled (averagedProbs predictionHistory)) in
  let topPrediction := first predictions in
  let isUncertain :=
    negb (Qle_bool CONFIDENCE_THRESHOLD (probability topPrediction)) in
  if isUncertain then
    let predictions :=
      JsArray.sort byProbabilityDesc
        (JsArray.push predictions (notFlowerPrediction topPrediction)) in
    (predictionHistory,
     {| predictions := predictions;
        topPrediction := first predictions;
        isUncertain := isUncertain |})
  else
    (predictionHistory,
     {| predictions := predictions;
        topPrediction := topPrediction;
        isUncertain := isUncertain |}).

(** Feeding a sequence of output tensors, one call per tensor; the result
    of the last call is returned with the final history. *)
Fixpoint feed (predictionHistory : list (list number))
  (outputs : list (list number)) (last : option TMResult)
  : list (list number) * option TMResult :=
  match outputs with
  | [] => (predictionHistory, last)
  | o :: rest =>
      let '(h, r) := predictWithAllProbabilities predictionHistory o in
      feed h rest (Some r)
  end.

End ModelServiceTM.

(* ================================================================== *)
(** * The camera screen: scanning tick and capture *)
(* ================================================================== *)

Module CameraScreenTM.

(** The picture returned by [takePictureAsync]. *)
Record Photo : Type := mkPhoto {
  photo_uri : string;
  photo_width : Z;
  photo_height : Z
}.

(** An entry of [recentPredictions.current]. *)
Record RecentPrediction : Type := mkRecent {
  rp_label : string;
  rp_confidence : Q;
  rp_uri : string;
  rp_width : Z;
  rp_height : Z
}.

(** [bestFrame.current]; [uri] and [label] are [null] until a stable
    frame has been stored. *)
Record BestFrame : Type := mkBestFrame {
  bf_uri : option string;
  bf_width : Z;
  bf_height : Z;
  bf_label : option string;
  bf_confidence : Q;
  bf_count : nat
}.

(** [lastFrameUri.current]. *)
Record LastFrame : Type := mkLastFrame {
  lf_uri : option string;
  lf_width : Z;
  lf_height : Z
}.

Record ScanState : Type := mkScanState {
  recentPredictions : list RecentPrediction;
  bestFrame : BestFrame;
  lastFrameUri : LastFrame;
  isStable : bool
}.

Definition emptyBestFrame : BestFrame :=
  {| bf_uri := None; bf_width := 0; bf_height := 0;
     bf_label := None; bf_confidence := 0; bf_count := 0 |}.

Definition emptyLastFrame : LastFrame :=
  {| lf_uri := None; lf_width := 0; lf_height := 0 |}.

(** The reset made by the focus effect (lines 1299-1305). *)
Definition resetOnFocus : ScanState :=
  {| recentPredictions := [];
     bestFrame := emptyBestFrame;
     lastFrameUri := emptyLastFrame;
     isStable := false |}.

(** What one run of the interval callback of [startScanning] went through:
    it returned before a frame was stored (a guard fired or the capture
    threw), it stored the frame and the prediction threw, or it obtained a
    top prediction for the frame. *)
Inductive Tick : Type :=
| TickSkipped
| TickCaptured (photo : Photo)
| TickPredicted (photo : Photo) (label : string) (percentage : Q).

Definition storeLastFrame (photo : Photo) : LastFrame :=
  {| lf_uri := Some (photo_uri photo);
     lf_width := photo_width photo;
     lf_height := photo_height photo |}.

(** The callback of [setInterval] in [startScanning] (lines 1336-1456),
    without the animation of the prediction bars. *)
Definition scanTick (s : ScanState) (t : Tick) : ScanState :=
  match t with
  | TickSkipped => s
  | TickCaptured photo =>
      {| recentPredictions := recentPredictions s;
         bestFrame := bestFrame s;
         lastFrameUri := storeLastFrame photo;
         isStable := isStable s |}
  | TickPredicted photo currentLabel currentConfidence =>
      let pushed :=
        JsArray.push (recentPredictions s)
          {| rp_label := currentLabel;
             rp_confidence := currentConfidence;
             rp_uri := photo_uri photo;
             rp_width := photo_width photo;
             rp_height := photo_height photo |} in
      let recent :=
        if Nat.ltb 7 (length pushed) then JsArray.shift pushed else pushed in
      let lastFive := JsArray.slice_last 5 recent in
      let stableNow :=
        Nat.leb 5 (length lastFive)
        && forallb (fun p => String.eqb (rp_label p) currentLabel) lastFive in
      let notReject := negb (String.eqb currentLabel "Not Flower") in
      let replacement :=
        {| bf_uri := Some (photo_uri photo);
           bf_width := photo_width photo;
           bf_height := photo_height photo;
           bf_label := Some currentLabel;
           bf_confidence := currentConfidence;
           bf_count := length lastFive |} in
      let best :=
        if stableNow && notReject then
          if strict_eq (Some currentLabel) (bf_label (bestFrame s)) then
            if negb (Qle_bool currentConfidence (bf_confidence (bestFrame s)))
            then replacement else bestFrame s
          else
            if negb (Qle_bool currentConfidence (bf_confidence (bestFrame s)))
            then replacement else bestFrame s
        else bestFrame s in
      {| recentPredictions := recent;
         bestFrame := best;
         lastFrameUri := storeLastFrame photo;
         isStable := stableNow && notReject |}
  end.

(** A scanning session: the ticks in order, from a given state. *)
Definition scan (s : ScanState) (ticks : list Tick) : ScanState :=
  fold_left scanTick ticks s.

(** The values [isStable] takes after each tick of a session. *)
Fixpoint stabilityTrace (s : ScanState) (ticks : list Tick) : list bool :=
  match ticks with
  | [] => []
  | t :: rest =>
      let s' := scanTick s t in
      isStable s' :: stabilityTrace s' rest
  end.

(** The rule that chose the frame ([selectionReason], whose text also
    prints the label and the confidence). *)
Inductive SelectionReason : Type :=
| BEST_STABLE (label : option string) (confidence : Q)
| BEST_RECENT (label : string) (confidence : Q)
| LAST_FRAME.

Inductive CaptureOutcome : Type :=
| CaptureIgnored
| NavigateWithCachedFrame (imageUri : string) (width height : Z)
    (selectionReason : SelectionReason)
| TakeNewPhoto.

(** [b.confidence - a.confidence], the comparator of the capture. *)
Definition byConfidenceDesc (a b : RecentPrediction) : Q :=
  rp_confidence b - rp_confidence a.

(** [handleCapture] (lines 1498-1583) up to the navigation or the fresh
    capture it ends with. *)
Definition handleCapture (isCapturing : bool) (s : ScanState)
  : CaptureOutcome :=
  if isCapturing then CaptureIgnored
  else
    let selected : option string * Z * Z * option SelectionReason :=
      if truthy (bf_uri (bestFrame s))
         && negb (Qle_bool (bf_confidence (bestFrame s)) 50)
      then
        (bf_uri (bestFrame s), bf_width (bestFrame s), bf_height (bestFrame s),
         Some (BEST_STABLE (bf_label (bestFrame s))
                 (bf_confidence (bestFrame s))))
      else
        let bestRecent :=
          hd_error
            (JsArray.sort byConfidenceDesc
               (filter
                  (fun p => negb (String.eqb (rp_label p) "Not Flower"))
                  (recentPredictions s))) in
        match bestRecent with
        | Some p =>
            if negb (Qle_bool (rp_confidence p) 60) then
              (Some (rp_uri p), rp_width p, rp_height p,
               Some (BEST_RECENT (rp_label p) (rp_confidence p)))
            else if truthy (lf_uri (lastFrameUri s)) then
              (lf_uri (lastFrameUri s), lf_width (lastFrameUri s),
               lf_height (lastFrameUri s), Some LAST_FRAME)
            else (None, 0%Z, 0%Z, None)
        | None =>
            if truthy (lf_uri (lastFrameUri s)) then
              (lf_uri (lastFrameUri s), lf_width (lastFrameUri s),
               lf_height (lastFrameUri s), Some LAST_FRAME)
            else (None, 0%Z, 0%Z, None)
        end in
    match selected with
    | (Some imageUri, imageWidth, imageHeight, Some selectionReason) =>
        if truthy (Some imageUri)
        then NavigateWithCachedFrame imageUri imageWidth imageHeight
               selectionReason
        else TakeNewPhoto
    | _ => TakeNewPhoto
    end.

End CameraScreenTM.

(* ================================================================== *)
(** * The decision table of the arbitration, rule by rule *)
(* ================================================================== *)

Module DecisionTable.
Import GeminiService.

(** A rule either does not apply to a pair of predictions or decides it. *)
Definition Rule : Type := Prediction -> Prediction -> option Recommendation.

(** Rules are tried from the top and the first one that applies decides;
    when none applies the user is asked. *)
Fixpoint firstMatch (rules : list Rule) (l r : Prediction) : Recommendation :=
  match rules with
  | [] => manual
  | rule :: rest =>
      match rule l r with
      | Some decision => decision
      | None => firstMatch rest l r
      end
  end.

(** The variety pairing of the species check. *)
Definition speciesPairing (l r : Prediction) : bool :=
  strict_eq (variety l) (Some "Upo (Smooth)")
  && strict_eq (variety r) (Some "Ampalaya Bilog").

(** The gender pairing of the female protection rule. *)
Definition femaleAgainstMale (l r : Prediction) : bool :=
  strict_eq (gender l) (Some "female") && strict_eq (gender r) (Some "male").

(** The species check as the code has it: the pairing alone selects the
    rule, the confidence only selects its decision. *)
Definition speciesGuard : Rule := fun l r =>
  if speciesPairing l r
  then Some (if gt (rawScore l) (Num 0.8) then tflite else manual)
  else None.

(** The species guard as the specification words it: the rule applies when
    the pairing holds and the local raw confidence is at least 0.80. *)
Definition speciesGuard_stated : Rule := fun l r =>
  if speciesPairing l r && ge (rawScore l) (Num 0.80)
  then Some tflite
  else None.

Definition genderGuard : Rule := fun l r =>
  if femaleAgainstMale l r
  then Some (if lt (rawScore r) (Num 0.98) && gt (rawScore l) (Num 0.65)
             then tflite
             else if ge (rawScore r) (Num 0.98) then gemini
             else manual)
  else None.

Definition localOverwhelming : Rule := fun l r =>
  if ge (rawScore l) (Num 0.98) then Some tflite else None.

Definition remoteOverwhelming : Rule := fun l r =>
  if ge (rawScore r) (Num 0.95) && lt (rawScore l) (Num 0.7)
  then Some gemini else None.

Definition localHigh : Rule := fun l r =>
  if ge (rawScore l) (Num 0.90) && lt (rawScore r) (Num 0.90)
  then Some tflite else None.

Definition remoteHigh : Rule := fun l r =>
  if ge (rawScore r) (Num 0.90) && lt (rawScore l) (Num 0.80)
  then Some gemini else None.

(** The rules that follow the species check, in the order of the code. *)
Definition laterRules : list Rule :=
  [genderGuard; localOverwhelming; remoteOverwhelming; localHigh; remoteHigh].

End DecisionTable.

(* ================================================================== *)
(** * The conditions of the frame selection *)
(* ================================================================== *)

Module FrameSelection.
Import CameraScreenTM.

(** A best stable frame is stored and its confidence is above 50 percent. *)
Definition bestStableAvailable (s : ScanState) : Prop :=
  exists uri, bf_uri (bestFrame s) = Some uri /\ uri <> EmptyString /\
              50 < bf_confidence (bestFrame s).

(** The recent entries that do not carry the reject label. *)
Definition candidate (s : ScanState) (p : RecentPrediction) : Prop :=
  In p (recentPredictions s) /\ rp_label p <> "Not Flower".

(** Some recent entry without the reject label is above 60 percent. *)
Definition recentAvailable (s : ScanState) : Prop :=
  exists p, candidate s p /\ 60 < rp_confidence p.

(** The picture of a tick, if any, has a non-empty URI. *)
Definition pictureHasUri (t : Tick) : Prop :=
  match t with
  | TickSkipped => True
  | TickCaptured photo => photo_uri photo <> EmptyString
  | TickPredicted photo _ _ => photo_uri photo <> EmptyString
  end.

(** A last frame is stored. *)
Definition lastFrameAvailable (s : ScanState) : Prop :=
  exists uri, lf_uri (lastFrameUri s) = Some uri /\ uri <> EmptyString.

(** The top prediction [quickPredict] returns to the scan loop for an
    output tensor, given the smoothing history of the classifier. *)
Definition classified (predictionHistory : list (list number))
  (normalizedOutput : list number) : ModelServiceTM.TMPrediction :=
  ModelServiceTM.topPrediction
    (snd (ModelServiceTM.predictWithAllProbabilities predictionHistory
            normalizedOutput)).

(** The frame the scan loop stores for a photo when its label is stable. *)
Definition stableFrame (photo : Photo) (label : string) (confidence : Q)
  : BestFrame :=
  {| bf_uri := Some (photo_uri photo);
     bf_width := photo_width photo;
     bf_height := photo_height photo;
     bf_label := Some label;
     bf_confidence := confidence;
     bf_count := 5 |}.

End FrameSelection.

(* ================================================================== *)
(** * The two stages of the response parsing *)
(* ================================================================== *)

Module ResponseParsing.
Import GeminiService.

(** Strict parsing fails: the text holds no JSON object, or [JSON.parse]
    throws on the object found. *)
Definition strictParseFails (JSON_parse : string -> option GeminiResult)
  (text : string) : Prop :=
  jsonMatch_re text = None \/
  exists json, jsonMatch_re text = Some json /\ JSON_parse json = None.

(** The targeted extraction misses one of the three fields. *)
Definition extractionFails (text : string) : Prop :=
  varietyMatch_re text = None \/ genderMatch_re text = None \/
  confidenceMatch_re text = None.

(** The object built from extracted fields. *)
Definition salvaged (variety gender : string) (confidence : number)
  (reasoning : string) : GeminiResult :=
  {| gr_variety := Some variety;
     gr_gender := Some gender;
     gr_confidence := Some confidence;
     gr_reasoning := Some reasoning;
     gr_keyFeatures := [] |}.

End ResponseParsing.

(* ================================================================== *)
(** * Concrete inputs used in the examples below *)
(* ================================================================== *)

Module Inputs.

Definition pred (v g : string) (score : Q) : Prediction :=
  {| variety := Some v; gender := Some g; rawScore := Num score |}.

(** The agreement example of the specification. *)
Definition patola_male_080 : Prediction := pred "Patola" "male" 0.80.
Definition patola_male_092 : Prediction := pred "Patola" "male" 0.92.

(** The rule-ordering example of the specification. *)
Definition a_female_095 : Prediction := pred "A" "female" 0.95.
Definition a_male_099 : Prediction := pred "A" "male" 0.99.
Definition a_male_090 : Prediction := pred "A" "male" 0.90.

(** A weak local female reading against a confident remote male one. *)
Definition patola_female_060 : Prediction := pred "Patola" "female" 0.6.
Definition patola_male_090 : Prediction := pred "Patola" "male" 0.9.

(** The pairing of the species check, at several local scores. *)
Definition upo_female_090 : Prediction := pred "Upo (Smooth)" "female" 0.9.
Definition upo_female_060 : Prediction := pred "Upo (Smooth)" "female" 0.6.
Definition upo_male_080 : Prediction := pred "Upo (Smooth)" "male" 0.8.
Definition ampalaya_male_099 : Prediction := pred "Ampalaya Bilog" "male" 0.99.
Definition ampalaya_male_050 : Prediction := pred "Ampalaya Bilog" "male" 0.5.

(** Output tensors of the classifier. *)
Definition tensor (qs : list Q) : list number := map Num qs.

Definition top_055 : list number := tensor [0.55; 0.2; 0.1; 0.1; 0.05; 0].
Definition top_040 : list number := tensor [0.4; 0.2; 0.1; 0.1; 0.05; 0.15].
Definition top_090 : list number := tensor [0.9; 0.02; 0.02; 0.02; 0.02; 0.02].
Definition flat : list number := tensor [0.1; 0.1; 0.2; 0.2; 0.2; 0.2].
Definition mid_060 : list number := tensor [0.1; 0.6; 0.1; 0.1; 0.05; 0.05].
Definition mid_075 : list number :=
  tensor [0.05; 0.05; 0.75; 0.05; 0.05; 0.05].
Definition low_030 : list number := tensor [0.1; 0.1; 0.1; 0.3; 0.2; 0.2].

(** The five most recent outputs of a session, and the four most recent
    ones. *)
Definition lastFive : list (list number) :=
  [top_040; top_090; flat; mid_060; mid_075].

Definition lastFour : list (list number) :=
  [top_090; flat; mid_060; mid_075].

(** Frames of a scanning session. *)
Definition photo (n : Z) : CameraScreenTM.Photo :=
  {| CameraScreenTM.photo_uri := "file:///cache/Camera/frame.jpg";
     CameraScreenTM.photo_width := 1080 + n;
     CameraScreenTM.photo_height := 1920 |}.

Definition patolaTick (n : Z) (percentage : Q) : CameraScreenTM.Tick :=
  CameraScreenTM.TickPredicted (photo n) "Patola Male" percentage.

(** Five ticks with one label. *)
Definition stableSession : list CameraScreenTM.Tick :=
  [patolaTick 1 80; patolaTick 2 85; patolaTick 3 91; patolaTick 4 83;
   patolaTick 5 88].

(** Only a last frame is stored: no prediction was ever obtained. *)
Definition onlyLastFrame : CameraScreenTM.ScanState :=
  CameraScreenTM.scanTick CameraScreenTM.resetOnFocus
    (CameraScreenTM.TickCaptured (photo 0)).

(** A session whose labels never settle. *)
Definition unsettledSession : list CameraScreenTM.Tick :=
  [patolaTick 1 64;
   CameraScreenTM.TickPredicted (photo 2) "Not Flower" 70;
   CameraScreenTM.TickPredicted (photo 3) "Upo Smooth Male" 72;
   patolaTick 4 55].

(** Responses of the remote model.  The first one is cut before its
    closing brace; the second one has both braces and is not JSON. *)
Definition field (name value : string) : string :=
  (GeminiService.quoted name ++ ": " ++ GeminiService.quoted value)%string.

Definition truncatedResponse : string :=
  ("{" ++ field "variety" "patola" ++ ", " ++ field "gender" "male" ++ ", "
   ++ GeminiService.quoted "confidence" ++ ": 0.9, "
   ++ GeminiService.quoted "reasoning" ++ ": "
   ++ String GeminiService.dquote "Large yellow flower, thin st")%string.

Definition malformedResponse : string :=
  ("{" ++ field "variety" "upo_smooth" ++ ", " ++ field "gender" "female"
   ++ ", " ++ GeminiService.quoted "confidence" ++ ": 0.85, "
   ++ GeminiService.quoted "keyFeatures" ++ ": [white, }")%string.

Definition proseResponse : string :=
  "I am sorry, I cannot identify the flower in this image.".

(** A [JSON.parse] that throws on every text, for responses that are not
    JSON. *)
Definition rejectingParser (json : string)
  : option GeminiService.GeminiResult := None.

(** [parseFloat] on the captures of the confidence pattern: the digits, a
    dot and the digits after it; [NaN] without any digit. *)
Fixpoint digits (s : string) (value : Z) (count : nat) : Z * nat * string :=
  match s with
  | String c rest =>
      let n := nat_of_ascii c in
      if Nat.leb 48 n && Nat.leb n 57
      then digits rest (10 * value + Z.of_nat (n - 48)) (S count)
      else (value, count, s)
  | EmptyString => (value, count, s)
  end.

Definition parseDecimal (s : string) : number :=
  let '(whole, wholeDigits, rest) := digits s 0%Z 0%nat in
  match rest with
  | String "." after =>
      let '(fraction, fractionDigits, _) := digits after 0%Z 0%nat in
      if Nat.eqb (wholeDigits + fractionDigits) 0 then NaN
      else Num (inject_Z whole
                + inject_Z fraction / inject_Z (10 ^ Z.of_nat fractionDigits))
  | _ => if Nat.eqb wholeDigits 0 then NaN else Num (inject_Z whole)
  end.

End Inputs.

(* ================================================================== *)
(** * The first revision of [analyzeFlower] *)
(* ================================================================== *)

(** The parsing of the first revision (geminiService.js, lines 148-172):
    strict parsing only.  Its [formatPrediction] computes the fields
    modelled here exactly as the current one does. *)
Module GeminiServiceLegacyAnalysis.
Import GeminiService.

(** The prediction object of the first revision, without the message
    text and the timing fields; [lp_geminiData] lists the fields of its
    [geminiData]. *)
Record LegacyPrediction : Type := mkLegacy {
  lp_predictedClass : string;
  lp_variety : option string;
  lp_gender : option string;
  lp_isFlower : bool;
  lp_confidence : number;
  lp_rawScore : number;
  lp_isLowConfidence : bool;
  lp_isUncertain : bool;
  lp_shouldReject : bool;
  lp_isNotFlower : bool;
  lp_modelType : string;
  lp_modelVersion : string;
  lp_reasoning : option string;
  lp_keyFeatures : list string;
  lp_geminiData : list string;
  lp_probabilities : list (string * number)
}.

(** [buildProbabilities] of the first revision (lines 266-291). *)
Definition buildProbabilities (variety gender : option string)
  (confidence : number) : list (string * number) :=
  let classes :=
    [ "ampalaya_bilog_female";
      "ampalaya_bilog_male";
      "patola_female";
      "patola_male";
      "upo_smooth_female";
      "upo_smooth_male";
      "not_flower" ] in
  let predictedClass :=
    if strict_eq variety (Some "not_flower") then "not_flower"
    else (interpolate variety ++ "_" ++ interpolate gender)%string in
  let remainingProb := sub (Num 1) confidence in
  let otherClassProb :=
    divq remainingProb (inject_Z (Z.of_nat (length classes)) - 1) in
  map (fun cls =>
         (cls, if String.eqb cls predictedClass then confidence
               else otherClassProb))
      classes.

(** [formatPrediction] of the first revision (lines 180-261). *)
Definition formatPrediction (geminiResult : GeminiResult)
  : LegacyPrediction :=
  let variety := gr_variety geminiResult in
  let gender := gr_gender geminiResult in
  let confidence := toNumber (gr_confidence geminiResult) in
  let isNotFlower := strict_eq variety (Some "not_flower") in
  let isFlower := negb isNotFlower in
  let varietyDisplay :=
    if strict_eq variety (Some "ampalaya_bilog") then Some "Ampalaya Bilog"
    else if strict_eq variety (Some "patola") then Some "Patola"
    else if strict_eq variety (Some "upo_smooth") then Some "Upo (Smooth)"
    else None in
  let predictedClass :=
    if isNotFlower then "not_flower"
    else if truthy varietyDisplay && truthy gender
         then (interpolate variety ++ "_" ++ interpolate gender)%string
    else "unknown" in
  let confidencePercent :=
    divq (round (mul (mul confidence (Num 100)) (Num 10))) 10 in
  let isLowConfidence := lt confidence (Num 0.65) in
  let isUncertain := lt confidence (Num 0.5) in
  let shouldReject := isNotFlower || isUncertain in
  {| lp_predictedClass := predictedClass;
     lp_variety := varietyDisplay;
     lp_gender := if isFlower then gender else None;
     lp_isFlower := isFlower;
     lp_confidence := confidencePercent;
     lp_rawScore := confidence;
     lp_isLowConfidence := isLowConfidence;
     lp_isUncertain := isUncertain;
     lp_shouldReject := shouldReject;
     lp_isNotFlower := isNotFlower;
     lp_modelType := "Gemini 1.5 Flash";
     lp_modelVersion := "gemini-1.5-flash";
     lp_reasoning := gr_reasoning geminiResult;
     lp_keyFeatures := gr_keyFeatures geminiResult;
     lp_geminiData := ["reasoning"; "keyFeatures"];
     lp_probabilities := buildProbabilities variety gender confidence |}.

Section AnalyzeFlower.
Variable JSON_parse : string -> option GeminiResult.
(** The message of the [SyntaxError] that [JSON.parse] throws on a text. *)
Variable syntaxErrorMessage : string -> string.

(** [analyzeFlower] of the first revision from the raw response text on
    (lines 145-171). *)
Definition analyzeFlower (text : string) : Outcome LegacyPrediction :=
  let body :=
    match jsonMatch_re text with
    | None => Thrown "Invalid response format from Gemini"
    | Some json =>
        match JSON_parse json with
        | None => Thrown (syntaxErrorMessage json)
        | Some geminiResult =>
            if negb (truthy (gr_variety geminiResult))
               || negb (truthy (gr_gender geminiResult))
               || match gr_confidence geminiResult with
                  | None => true
                  | Some _ => false
                  end
            then Thrown "Incomplete response from Gemini"
            else Returned (formatPrediction geminiResult)
        end
    end in
  match body with
  | Returned prediction => Returned prediction
  | Thrown message =>
      Thrown ("Gemini analysis failed: " ++ message)%string
  end.
End AnalyzeFlower.

End GeminiServiceLegacyAnalysis.

(** What the current revision reports about itself in a prediction
    (geminiService.js, lines 664-678). *)
Module GeminiServiceMetadata.

Definition modelType : string := "Gemini 2.5 Flash".
Definition modelVersion : string := "gemini-2.5-flash".
Definition geminiData : list string :=
  ["reasoning"; "keyFeatures"; "flowerQuality"; "harvestPrediction";
   "observations"; "qualityMetrics"].

End GeminiServiceMetadata.

(** Statement vocabulary: the fields the predictions of the two revisions
    have in common. *)
Module Revisions.
Import GeminiService GeminiServiceLegacyAnalysis.

Definition sameCore (p : LegacyPrediction) (q : FormattedPrediction)
  : Prop :=
  lp_predictedClass p = fp_predictedClass q /\
  lp_variety p = fp_variety q /\
  lp_gender p = fp_gender q /\
  lp_isFlower p = fp_isFlower q /\
  lp_confidence p = fp_confidence q /\
  lp_rawScore p = fp_rawScore q /\
  lp_isLowConfidence p = fp_isLowConfidence q /\
  lp_isUncertain p = fp_isUncertain q /\
  lp_shouldReject p = fp_shouldReject q /\
  lp_isNotFlower p = fp_isNotFlower q /\
  lp_reasoning p = fp_reasoning q /\
  lp_keyFeatures p = fp_keyFeatures q /\
  lp_probabilities p = fp_probabilities q.

End Revisions.

(* ================================================================== *)
(** * Availability of the remote service *)
(* ================================================================== *)

(** [initialize] and [isAvailable] of the service (geminiService.js, lines
    34-73 and 384-423, identical in both revisions). *)
Module GeminiAvailability.

Record Service : Type := mkService {
  isInitialized : bool;
  isEnabled : bool
}.

(** The constructor: [ENABLE_GEMINI] comes from the environment. *)
Definition construct (ENABLE_GEMINI : bool) : Service :=
  {| isInitialized := false; isEnabled := ENABLE_GEMINI |}.

(** [initialize]: [GEMINI_API_KEY] is the key of the environment ([None]
    when it is not set) and [sdkOk] tells whether building the client and
    the model succeeded or threw. *)
Definition initialize (GEMINI_API_KEY : option string) (sdkOk : bool)
  (s : Service) : Service :=
  if isInitialized s then s
  else if negb (isEnabled s) then s
  else if negb (truthy GEMINI_API_KEY) then
    {| isInitialized := isInitialized s; isEnabled := false |}
  else if sdkOk then
    {| isInitialized := true; isEnabled := isEnabled s |}
  else
    {| isInitialized := isInitialized s; isEnabled := false |}.

Definition isAvailable (s : Service) : bool :=
  isEnabled s && isInitialized s.

(** Successive calls of [initialize], one per outcome of the client
    construction. *)
Definition attempts (GEMINI_API_KEY : option string) (outcomes : list bool)
  (s : Service) : Service :=
  fold_left (fun s sdkOk => initialize GEMINI_API_KEY sdkOk s) outcomes s.

End GeminiAvailability.

(* ================================================================== *)
(** * Vocabulary for the facts on the remote prediction *)
(* ================================================================== *)

Module RemoteVocabulary.
Import GeminiService.

(** The other source. *)
Definition swapSource (d : Recommendation) : Recommendation :=
  match d with
  | manual => manual
  | gemini => tflite
  | tflite => gemini
  end.

(** The three varieties of the prompt. *)
Definition varieties : list string :=
  ["ampalaya_bilog"; "patola"; "upo_smooth"].

(** A response that names one of the seven classes: the reject class, or a
    variety of the prompt with the gender male or female. *)
Definition namesClass (variety gender : option string) : Prop :=
  variety = Some "not_flower" \/
  ((exists v, variety = Some v /\ In v varieties) /\
   (gender = Some "male" \/ gender = Some "female")).

(** The sum of a simulated distribution, in the order of its classes. *)
Definition total (probabilities : list (string * number)) : number :=
  fold_left add (map snd probabilities) (Num 0).

(** Every character of the text passes the test. *)
Fixpoint all_chars (f : ascii -> bool) (s : string) : bool :=
  match s with
  | EmptyString => true
  | String c rest => f c && all_chars f rest
  end.

(** The text is made of white space only. *)
Definition blank (s : string) : bool := all_chars is_space s.

(** No character of the text is [c]. *)
Definition without (c : ascii) (s : string) : bool :=
  all_chars (fun a => negb (Ascii.eqb a c)) s.

(** The text is made of digits and dots only. *)
Definition numeral (s : string) : bool := all_chars is_digit_or_dot s.

(** A field as a response writes it: the quoted key, white space, a colon,
    white space and the quoted value. *)
Definition written (name before after value : string) : string :=
  (quoted name ++ before ++ ":" ++ after ++ quoted value)%string.

End RemoteVocabulary.

(* ================================================================== *)
(** * Image preprocessing of the classifier: the crop *)
(* ================================================================== *)

(** The actions [preprocessImage] hands to the image manipulator
    (modelServiceTM.js, lines 111-133). *)
Module ModelServiceTMImage.

Inductive Action : Type :=
| Crop (originX originY width height : Q)
| Resize (width height : Q).

Definition inputSize : Q * Q := (224, 224).

(** Truthiness of a dimension: [undefined] ([None]), [NaN] and 0 are
    falsy. *)
Definition truthyNumber (v : option number) : bool :=
  match v with
  | Some (Num q) => negb (Qeq_bool q 0)
  | _ => false
  end.

Definition asQ (v : option number) : Q :=
  match v with
  | Some (Num q) => q
  | _ => 0
  end.

(** [Math.min] on two numbers that passed the truthiness test. *)
Definition minQ (a b : Q) : Q := if Qle_bool a b then a else b.

Definition cropActions (sourceWidth sourceHeight : option number)
  : list Action :=
  let '(targetWidth, targetHeight) := inputSize in
  let actions :=
    if truthyNumber sourceWidth && truthyNumber sourceHeight then
      let minDimension := minQ (asQ sourceWidth) (asQ sourceHeight) in
      let originX := (asQ sourceWidth - minDimension) / 2 in
      let originY := (asQ sourceHeight - minDimension) / 2 in
      JsArray.push [] (Crop originX originY minDimension minDimension)
    else [] in
  JsArray.push actions (Resize targetWidth targetHeight).

End ModelServiceTMImage.

(* ================================================================== *)
(** * Vocabulary for the facts on the smoothed distribution *)
(* ================================================================== *)

Module SmoothingVocabulary.
Import ModelServiceTM.

(** The value the smoother reads at index [i] of an output tensor. *)
Definition valueAt (output : list number) (i : nat) : Q :=
  orZero (nth_error output i).

(** The sum of a list of rationals. *)
Definition Qsum (l : list Q) : Q := fold_right Qplus 0 l.

(** The six values an output tensor gives to the labels. *)
Definition labelValues (output : list number) : list Q :=
  map (valueAt output) (seq 0 (length TM_LABELS)).

(** The output is a probability distribution over the six labels. *)
Definition normalised (output : list number) : Prop :=
  Qsum (labelValues output) == 1.

(** The labels of a result when nothing, or the reject entry, was
    added. *)
Definition labelsOf (uncertain : bool) : list string :=
  if uncertain then TM_LABELS ++ ["Not Flower"] else TM_LABELS.

(** Descending order of probability. *)
Definition descendingProbability (a b : TMPrediction) : Prop :=
  probability b <= probability a.

End SmoothingVocabulary.

(* ================================================================== *)
(** * Vocabulary for the facts on scanning sessions *)
(* ================================================================== *)

Module SessionVocabulary.
Import CameraScreenTM.

(** The picture a tick stored, if it got that far. *)
Definition pictureOf (t : Tick) : option Photo :=
  match t with
  | TickSkipped => None
  | TickCaptured photo => Some photo
  | TickPredicted photo _ _ => Some photo
  end.

(** The picture of the last tick of a session that stored one. *)
Fixpoint lastPicture (ticks : list Tick) : option Photo :=
  match ticks with
  | [] => None
  | t :: rest =>
      match lastPicture rest with
      | Some photo => Some photo
      | None => pictureOf t
      end
  end.

(** A history entry is the record of one of the predictions of the
    session. *)
Definition recordedFrom (ticks : list Tick) (p : RecentPrediction) : Prop :=
  exists photo,
    In (TickPredicted photo (rp_label p) (rp_confidence p)) ticks /\
    rp_uri p = photo_uri photo /\
    rp_width p = photo_width photo /\
    rp_height p = photo_height photo.

(** A picture was stored by one of the ticks of a session. *)
Definition pictureFrom (ticks : list Tick) (photo : Photo) : Prop :=
  exists t, In t ticks /\ pictureOf t = Some photo.

End SessionVocabulary.

(* ================================================================== *)
(** * The camera screen: what is drawn *)
(* ================================================================== *)

(** The part of the render of [CameraScreenTM] that depends on the
    predictions (ResultsScreenTM.js, lines 1230-1231, 1421, 1449,
    1608-1622 and 1709-1722). *)
Module CameraScreenTMDisplay.
Import ModelServiceTM.







End CameraScreenTMDisplay.

(** Statement vocabulary: an output tensor that is a probability
    distribution over the six labels. *)
Module Distributions.
Import ModelServiceTM SmoothingVocabulary.

Definition distribution (output : list number) : Prop :=
  normalised output /\ forall i : nat, 0 <= valueAt output i.

End Distributions.

(* ================================================================== *)
(** * The results screen: [runAnalysis] *)
(* ================================================================== *)

(** [ResultsScreenTM] (ResultsScreenTM.js, lines 342-356 and 390-492). *)
Module ResultsScreenTM.
Import ModelServiceTM GeminiService GeminiAvailability.

(** [text.includes(search)]. *)
Fixpoint includes (text search : string) : bool :=
  String.prefix search text
  || match text with
     | EmptyString => false
     | String _ rest => includes rest search
     end.

Definition getVarietyFromLabel (label : string) : option string :=
  if negb (truthy (Some label)) then None
  else if includes label "Ampalaya" then Some "Ampalaya Bilog"
  else if includes label "Patola" then Some "Patola"
  else if includes label "Upo" then Some "Upo (Smooth)"
  else if String.eqb label "Not Flower" then None
  else None.

Definition getGenderFromLabel (label : string) : string :=
  if negb (truthy (Some label)) then "unknown"
  else if includes label "Male" then "male"
  else if includes label "Female" then "female"
  else "unknown".

(** The object [tmPred], without the constant fields and the timing. *)
Record TmPred : Type := mkTmPred {
  tp_variety : option string;
  tp_gender : string;
  tp_confidence : Q;
  tp_rawScore : Q;
  tp_label : string;
  tp_isNotFlower : bool;
  tp_allPredictions : list TMPrediction
}.

Definition tmPredOf (tmResult : TMResult) : TmPred :=
  let topTmPrediction := topPrediction tmResult in
  {| tp_variety := getVarietyFromLabel (label topTmPrediction);
     tp_gender := getGenderFromLabel (label topTmPrediction);
     tp_confidence := percentage topTmPrediction;
     tp_rawScore := probability topTmPrediction;
     tp_label := label topTmPrediction;
     tp_isNotFlower := String.eqb (label topTmPrediction) "Not Flower";
     tp_allPredictions := predictions tmResult |}.


Definition remoteFields (g : FormattedPrediction) : Prediction :=
  {| variety := fp_variety g;
     gender := fp_gender g;
     rawScore := fp_rawScore g |}.




(** The display names of the three varieties. *)
Definition displayNames : list string :=
  ["Ampalaya Bilog"; "Patola"; "Upo (Smooth)"].

End ResultsScreenTM.

(** Inputs of the examples on the results screen. *)
Module AnalysisInputs.
Import GeminiService.



(** A remote prediction that takes it for a male ampalaya flower. *)
Definition ampalayaRemote : FormattedPrediction :=
  formatPrediction
    {| gr_variety := Some "ampalaya_bilog";
       gr_gender := Some "male";
       gr_confidence := Some (Num 0.95);
       gr_reasoning := Some "Ruffled petals";
       gr_keyFeatures := [] |}.

End AnalysisInputs.

(* ================================================================== *)
(** * The multi-class classifier: modelService.js *)
(* ================================================================== *)

(** [ModelService] (unnamed/part_006: [MODEL_CONFIG] lines 22-49,
    [predictFlowerGender] 207-253, [parseMultiClassOutput] 259-313,
    [parseBinaryOutput] 319-344, [addToHistory] 370-376,
    [getStabilizedPrediction] 382-417, [clearHistory] 422-425). *)
Module ModelService.

Definition classes : list string :=
  [ "ampalaya_bilog_female";
    "ampalaya_bilog_male";
    "patola_female";
    "patola_male";
    "upo_smooth_female";
    "upo_smooth_male";
    "not_flower" ].

Record ClassInfo : Type := mkClassInfo {
  ci_variety : option string;
  ci_gender : option string;
  ci_isFlower : bool
}.

Definition flower (variety gender : string) : option ClassInfo :=
  Some {| ci_variety := Some variety; ci_gender := Some gender;
          ci_isFlower := true |}.

(** [MODEL_CONFIG.classLabels[cls]]; [None] is [undefined]. *)
Definition classLabels (cls : string) : option ClassInfo :=
  if String.eqb cls "ampalaya_bilog_female"
  then flower "Ampalaya Bilog" "female"
  else if String.eqb cls "ampalaya_bilog_male"
  then flower "Ampalaya Bilog" "male"
  else if String.eqb cls "patola_female" then flower "Patola" "female"
  else if String.eqb cls "patola_male" then flower "Patola" "male"
  else if String.eqb cls "upo_smooth_female"
  then flower "Upo (Smooth)" "female"
  else if String.eqb cls "upo_smooth_male" then flower "Upo (Smooth)" "male"
  else if String.eqb cls "not_flower"
  then Some {| ci_variety := None; ci_gender := None;
               ci_isFlower := false |}
  else None.

Definition confidenceThreshold : Q := 0.65.

Definition maxHistorySize : nat := 5.

(** The object returned by the two parsers, without the message text, the
    model name and the fields added by [predictFlowerGender]. *)
Record Classification : Type := mkClassification {
  cl_predictedClass : option string;
  cl_variety : option string;
  cl_gender : option string;
  cl_isFlower : bool;
  cl_confidence : number;
  cl_rawScore : number;
  cl_isLowConfidence : bool;
  cl_isUncertain : bool;
  cl_confidenceThreshold : Q;
  cl_probabilities : list (string * number);
  cl_isNotFlower : bool;
  cl_shouldReject : bool;
  cl_numClasses : nat
}.

(** The loop of [parseMultiClassOutput] from index [i] on: [values] are the
    entries still to visit. *)
Fixpoint scanMax (i : nat) (values : list number) (maxProb : number)
  (maxIndex : nat) : number * nat :=
  match values with
  | [] => (maxProb, maxIndex)
  | prob :: rest =>
      if gt prob maxProb then scanMax (S i) rest prob i
      else scanMax (S i) rest maxProb maxIndex
  end.

(** [info?.field || null] on a field that is [null] or a string. *)
Definition orNull (v : option string) : option string :=
  if truthy v then v else None.

Definition parseMultiClassOutput (outputTensor : list number)
  : Classification :=
  let numClasses := length classes in
  let visited := firstn numClasses outputTensor in
  let '(maxProb, maxIndex) := scanMax 0 visited (Num (-1)) 0 in
  let probabilities := combine classes visited in
  let predictedClass := nth_error classes maxIndex in
  let classInfo :=
    match predictedClass with
    | Some cls => classLabels cls
    | None => None
    end in
  let confidence := mul maxProb (Num 100) in
  let isLowConfidence := lt confidence (Num (confidenceThreshold * 100)) in
  let isNotFlower := strict_eq predictedClass (Some "not_flower") in
  {| cl_predictedClass := predictedClass;
     cl_variety :=
       match classInfo with
       | Some info => orNull (ci_variety info)
       | None => None
       end;
     cl_gender :=
       match classInfo with
       | Some info => orNull (ci_gender info)
       | None => None
       end;
     cl_isFlower :=
       match classInfo with
       | Some info => ci_isFlower info && negb isLowConfidence
       | None => false
       end;
     cl_confidence := confidence;
     cl_rawScore := maxProb;
     cl_isLowConfidence := isLowConfidence;
     cl_isUncertain := isLowConfidence;
     cl_confidenceThreshold := confidenceThreshold * 100;
     cl_probabilities := probabilities;
     cl_isNotFlower := isNotFlower;
     cl_shouldReject := isNotFlower || isLowConfidence;
     cl_numClasses := numClasses |}.

Definition parseBinaryOutput (rawScore : number) : Classification :=
  let isMale := gt rawScore (Num 0.5) in
  let gender := if isMale then "male" else "female" in
  let confidence :=
    if isMale then mul rawScore (Num 100)
    else mul (sub (Num 1) rawScore) (Num 100) in
  let isLowConfidence := gt rawScore (Num 0.4) && lt rawScore (Num 0.6) in
  {| cl_predictedClass := Some gender;
     cl_variety := Some "Ampalaya Bilog";
     cl_gender := Some gender;
     cl_isFlower := negb isLowConfidence;
     cl_confidence := confidence;
     cl_rawScore := rawScore;
     cl_isLowConfidence := isLowConfidence;
     cl_isUncertain := isLowConfidence;
     cl_confidenceThreshold := 60;
     cl_probabilities :=
       [("female", sub (Num 1) rawScore); ("male", rawScore)];
     cl_isNotFlower := false;
     cl_shouldReject := isLowConfidence;
     cl_numClasses := 2 |}.

(** The state the stabilisation keeps. *)
Record History : Type := mkHistory {
  lastPrediction : option Classification;
  predictionHistory : list Classification
}.

Definition emptyHistory : History :=
  {| lastPrediction := None; predictionHistory := [] |}.

Definition clearHistory (s : History) : History := emptyHistory.

Definition addToHistory (s : History) (prediction : Classification)
  : History :=
  let h := JsArray.push (predictionHistory s) prediction in
  {| lastPrediction := Some prediction;
     predictionHistory :=
       if Nat.ltb maxHistorySize (length h) then JsArray.shift h else h |}.

(** [predictFlowerGender] from the output tensor on; the first entry of an
    empty tensor is [undefined], which compares like [NaN]. *)
Definition predictFlowerGender (isMultiClass : bool) (s : History)
  (outputTensor : list number) : History * Classification :=
  let result :=
    if isMultiClass && Nat.ltb 1 (length outputTensor)
    then parseMultiClassOutput outputTensor
    else parseBinaryOutput (nth 0 outputTensor NaN) in
  (addToHistory s result, result).

(** [classCounts[cls] = (classCounts[cls] || 0) + 1]: the entries keep the
    order in which the classes were first counted. *)
Fixpoint bump (classCounts : list (option string * nat))
  (cls : option string) : list (option string * nat) :=
  match classCounts with
  | [] => [(cls, 1%nat)]
  | (c, n) :: rest =>
      if strict_eq c cls then (c, S n) :: rest
      else (c, n) :: bump rest cls
  end.

Definition countClasses (history : list Classification)
  : list (option string * nat) :=
  fold_left (fun classCounts pred => bump classCounts (cl_predictedClass pred))
    history [].

(** The loop over [Object.entries(classCounts)]. *)
Definition mostCommon (entries : list (option string * nat))
  : nat * option (option string) :=
  fold_left
    (fun '(maxCount, stableClass) '(cls, count) =>
       if Nat.ltb maxCount count then (count, Some cls)
       else (maxCount, stableClass))
    entries (0%nat, None).

(** What [getStabilizedPrediction] returns: the last prediction as it
    is, or an entry of the history with the three fields it adds. *)
Inductive Stabilized : Type :=
| AsIs (lastPrediction : option Classification)
| Stable (prediction : Classification) (stabilityCount historySize : nat).

Definition getStabilizedPrediction (s : History) : Stabilized :=
  if Nat.ltb (length (predictionHistory s)) 3 then AsIs (lastPrediction s)
  else
    let '(maxCount, stableClass) :=
      mostCommon (countClasses (predictionHistory s)) in
    match stableClass with
    | None => AsIs (lastPrediction s)
    | Some cls =>
        match find (fun pred => strict_eq (cl_predictedClass pred) cls)
                (rev (predictionHistory s)) with
        | Some pred => Stable pred maxCount (length (predictionHistory s))
        | None => AsIs (lastPrediction s)
        end
    end.

(** The real-time loop of the old camera screen (unnamed/part_001, lines
    106-142): the predictions made so far, in order. *)
Definition observe (isMultiClass : bool) (s : History)
  (outputs : list (list number)) : History :=
  fold_left (fun s output => fst (predictFlowerGender isMultiClass s output))
    outputs s.

End ModelService.

(** Statement vocabulary for the stabilisation. *)
Module StabilisationVocabulary.
Import ModelService.

Definition option_string_dec (a b : option string) : {a = b} + {a <> b}.
Proof. decide equality. apply string_dec. Defined.

(** How often a class was predicted in a history. *)
Definition occurrences (history : list Classification)
  (cls : option string) : nat :=
  count_occ option_string_dec (map cl_predictedClass history) cls.

End StabilisationVocabulary.

(** The classes of a history in the order in which they were first
    predicted. *)
Module FirstSeen.
Import ModelService StabilisationVocabulary.

Definition note (seen : list (option string)) (cls : option string)
  : list (option string) :=
  if in_dec option_string_dec cls seen then seen else seen ++ [cls].

Definition firstSeen (classes : list (option string))
  : list (option string) :=
  fold_left note classes [].

End FirstSeen.

(* ================================================================== *)
(** * The first camera screen: [analyzePicture] *)
(* ================================================================== *)

(** [CameraScreen] (unnamed/part_001, lines 224-342).  The screen calls
    whichever revision of [comparePredictions] the service carries, so the
    function is a parameter. *)
Module CameraScreen.
Import ModelService GeminiService GeminiAvailability.

(** The fields [comparePredictions] reads of the local prediction. *)
Definition tfliteFields (p : Classification) : Prediction :=
  {| variety := cl_variety p;
     gender := cl_gender p;
     rawScore := cl_rawScore p |}.

(** [finalPrediction]. *)
Inductive Chosen : Type :=
| ChosenTflite (tflitePrediction : Classification)
| ChosenGemini (geminiPrediction : FormattedPrediction).

(** What the user sees when the function is over. *)
Inductive Screen : Type :=
| ModelLoadingAlert
| AnalysisFailedAlert (message : string)
| PredictionConflict (tflitePrediction : Classification)
    (geminiPrediction : FormattedPrediction) (comparison : ComparisonResult)
| Results (prediction : Chosen) (validationStatus : string)
    (tflitePrediction : Classification)
    (geminiPrediction : option FormattedPrediction)
    (comparisonResult : option ComparisonResult)
    (userChoice : option string).

Definition analyzePicture
  (comparePredictions : Prediction -> Prediction -> ComparisonResult)
  (isModelReady : bool) (predictFlowerGender : Outcome Classification)
  (GEMINI_API_KEY : option string) (sdkOk : bool) (service : Service)
  (analyzeFlower : Outcome FormattedPrediction) : Service * Screen :=
  if negb isModelReady then (service, ModelLoadingAlert)
  else
    match predictFlowerGender with
    | Thrown message =>
        (service,
         AnalysisFailedAlert
           (if truthy (Some message) then message
            else "Unable to analyze the image. Please try again with a clearer photo."))
    | Returned tflitePrediction =>
        let service :=
          if negb (isAvailable service)
          then initialize GEMINI_API_KEY sdkOk service else service in
        let tfliteOnly :=
          Results (ChosenTflite tflitePrediction) "tflite_only"
            tflitePrediction None None None in
        if isAvailable service then
          match analyzeFlower with
          | Thrown _ => (service, tfliteOnly)
          | Returned geminiPrediction =>
              let comparisonResult :=
                comparePredictions (tfliteFields tflitePrediction)
                  (ResultsScreenTM.remoteFields geminiPrediction) in
              if agree comparisonResult then
                (service,
                 Results
                   (match recommendation comparisonResult with
                    | gemini => ChosenGemini geminiPrediction
                    | _ => ChosenTflite tflitePrediction
                    end)
                   "validated" tflitePrediction (Some geminiPrediction)
                   (Some comparisonResult) None)
              else
                (service,
                 PredictionConflict tflitePrediction geminiPrediction
                   comparisonResult)
          end
        else (service, tfliteOnly)
    end.

(** [handleConflictResolution]; without a pending conflict there is
    nothing to read the predictions from. *)
Definition handleConflictResolution (showPredictionConflict : Screen)
  (chosenPrediction : Chosen) (source : string) : option Screen :=
  match showPredictionConflict with
  | PredictionConflict tflitePrediction geminiPrediction comparison =>
      Some (Results chosenPrediction "manual_override" tflitePrediction
              (Some geminiPrediction) (Some comparison) (Some source))
  | _ => None
  end.

(** The raw score of the prediction the results screen is given. *)
Definition chosenScore (c : Chosen) : number :=
  match c with
  | ChosenTflite p => cl_rawScore p
  | ChosenGemini p => fp_rawScore p
  end.

End CameraScreen.

(* ================================================================== *)
(** * The classifier without smoothing *)
(* ================================================================== *)

(** The float-only revision of [modelServiceTM] (unnamed/part_005, lines
    13-22 and 196-222): seven trained labels, no smoothing and no reject
    synthesis. *)
Module ModelServiceTMFloat.
Import ModelServiceTM.

Definition TM_LABELS : list string :=
  [ "Ampalaya Bilog Male";
    "Ampalaya Bilog Female";
    "Not Flower";
    "Patola Female";
    "Patola Male";
    "Upo Smooth Female";
    "Upo Smooth Male" ].

(** The array built by [this.labels.map]. *)
Definition labelled (probabilities : list number) : list TMPrediction :=
  JsArray.mapi
    (fun label index =>
       let probability := orZero (nth_error probabilities index) in
       let percentage := probability * 100 in
       {| label := label;
          probability := probability;
          percentage := round1 percentage;
          index := Z.of_nat index;
          isSynthetic := false |})
    TM_LABELS.

Record Result : Type := mkResult {
  predictions : list TMPrediction;
  topPrediction : TMPrediction
}.

Definition predictWithAllProbabilities (probabilities : list number)
  : Result :=
  let predictions :=
    JsArray.sort byProbabilityDesc (labelled probabilities) in
  {| predictions := predictions;
     topPrediction := first predictions |}.

End ModelServiceTMFloat.

(** Inputs of the examples on the multi-class classifier. *)
Module ClassifierInputs.
Import ModelService.

Definition patolaMale : list number :=
  Inputs.tensor [0.01; 0.01; 0.02; 0.9; 0.02; 0.02; 0.02].

Definition upoFemale : list number :=
  Inputs.tensor [0.01; 0.01; 0.02; 0.02; 0.9; 0.02; 0.02].

Definition oneFrame : History :=
  observe true emptyHistory [patolaMale].

(** Two classes seen twice each: the one seen first is kept. *)
Definition fourFrames : History :=
  observe true emptyHistory [upoFemale; patolaMale; patolaMale; upoFemale].

Definition patolaRemote : GeminiService.FormattedPrediction :=
  GeminiService.formatPrediction
    {| GeminiService.gr_variety := Some "patola";
       GeminiService.gr_gender := Some "male";
       GeminiService.gr_confidence := Some (Num 0.95);
       GeminiService.gr_reasoning := Some "Yellow petals";
       GeminiService.gr_keyFeatures := [] |}.

End ClassifierInputs.

(** Longer scanning sessions. *)
Module LongSessions.

Definition femaleTick (n : Z) (percentage : Q) : CameraScreenTM.Tick :=
  CameraScreenTM.TickPredicted (Inputs.photo n) "Patola Female" percentage.

(** Four ticks with another label, before the label settles. *)
Definition femaleTicks : list CameraScreenTM.Tick :=
  [femaleTick 11 70; femaleTick 12 72; femaleTick 13 74; femaleTick 14 71].

End LongSessions.

(** A complete response and a [JSON.parse] that knows its object. *)
Module RevisionInputs.
Import GeminiService.

Definition completeObject : string :=
  ("{" ++ Inputs.field "variety" "patola" ++ ", "
   ++ Inputs.field "gender" "male" ++ ", "
   ++ quoted "confidence" ++ ": 0.75, "
   ++ Inputs.field "reasoning" "Large yellow flower" ++ "}")%string.

(** The object wrapped in a code fence. *)
Definition completeResponse : string :=
  ("```json " ++ completeObject ++ " ```")%string.

Definition completeResult : GeminiResult :=
  {| gr_variety := Some "patola";
     gr_gender := Some "male";
     gr_confidence := Some (Num 0.75);
     gr_reasoning := Some "Large yellow flower";
     gr_keyFeatures := [] |}.

Definition knownParser (json : string) : option GeminiResult :=
  if String.eqb json completeObject then Some completeResult else None.

End RevisionInputs.

(* ================================================================== *)
(** * The whole call of [analyzeFlower] *)
(* ================================================================== *)

(** [analyzeFlower] from its first line (geminiService.js, lines 431-580):
    the availability of the service, the reading of the image, the call of
    the remote model, and the parsing of a response whose fields may have
    any JSON type. *)
Module GeminiCall.
Import GeminiService GeminiAvailability.

(** A value read from a parsed JSON object; [VOther] is an array or an
    object, [VUndefined] a field that is missing. *)
Inductive JsValue : Type :=
| VUndefined
| VNull
| VBool (b : bool)
| VNumber (n : number)
| VString (s : string)
| VOther.

Definition truthyValue (v : JsValue) : bool :=
  match v with
  | VUndefined | VNull => false
  | VBool b => b
  | VNumber NaN => false
  | VNumber (Num q) => negb (Qeq_bool q 0)
  | VString s => truthy (Some s)
  | VOther => true
  end.

(** The object [geminiResult] as [JSON.parse] returns it; the reasoning
    and the key features only travel through and are kept as they are in
    [GeminiResult]. *)
Record RawResult : Type := mkRawResult {
  raw_variety : JsValue;
  raw_gender : JsValue;
  raw_confidence : JsValue;
  raw_reasoning : option string;
  raw_keyFeatures : list string
}.

Definition rawString (v : option string) : JsValue :=
  match v with
  | Some s => VString s
  | None => VUndefined
  end.

(** An object whose fields have the types the prompt asks for. *)
Definition rawOf (r : GeminiResult) : RawResult :=
  {| raw_variety := rawString (gr_variety r);
     raw_gender := rawString (gr_gender r);
     raw_confidence :=
       match gr_confidence r with
       | Some n => VNumber n
       | None => VUndefined
       end;
     raw_reasoning := gr_reasoning r;
     raw_keyFeatures := gr_keyFeatures r |}.

Definition stringField (v : JsValue) : option (option string) :=
  match v with
  | VUndefined => Some None
  | VString s => Some (Some s)
  | _ => None
  end.

(** The typed reading of an object, when its fields have those types. *)
Definition typed (raw : RawResult) : option GeminiResult :=
  match stringField (raw_variety raw), stringField (raw_gender raw),
        raw_confidence raw with
  | Some v, Some g, VUndefined =>
      Some {| gr_variety := v; gr_gender := g; gr_confidence := None;
              gr_reasoning := raw_reasoning raw;
              gr_keyFeatures := raw_keyFeatures raw |}
  | Some v, Some g, VNumber n =>
      Some {| gr_variety := v; gr_gender := g; gr_confidence := Some n;
              gr_reasoning := raw_reasoning raw;
              gr_keyFeatures := raw_keyFeatures raw |}
  | _, _, _ => None
  end.

(** How a call ends: with the prediction of a typed object, with a
    prediction built from fields of other types (whose coerced content is
    not described), or with an error. *)
Inductive CallOutcome : Type :=
| CallReturned (prediction : FormattedPrediction)
| CallReturnedCoerced
| CallThrown (message : string).

Section Call.
(** [JSON.parse] ([None] when it throws), [parseFloat], the number a value
    that is not a number is converted to in arithmetic and comparisons,
    and the message of the [TypeError] of a call of a method that the
    value does not have. *)
Variable JSON_parse : string -> option RawResult.
Variable parseFloat : string -> number.
Variable ToNumber : JsValue -> number.
Variable typeErrorMessage : string.

Definition numberOf (v : JsValue) : number :=
  match v with
  | VNumber n => n
  | _ => ToNumber v
  end.

Definition extractedRaw (text reasoning : string) : option RawResult :=
  option_map rawOf (extracted parseFloat text reasoning).

(** The [try] block of lines 518-542 and its [catch] (lines 543-562). *)
Definition parseRaw (text : string) : Outcome RawResult :=
  let attempt : Outcome RawResult :=
    match jsonMatch_re text with
    | Some json =>
        match JSON_parse json with
        | Some geminiResult => Returned geminiResult
        | None => Thrown "SyntaxError"
        end
    | None =>
        let reasoning :=
          match reasoningMatch_re text with
          | Some r => r
          | None => "Analysis completed"
          end in
        match extractedRaw text reasoning with
        | Some geminiResult => Returned geminiResult
        | None => Thrown "Could not parse Gemini response"
        end
    end in
  match attempt with
  | Returned geminiResult => Returned geminiResult
  | Thrown _ =>
      match extractedRaw text "Analysis completed (partial response)" with
      | Some geminiResult => Returned geminiResult
      | None => Thrown "Invalid response format from Gemini"
      end
  end.

(** The completeness test of line 565. *)
Definition incomplete (raw : RawResult) : bool :=
  negb (truthyValue (raw_variety raw))
  || negb (truthyValue (raw_gender raw))
  || match raw_confidence raw with
     | VUndefined => true
     | _ => false
     end.

(** [formatPrediction] reaches [gender.charAt] when the object is neither
    the reject class nor uncertain (lines 630-637). *)
Definition capitalisesGender (raw : RawResult) : bool :=
  let isNotFlower :=
    match raw_variety raw with
    | VString s => String.eqb s "not_flower"
    | _ => false
    end in
  let isUncertain := lt (numberOf (raw_confidence raw)) (Num 0.5) in
  negb isNotFlower && negb isUncertain.

Definition isString (v : JsValue) : bool :=
  match v with
  | VString _ => true
  | _ => false
  end.

Definition formatRaw (raw : RawResult) : Outcome CallOutcome :=
  if capitalisesGender raw && negb (isString (raw_gender raw))
  then Thrown typeErrorMessage
  else
    match typed raw with
    | Some geminiResult => Returned (CallReturned (formatPrediction geminiResult))
    | None => Returned CallReturnedCoerced
    end.

(** The call: [readAsStringAsync] and the remote call, from
    [generateContent] to [response.text()], either return or throw. *)
Definition analyzeFlower (GEMINI_API_KEY : option string) (sdkOk : bool)
  (service : Service) (readAsStringAsync generateContent : Outcome string)
  : Service * CallOutcome :=
  let service :=
    if negb (isInitialized service)
    then initialize GEMINI_API_KEY sdkOk service else service in
  let body : Outcome CallOutcome :=
    if negb (isAvailable service) then Thrown "Gemini service not available"
    else
      match readAsStringAsync with
      | Thrown message => Thrown message
      | Returned base64Image =>
          match generateContent with
          | Thrown message => Thrown message
          | Returned text =>
              match parseRaw text with
              | Thrown message => Thrown message
              | Returned geminiResult =>
                  if incomplete geminiResult
                  then Thrown "Incomplete response from Gemini"
                  else formatRaw geminiResult
              end
          end
      end in
  (service,
   match body with
   | Returned outcome => outcome
   | Thrown message =>
       CallThrown ("Gemini analysis failed: " ++ message)%string
   end).

End Call.

(** Strict parsing fails: the text holds no JSON object, or [JSON.parse]
    throws on the object found. *)
Definition strictFails (JSON_parse : string -> option RawResult)
  (text : string) : Prop :=
  jsonMatch_re text = None \/
  exists json, jsonMatch_re text = Some json /\ JSON_parse json = None.

(** The parser of the typed objects among those of [JSON_parse]. *)
Definition typedParser (JSON_parse : string -> option RawResult)
  (json : string) : option GeminiResult :=
  match JSON_parse json with
  | Some raw => typed raw
  | None => None
  end.

(** The outcome of the model of [analyzeFlower] from the response text
    on. *)
Definition ofText (o : Outcome FormattedPrediction) : CallOutcome :=
  match o with
  | Returned p => CallReturned p
  | Thrown message => CallThrown message
  end.

(** An available service, and a parser that reads a number where the
    gender should be. *)
Definition ready : Service := {| isInitialized := true; isEnabled := true |}.

Definition numericGender : RawResult :=
  {| raw_variety := VString "patola";
     raw_gender := VNumber (Num 1);
     raw_confidence := VNumber (Num 0.75);
     raw_reasoning := None;
     raw_keyFeatures := [] |}.

End GeminiCall.

(* ================================================================== *)
(** * Arithmetic in binary64 *)
(* ================================================================== *)

(** The definitions above compute with exact rationals.  The code computes
    in binary64: the result of every sum, difference, product and quotient
    is rounded to the nearest number of the format, halfway cases to the
    one with an even significand.  [round] is that rounding on the
    rationals (overflow is left out: nothing below leaves the interval
    from -2000 to 2000), and the computations of the code whose value
    depends on it are written out again with their roundings. *)

Module Binary64.

(** The number of bits of the significand and the smallest exponent of a
    normal number. *)
Definition precision : Z := 53.

Definition emin : Z := -1022.

Definition pow2 (k : Z) : Q := 2 ^ k.

(** The unit roundoff, and half the smallest positive number. *)
Definition u : Q := pow2 (- precision).

Definition eta : Q := pow2 (emin - precision).

(** The exponent of a positive number [x]: the [e] with
    [2^e <= x < 2^(e+1)]. *)
Definition exponent (x : Q) : Z :=
  let e := (Z.log2 (Qnum x) - Z.log2 (Zpos (Qden x)))%Z in
  if Qle_bool (pow2 e) x then e else (e - 1)%Z.

(** The nearest integer, halfway cases to the even one. *)
Definition nearestEven (q : Q) : Z :=
  let f := Qfloor q in
  match Qcompare (q - inject_Z f) (1 # 2) with
  | Lt => f
  | Gt => (f + 1)%Z
  | Eq => if Z.even f then f else (f + 1)%Z
  end.

(** A positive number is rounded to the nearest multiple of
    [2^(e - 52)], where [e] is its exponent, or [emin] for a number
    below the normal range. *)
Definition roundPositive (x : Q) : Q :=
  let e := Z.max (exponent x) emin in
  inject_Z (nearestEven (x * pow2 (precision - 1 - e)))
  * pow2 (e - (precision - 1)).

Definition round (x : Q) : Q :=
  match Qcompare x 0 with
  | Eq => 0
  | Gt => roundPositive x
  | Lt => - roundPositive (- x)
  end.

(** [averagedProbs[i]] of [predictWithAllProbabilities]: [sum] starts at
    0, [sum += historyItem[i] || 0] for every item of the window, then
    [sum / this.predictionHistory.length]. *)
Definition averagedProb (predictionHistory : list (list number)) (i : nat)
  : Q :=
  let sum :=
    fold_left
      (fun sum historyItem =>
         round (sum + ModelServiceTM.orZero (nth_error historyItem i)))
      predictionHistory 0 in
  round (sum / inject_Z (Z.of_nat (length predictionHistory))).

Definition averagedProbs (predictionHistory : list (list number)) : list Q :=
  map (averagedProb predictionHistory)
    (seq 0 (length ModelServiceTM.TM_LABELS)).

(** [Math.round(confidence * 100 * 10) / 10] of [formatPrediction].
    [Math.round] returns an integer, which is a number of the format. *)
Definition confidencePercent (confidence : Q) : Q :=
  round (inject_Z (Qround_half_up (round (round (confidence * 100) * 10)))
         / 10).

(** [remainingProb / (classes.length - 1)] of [buildProbabilities], with
    [remainingProb = 1 - confidence]; the length is an integer. *)
Definition otherClassProb (confidence : Q) : Q :=
  round (round (1 - confidence)
         / (inject_Z (Z.of_nat (length GeminiService.classes)) - 1)).

Definition buildProbabilities (variety gender : option string)
  (confidence : Q) : list (string * Q) :=
  let predictedClass :=
    if strict_eq variety (Some "not_flower") then "not_flower"
    else (GeminiService.interpolate variety ++ "_"
          ++ GeminiService.interpolate gender)%string in
  map (fun cls =>
         (cls, if String.eqb cls predictedClass then confidence
               else otherClassProb confidence))
      GeminiService.classes.

End Binary64.

(** Inputs that are numbers of the format. *)
Module Binary64Inputs.

(** The output tensor whose entries are the numbers that decimal literals
    denote. *)
Definition tensor (values : list Q) : list number :=
  map (fun v => Num (Binary64.round v)) values.

Definition steady : list number := tensor [0.7; 0.2; 0.05; 0.05; 0; 0].

Definition sharp : list number :=
  tensor [0.9; 0.02; 0.02; 0.02; 0.02; 0.02].

(** The numbers the literals [0.8765] and [0.9] denote. *)
Definition confidence_8765 : Q := Binary64.round 0.8765.

Definition confidence_09 : Q := Binary64.round 0.9.

End Binary64Inputs.

(* ================================================================== *)
(** * Facts about numbers and strings *)
(* ================================================================== *)

Lemma lt_Num (x y : Q) : lt (Num x) (Num y) = true <-> x < y.
Proof.
  unfold lt. rewrite negb_true_iff. split; intro H.
  - apply Qnot_le_lt. intro Hle. apply Qle_bool_iff in Hle. congruence.
  - destruct (Qle_bool y x) eqn:E; [|reflexivity].
    apply Qle_bool_iff in E. exfalso. exact (Qlt_not_le _ _ H E).
Qed.

Lemma ge_not_lt (a b : number) : ge a b = true -> lt a b = false.
Proof.
  destruct a, b; simpl; try reflexivity. intros ->. reflexivity.
Qed.

Lemma lt_not_ge (a b : number) : lt a b = true -> ge a b = false.
Proof.
  destruct a, b; simpl; try discriminate. apply negb_true_iff.
Qed.

Lemma gt_ge (a b : number) : gt a b = true -> ge a b = true.
Proof.
  destruct a as [|x], b as [|y]; simpl; try discriminate.
  intro H. apply lt_Num in H. apply Qle_bool_iff. apply Qlt_le_weak, H.
Qed.

Lemma eqb_ge (a b : number) : eqb a b = true -> ge b a = true.
Proof.
  destruct a as [|x], b as [|y]; simpl; try discriminate.
  intro H. apply Qeq_bool_iff in H. apply Qle_bool_iff.
  rewrite H. apply Qle_refl.
Qed.

Lemma strict_eq_refl (v : option string) : strict_eq v v = true.
Proof. destruct v; simpl; [apply String.eqb_refl | reflexivity]. Qed.

(* ================================================================== *)
(** * Arbitration *)
(* ================================================================== *)

Section Arbitration.
Import DecisionTable.

(** On a pair with equal varieties and equal genders the result only
    depends on the two raw scores. *)
Lemma compare_agreeing (l r : Prediction) :
  variety l = variety r -> gender l = gender r ->
  GeminiService.comparePredictions l r =
  {| agree := true; varietyMatch := true; genderMatch := true;
     confidence := max (rawScore l) (rawScore r);
     recommendation :=
       if ge (rawScore r) (rawScore l) then gemini else tflite;
     confidenceGap := abs (sub (rawScore l) (rawScore r)) |}.
Proof.
  intros Hv Hg. unfold GeminiService.comparePredictions.
  rewrite Hv, Hg, !strict_eq_refl. reflexivity.
Qed.

(** C3 -- Agreement rule.  When the two predictions carry the same variety
    and the same gender, [comparePredictions] reports agreement and
    recommends the source with the higher raw score; on equal scores it
    recommends the remote source. *)
Theorem agreement_prefers_higher_score (l r : Prediction) :
  variety l = variety r ->
  gender l = gender r ->
  let c := GeminiService.comparePredictions l r in
  agree c = true /\
  (gt (rawScore l) (rawScore r) = true -> recommendation c = tflite) /\
  (gt (rawScore r) (rawScore l) = true -> recommendation c = gemini) /\
  (eqb (rawScore l) (rawScore r) = true -> recommendation c = gemini).
Proof.
  intros Hv Hg c. subst c. rewrite (compare_agreeing l r Hv Hg). simpl.
  repeat split.
  - intro H. unfold gt in H. rewrite (lt_not_ge _ _ H). reflexivity.
  - intro H. rewrite (gt_ge _ _ H). reflexivity.
  - intro H. rewrite (eqb_ge _ _ H). reflexivity.
Qed.

(** The example of the specification: Patola male at 0.80 locally and at
    0.92 remotely. *)
Lemma agreement_patola_example :
  variety Inputs.patola_male_080 = variety Inputs.patola_male_092 /\
  gender Inputs.patola_male_080 = gender Inputs.patola_male_092 /\
  agree (GeminiService.comparePredictions
           Inputs.patola_male_080 Inputs.patola_male_092) = true /\
  recommendation (GeminiService.comparePredictions
                    Inputs.patola_male_080 Inputs.patola_male_092) = gemini.
Proof.
  split; [reflexivity | split; [reflexivity |]].
  destruct (agreement_prefers_higher_score
              Inputs.patola_male_080 Inputs.patola_male_092
              eq_refl eq_refl) as (Ha & _ & Hr & _).
  split; [exact Ha | apply Hr; reflexivity].
Defined.

(** C10 -- The legacy and the current [comparePredictions] return the same
    result on every pair with equal varieties and equal genders. *)
Theorem revisions_coincide_on_agreement (l r : Prediction) :
  variety l = variety r ->
  gender l = gender r ->
  GeminiServiceLegacy.comparePredictions l r =
  GeminiService.comparePredictions l r.
Proof.
  intros Hv Hg. rewrite (compare_agreeing l r Hv Hg).
  unfold GeminiServiceLegacy.comparePredictions.
  rewrite Hv, Hg, !strict_eq_refl. reflexivity.
Qed.

Lemma revisions_coincide_example :
  variety Inputs.patola_male_080 = variety Inputs.patola_male_092 /\
  gender Inputs.patola_male_080 = gender Inputs.patola_male_092 /\
  GeminiServiceLegacy.comparePredictions
    Inputs.patola_male_080 Inputs.patola_male_092 =
  GeminiService.comparePredictions
    Inputs.patola_male_080 Inputs.patola_male_092.
Proof.
  split; [reflexivity | split; [reflexivity |]].
  apply (revisions_coincide_on_agreement
           Inputs.patola_male_080 Inputs.patola_male_092); reflexivity.
Defined.

(** On a disagreeing pair the recommendation is the nested conditional of
    the code, read as a table: the species check first, then the later
    rules. *)
Lemma compare_disagreeing (l r : Prediction) :
  agree (GeminiService.comparePredictions l r) = false ->
  recommendation (GeminiService.comparePredictions l r) =
  firstMatch (speciesGuard :: laterRules) l r.
Proof.
  unfold GeminiService.comparePredictions. simpl. intros ->.
  unfold speciesGuard, genderGuard, localOverwhelming, remoteOverwhelming,
    localHigh, remoteHigh, speciesPairing, femaleAgainstMale.
  repeat match goal with
         | |- context [if ?b then _ else _] => destruct b; simpl
         end; reflexivity.
Qed.

Lemma disagree_of_genders (l r : Prediction) :
  gender l = Some "female" -> gender r = Some "male" ->
  agree (GeminiService.comparePredictions l r) = false.
Proof.
  intros Hl Hr. unfold GeminiService.comparePredictions. simpl.
  rewrite Hl, Hr. simpl. apply andb_false_r.
Qed.

(** C1, as stated, fails on the code.  With a local female reading at 0.6
    and a remote male reading at 0.9 (below 0.98) the result is [manual],
    not the local source; and on the variety pairing of the species check
    the local source is kept although the remote male reading is at
    0.99. *)
Lemma female_protection_counterexample :
  (gender Inputs.patola_female_060 = Some "female" /\
   gender Inputs.patola_male_090 = Some "male" /\
   agree (GeminiService.comparePredictions
            Inputs.patola_female_060 Inputs.patola_male_090) = false /\
   lt (rawScore Inputs.patola_male_090) (Num 0.98) = true /\
   recommendation (GeminiService.comparePredictions
                     Inputs.patola_female_060 Inputs.patola_male_090)
   = manual) /\
  (gender Inputs.upo_female_090 = Some "female" /\
   gender Inputs.ampalaya_male_099 = Some "male" /\
   agree (GeminiService.comparePredictions
            Inputs.upo_female_090 Inputs.ampalaya_male_099) = false /\
   ge (rawScore Inputs.ampalaya_male_099) (Num 0.98) = true /\
   recommendation (GeminiService.comparePredictions
                     Inputs.upo_female_090 Inputs.ampalaya_male_099)
   = tflite).
Proof. repeat split. Qed.

(** C1 (amended) -- Female protection.  When the local prediction is female
    and the remote one is male, and the pair is not the variety pairing of
    the species check, the pair disagrees and the local source is
    recommended if the remote raw score is below 0.98 and the local one
    above 0.65, the remote source is recommended if the remote raw score
    is at least 0.98, and the user is asked if the remote raw score is
    below 0.98 while the local one is not above 0.65. *)
Theorem female_protection (l r : Prediction) :
  gender l = Some "female" ->
  gender r = Some "male" ->
  speciesPairing l r = false ->
  agree (GeminiService.comparePredictions l r) = false /\
  (lt (rawScore r) (Num 0.98) = true ->
   gt (rawScore l) (Num 0.65) = true ->
   recommendation (GeminiService.comparePredictions l r) = tflite) /\
  (ge (rawScore r) (Num 0.98) = true ->
   recommendation (GeminiService.comparePredictions l r) = gemini) /\
  (lt (rawScore r) (Num 0.98) = true ->
   gt (rawScore l) (Num 0.65) = false ->
   recommendation (GeminiService.comparePredictions l r) = manual).
Proof.
  intros Hl Hr Hsp.
  pose proof (disagree_of_genders l r Hl Hr) as Hd.
  split; [exact Hd|].
  rewrite (compare_disagreeing l r Hd). simpl.
  unfold speciesGuard, genderGuard, femaleAgainstMale.
  rewrite Hsp, Hl, Hr. simpl.
  repeat split.
  - intros H1 H2. rewrite H1, H2. reflexivity.
  - intro H. rewrite (ge_not_lt _ _ H), H. reflexivity.
  - intros H1 H2. rewrite H1, H2, (lt_not_ge _ _ H1). reflexivity.
Qed.

(** The rule-ordering example of the specification: local female at 0.95,
    remote male at 0.99, then at 0.90. *)
Lemma female_protection_example :
  (gender Inputs.a_female_095 = Some "female" /\
   gender Inputs.a_male_099 = Some "male" /\
   speciesPairing Inputs.a_female_095 Inputs.a_male_099 = false /\
   recommendation (GeminiService.comparePredictions
                     Inputs.a_female_095 Inputs.a_male_099) = gemini) /\
  recommendation (GeminiService.comparePredictions
                    Inputs.a_female_095 Inputs.a_male_090) = tflite.
Proof.
  split.
  - split; [reflexivity | split; [reflexivity | split; [reflexivity |]]].
    destruct (female_protection Inputs.a_female_095 Inputs.a_male_099
                eq_refl eq_refl eq_refl) as (_ & _ & Hg & _).
    apply Hg. reflexivity.
  - destruct (female_protection Inputs.a_female_095 Inputs.a_male_090
                eq_refl eq_refl eq_refl) as (_ & Ht & _ & _).
    apply Ht; reflexivity.
Defined.

(** C2, as stated, fails on the code.  On the variety pairing with a local
    raw score of 0.6 the stated guard does not apply and the later rules
    would decide for the remote source (female protection, remote at
    0.99), but the code asks the user; and at a local raw score of exactly
    0.80 the stated guard prefers the local source while the code asks the
    user. *)
Lemma species_guard_counterexample :
  (agree (GeminiService.comparePredictions
            Inputs.upo_female_060 Inputs.ampalaya_male_099) = false /\
   speciesGuard_stated Inputs.upo_female_060 Inputs.ampalaya_male_099
   = None /\
   firstMatch (speciesGuard_stated :: laterRules)
     Inputs.upo_female_060 Inputs.ampalaya_male_099 = gemini /\
   recommendation (GeminiService.comparePredictions
                     Inputs.upo_female_060 Inputs.ampalaya_male_099)
   = manual) /\
  (agree (GeminiService.comparePredictions
            Inputs.upo_male_080 Inputs.ampalaya_male_050) = false /\
   ge (rawScore Inputs.upo_male_080) (Num 0.80) = true /\
   firstMatch (speciesGuard_stated :: laterRules)
     Inputs.upo_male_080 Inputs.ampalaya_male_050 = tflite /\
   recommendation (GeminiService.comparePredictions
                     Inputs.upo_male_080 Inputs.ampalaya_male_050)
   = manual).
Proof. repeat split. Qed.

(** C2 (amended) -- Rule ordering.  On a disagreeing pair the rules are
    tried from the top and the first that applies decides.  The species
    check applies as soon as the local variety is Upo (Smooth) and the
    remote one Ampalaya Bilog: it recommends the local source when the
    local raw score is above 0.80 and asks the user otherwise, and no later
    rule is consulted.  Every other disagreeing pair is decided by the
    later rules in order: gender guard, local overwhelming, remote
    overwhelming, local high, remote high, else the user. *)
Theorem disagreement_rule_order (l r : Prediction) :
  agree (GeminiService.comparePredictions l r) = false ->
  recommendation (GeminiService.comparePredictions l r) =
    firstMatch (speciesGuard :: laterRules) l r /\
  (speciesPairing l r = true ->
   recommendation (GeminiService.comparePredictions l r) =
     if gt (rawScore l) (Num 0.8) then tflite else manual) /\
  (speciesPairing l r = false ->
   recommendation (GeminiService.comparePredictions l r) =
     firstMatch laterRules l r).
Proof.
  intro Hd. rewrite (compare_disagreeing l r Hd).
  split; [reflexivity|].
  cbn [firstMatch]. unfold speciesGuard.
  split; intros ->; reflexivity.
Qed.

Lemma disagreement_rule_order_example :
  agree (GeminiService.comparePredictions
           Inputs.upo_female_060 Inputs.ampalaya_male_099) = false /\
  speciesPairing Inputs.upo_female_060 Inputs.ampalaya_male_099 = true /\
  recommendation (GeminiService.comparePredictions
                    Inputs.upo_female_060 Inputs.ampalaya_male_099)
  = manual.
Proof.
  split; [reflexivity | split; [reflexivity |]].
  destruct (disagreement_rule_order
              Inputs.upo_female_060 Inputs.ampalaya_male_099 eq_refl)
    as (_ & Hp & _).
  rewrite (Hp eq_refl). reflexivity.
Defined.

End Arbitration.

(* ================================================================== *)
(** * The stable descending sort *)
(* ================================================================== *)

Section SortFacts.
Context {A : Type}.
Variable key : A -> Q.

Local Abbreviation cmp := (Ranking.descending key).
Local Abbreviation ordered := (fun a b : A => key b <= key a).

Lemma descending_le (x y : A) :
  Qle_bool (cmp x y) 0 = Qle_bool (key y) (key x).
Proof.
  unfold cmp, Ranking.descending.
  destruct (Qle_bool (key y) (key x)) eqn:E.
  - apply Qle_bool_iff in E. apply Qle_bool_iff. lra.
  - destruct (Qle_bool (key y - key x) 0) eqn:E'; [|reflexivity].
    apply Qle_bool_iff in E'.
    assert (key y <= key x) as H by lra.
    apply Qle_bool_iff in H. congruence.
Qed.

Lemma Qle_bool_false (x y : Q) : Qle_bool x y = false -> y < x.
Proof.
  intro E. apply Qnot_le_lt. intro H. apply Qle_bool_iff in H. congruence.
Qed.

Lemma insert_In (x y : A) (l : list A) :
  In y (JsArray.insert cmp x l) <-> y = x \/ In y l.
Proof.
  induction l as [|z l IH]; simpl.
  - intuition congruence.
  - destruct (Qle_bool (cmp x z) 0); simpl; rewrite ?IH;
      intuition congruence.
Qed.

Lemma sort_In (y : A) (l : list A) :
  In y (JsArray.sort cmp l) <-> In y l.
Proof.
  induction l as [|x l IH]; simpl; [tauto|].
  rewrite insert_In, IH. intuition congruence.
Qed.

Lemma insert_length (x : A) (l : list A) :
  length (JsArray.insert cmp x l) = S (length l).
Proof.
  induction l as [|z l IH]; simpl; [reflexivity|].
  destruct (Qle_bool (cmp x z) 0); simpl; congruence.
Qed.

Lemma sort_length (l : list A) : length (JsArray.sort cmp l) = length l.
Proof.
  induction l as [|x l IH]; simpl; [reflexivity|].
  rewrite insert_length. congruence.
Qed.

Lemma hd_insert (x : A) (l : list A) :
  hd_error (JsArray.insert cmp x l) =
  match hd_error l with
  | None => Some x
  | Some y => if Qle_bool (key y) (key x) then Some x else Some y
  end.
Proof.
  destruct l as [|y l]; simpl; [reflexivity|].
  rewrite descending_le. destruct (Qle_bool (key y) (key x)); reflexivity.
Qed.

(** The head of the sorted array is the leftmost maximum of the input. *)
Lemma hd_sort (l : list A) :
  hd_error (JsArray.sort cmp l) = Ranking.leftmostMax key l.
Proof.
  induction l as [|x l IH]; simpl; [reflexivity|].
  rewrite hd_insert, IH. reflexivity.
Qed.

Lemma leftmostMax_In (l : list A) (m : A) :
  Ranking.leftmostMax key l = Some m -> In m l.
Proof.
  revert m. induction l as [|x l IH]; simpl; intros m H; [discriminate|].
  destruct (Ranking.leftmostMax key l) as [y|].
  - destruct (Qle_bool (key y) (key x)); inversion H; subst; auto.
  - inversion H; auto.
Qed.

Lemma leftmostMax_upper (l : list A) (m : A) :
  Ranking.leftmostMax key l = Some m ->
  forall x, In x l -> key x <= key m.
Proof.
  revert m. induction l as [|a l IH]; simpl; intros m H x Hx; [tauto|].
  destruct (Ranking.leftmostMax key l) as [y|] eqn:E.
  - specialize (IH y eq_refl).
    destruct (Qle_bool (key y) (key a)) eqn:Ea; inversion H; subst.
    + apply Qle_bool_iff in Ea. destruct Hx as [->|Hx]; [lra|].
      specialize (IH x Hx). lra.
    + apply Qle_bool_false in Ea. destruct Hx as [->|Hx]; [lra|].
      exact (IH x Hx).
  - inversion H; subst. destruct Hx as [->|Hx]; [lra|].
    destruct l; [destruct Hx|]. simpl in E.
    destruct (Ranking.leftmostMax key l);
      [destruct (Qle_bool _ _)|]; discriminate.
Qed.

Lemma leftmostMax_None (l : list A) :
  Ranking.leftmostMax key l = None -> l = [].
Proof.
  destruct l as [|x l]; [reflexivity|]. simpl.
  destruct (Ranking.leftmostMax key l);
    [destruct (Qle_bool _ _)|]; discriminate.
Qed.

(** Appending one element at the end: it becomes the leftmost maximum
    only if its key is strictly above every other key. *)
Lemma leftmostMax_snoc (l : list A) (s : A) :
  Ranking.leftmostMax key (l ++ [s]) =
  match Ranking.leftmostMax key l with
  | None => Some s
  | Some y => if Qle_bool (key s) (key y) then Some y else Some s
  end.
Proof.
  induction l as [|x l IH]; simpl; [reflexivity|].
  rewrite IH. destruct (Ranking.leftmostMax key l) as [y|].
  - destruct (Qle_bool (key s) (key y)) eqn:Es;
      destruct (Qle_bool (key y) (key x)) eqn:Ey;
      try rewrite Es; try reflexivity.
    + apply Qle_bool_iff in Es, Ey.
      assert (key s <= key x) as H by lra.
      apply Qle_bool_iff in H. rewrite H. reflexivity.
    + apply Qle_bool_false in Es, Ey.
      destruct (Qle_bool (key s) (key x)) eqn:Ex; [|reflexivity].
      apply Qle_bool_iff in Ex. lra.
  - reflexivity.
Qed.

Lemma insert_sorted (x : A) (l : list A) :
  StronglySorted ordered l -> StronglySorted ordered (JsArray.insert cmp x l).
Proof.
  induction 1 as [|y l Hs IH Hy]; simpl.
  - constructor; constructor.
  - rewrite descending_le. destruct (Qle_bool (key y) (key x)) eqn:E.
    + apply Qle_bool_iff in E. constructor; [constructor; assumption|].
      constructor; [exact E|].
      rewrite Forall_forall in *. intros z Hz. specialize (Hy z Hz).
      simpl in *. lra.
    + apply Qle_bool_false in E. constructor; [exact IH|].
      rewrite Forall_forall in *. intros z Hz.
      apply insert_In in Hz. destruct Hz as [->|Hz]; [|auto].
      simpl. lra.
Qed.

Lemma sort_sorted (l : list A) : StronglySorted ordered (JsArray.sort cmp l).
Proof.
  induction l as [|x l IH]; simpl; [constructor|].
  apply insert_sorted, IH.
Qed.

Lemma leftmostMax_sorted (l : list A) :
  StronglySorted ordered l -> Ranking.leftmostMax key l = hd_error l.
Proof.
  induction 1 as [|x l Hs IH Hx]; simpl; [reflexivity|].
  destruct (Ranking.leftmostMax key l) as [y|] eqn:E; [|reflexivity].
  apply leftmostMax_In in E. rewrite Forall_forall in Hx.
  specialize (Hx y E). apply Qle_bool_iff in Hx. rewrite Hx. reflexivity.
Qed.

(** Sorting an already sorted array with one more element appended. *)
Lemma hd_sort_snoc (l : list A) (top s : A) :
  hd_error (JsArray.sort cmp l) = Some top ->
  hd_error (JsArray.sort cmp (JsArray.sort cmp l ++ [s])) =
  if Qle_bool (key s) (key top) then Some top else Some s.
Proof.
  intro Htop. rewrite hd_sort, leftmostMax_snoc.
  rewrite (leftmostMax_sorted _ (sort_sorted l)), Htop. reflexivity.
Qed.

End SortFacts.

(* ================================================================== *)
(** * Smoothing window and reject synthesis *)
(* ================================================================== *)

Section Smoother.
Import ModelServiceTM.

Lemma slice_last_rev {A : Type} (n : nat) (l : list A) :
  JsArray.slice_last n l = rev (firstn n (rev l)).
Proof.
  unfold JsArray.slice_last. rewrite firstn_rev, rev_involutive. reflexivity.
Qed.

Lemma slice_last_length {A : Type} (n : nat) (l : list A) :
  length (JsArray.slice_last n l) = Nat.min n (length l).
Proof.
  unfold JsArray.slice_last. rewrite length_skipn. lia.
Qed.

Lemma slice_last_all {A : Type} (n : nat) (l : list A) :
  (length l <= n)%nat -> JsArray.slice_last n l = l.
Proof.
  intro H. unfold JsArray.slice_last.
  replace (length l - n)%nat with 0%nat by lia. reflexivity.
Qed.

(** The last [n] elements only depend on the last [n] elements of any
    prefix. *)
Lemma slice_last_app_slice {A : Type} (n : nat) (a b : list A) :
  JsArray.slice_last n (JsArray.slice_last n a ++ b) =
  JsArray.slice_last n (a ++ b).
Proof.
  rewrite !slice_last_rev, !rev_app_distr, !firstn_app.
  rewrite rev_involutive, firstn_firstn.
  replace (Nat.min (n - length (rev b)) n) with (n - length (rev b))%nat
    by lia.
  reflexivity.
Qed.

Lemma slice_last_app_exact {A : Type} (a b : list A) :
  JsArray.slice_last (length b) (a ++ b) = b.
Proof.
  unfold JsArray.slice_last. rewrite length_app.
  replace (length a + length b - length b)%nat with (length a + 0)%nat
    by lia.
  rewrite skipn_app, skipn_all2 by lia.
  replace (length a + 0 - length a)%nat with 0%nat by lia. reflexivity.
Qed.

(** One smoothing step keeps the last [historySize] outputs. *)
Lemma pushHistory_slice (h : list (list number)) (o : list number) :
  (length h <= historySize)%nat ->
  pushHistory h o = JsArray.slice_last historySize (h ++ [o]).
Proof.
  intro Hlen. unfold pushHistory, JsArray.push, JsArray.shift.
  destruct (Nat.ltb historySize (length (h ++ [o]))) eqn:E.
  - apply Nat.ltb_lt in E. rewrite length_app in E. simpl in E.
    unfold JsArray.slice_last. rewrite length_app. simpl.
    replace (length h + 1 - historySize)%nat with 1%nat by lia.
    destruct h; reflexivity.
  - apply Nat.ltb_ge in E. symmetry. apply slice_last_all. exact E.
Qed.

Lemma feed_history (outs : list (list number)) :
  forall (h : list (list number)) (last : option TMResult),
  (length h <= historySize)%nat ->
  fst (feed h outs last) = JsArray.slice_last historySize (h ++ outs).
Proof.
  induction outs as [|o outs IH]; intros h last Hlen; cbn [feed].
  - cbn [fst]. rewrite app_nil_r. symmetry. apply slice_last_all. exact Hlen.
  - destruct (predictWithAllProbabilities h o) as [h' r] eqn:E.
    assert (h' = pushHistory h o) as ->.
    { pose proof (f_equal fst E) as E1. cbn [fst] in E1. rewrite <- E1.
      unfold predictWithAllProbabilities. destruct (negb _); reflexivity. }
    rewrite IH.
    + rewrite (pushHistory_slice h o Hlen), slice_last_app_slice.
      rewrite <- app_assoc. reflexivity.
    + rewrite (pushHistory_slice h o Hlen), slice_last_length. lia.
Qed.

Lemma feed_fst_last (outs : list (list number)) :
  forall (h : list (list number)) (last last' : option TMResult),
  fst (feed h outs last) = fst (feed h outs last').
Proof.
  induction outs as [|o outs IH]; intros h last last'; cbn [feed];
    [reflexivity|].
  destruct (predictWithAllProbabilities h o). apply IH.
Qed.

(** The result of a session is the result of its last call. *)
Lemma feed_snoc (outs : list (list number)) (o : list number) :
  forall (h : list (list number)) (last : option TMResult),
  snd (feed h (outs ++ [o]) last) =
  Some (snd (predictWithAllProbabilities (fst (feed h outs None)) o)).
Proof.
  induction outs as [|x outs IH]; intros h last; cbn [feed app fst].
  - destruct (predictWithAllProbabilities h o). reflexivity.
  - destruct (predictWithAllProbabilities h x) as [h' r].
    rewrite IH, (feed_fst_last outs h' (Some r) None). reflexivity.
Qed.

(** The result of a call is a function of the window after the push. *)
Lemma result_of_window (h h' : list (list number)) (o o' : list number) :
  pushHistory h o = pushHistory h' o' ->
  snd (predictWithAllProbabilities h o) =
  snd (predictWithAllProbabilities h' o').
Proof.
  intro E. unfold predictWithAllProbabilities. rewrite E.
  destruct (negb _); reflexivity.
Qed.

Lemma snoc_of_length {A : Type} (l : list A) (n : nat) :
  length l = S n -> exists front x, l = front ++ [x].
Proof.
  intro H. destruct (exists_last (l := l)) as (front & x & ->).
  - intro E. subst. discriminate.
  - eauto.
Qed.

(** The window is not shorter than five either: in a session of six
    outputs the fifth from the last is the oldest one still in the window,
    and replacing it changes the result. *)
Lemma fifth_from_last_is_in_window :
  length Inputs.lastFour = 4%nat /\
  snd (feed [] ([Inputs.top_055; Inputs.top_040] ++ Inputs.lastFour) None) <>
  snd (feed [] ([Inputs.top_055; Inputs.low_030] ++ Inputs.lastFour) None).
Proof.
  split; [reflexivity|]. vm_compute. discriminate.
Qed.

(** C8 -- Smoothing window bound.  After any sequence of calls the
    history holds exactly the last five output tensors, the oldest being
    evicted when a sixth arrives; and two sessions that end with the same
    five tensors return the same result, whatever was fed before them: a
    tensor older than the last five, such as the one just evicted, has no
    influence on the output. *)
Theorem smoothing_window_bound :
  (forall outs : list (list number),
     fst (feed [] outs None) = JsArray.slice_last historySize outs) /\
  (forall older older' recent : list (list number),
     length recent = historySize ->
     snd (feed [] (older ++ recent) None) =
     snd (feed [] (older' ++ recent) None)).
Proof.
  split.
  - intro outs. rewrite feed_history by (simpl; lia). reflexivity.
  - intros older older' recent Hlen.
    destruct (snoc_of_length recent _ Hlen) as (front & o & ->).
    rewrite !app_assoc, !feed_snoc. f_equal.
    apply result_of_window.
    rewrite !feed_history by (simpl; lia). cbn [app].
    rewrite !pushHistory_slice by (rewrite slice_last_length; lia).
    rewrite !slice_last_app_slice, <- !app_assoc, <- Hlen.
    rewrite !slice_last_app_exact. reflexivity.
Qed.

(** Six outputs: replacing the oldest one, which the sixth evicts, leaves
    the result unchanged. *)
Lemma smoothing_window_example :
  length Inputs.lastFive = historySize /\
  snd (feed [] ([Inputs.top_055] ++ Inputs.lastFive) None) =
  snd (feed [] ([Inputs.low_030] ++ Inputs.lastFive) None).
Proof.
  split; [reflexivity|].
  apply (proj2 smoothing_window_bound [Inputs.top_055] [Inputs.low_030]
           Inputs.lastFive).
  reflexivity.
Defined.

Lemma mapi_from_length {A B : Type} (f : A -> nat -> B) (l : list A) :
  forall i, length (JsArray.mapi_from f i l) = length l.
Proof.
  induction l as [|x l IH]; intro i; simpl; [reflexivity|].
  rewrite IH. reflexivity.
Qed.

Lemma mapi_from_In {A B : Type} (f : A -> nat -> B) (l : list A) (y : B) :
  forall i, In y (JsArray.mapi_from f i l) -> exists x j, In x l /\ y = f x j.
Proof.
  induction l as [|x l IH]; intros i H; simpl in H; [tauto|].
  destruct H as [<-|H].
  - exists x, i. simpl. auto.
  - destruct (IH _ H) as (x' & j & Hin & ->). exists x', j. simpl. auto.
Qed.

Lemma smoothedRanking_length (h : list (list number)) (o : list number) :
  length (smoothedRanking h o) = length TM_LABELS.
Proof.
  unfold smoothedRanking.
  change byProbabilityDesc with (Ranking.descending probability).
  rewrite sort_length. unfold labelled, JsArray.mapi.
  apply mapi_from_length.
Qed.

(** The entries of the ranking carry labels of the model, never the reject
    label. *)
Lemma smoothedRanking_label (h : list (list number)) (o : list number)
  (e : TMPrediction) :
  In e (smoothedRanking h o) -> In (label e) TM_LABELS.
Proof.
  unfold smoothedRanking.
  change byProbabilityDesc with (Ranking.descending probability).
  rewrite sort_In. unfold labelled, JsArray.mapi. intro H.
  destruct (mapi_from_In _ _ _ _ H) as (x & j & Hin & ->). exact Hin.
Qed.

Lemma not_flower_not_a_label : ~ In "Not Flower" TM_LABELS.
Proof.
  unfold TM_LABELS. simpl. intuition discriminate.
Qed.

Lemma smoothedRanking_top (h : list (list number)) (o : list number) :
  hd_error (smoothedRanking h o) = Some (first (smoothedRanking h o)).
Proof.
  pose proof (smoothedRanking_length h o) as Hlen.
  destruct (smoothedRanking h o); [discriminate | reflexivity].
Qed.

Lemma first_of_hd (l : list TMPrediction) (x : TMPrediction) :
  hd_error l = Some x -> first l = x.
Proof. destruct l; simpl; congruence. Qed.

(** The result of a call, in terms of the ranking before the synthesis. *)
Lemma predict_result (h : list (list number)) (o : list number) :
  snd (predictWithAllProbabilities h o) =
  if negb (Qle_bool CONFIDENCE_THRESHOLD
             (probability (first (smoothedRanking h o))))
  then
    {| predictions :=
         JsArray.sort byProbabilityDesc
           (JsArray.push (smoothedRanking h o)
              (notFlowerPrediction (first (smoothedRanking h o))));
       topPrediction :=
         first (JsArray.sort byProbabilityDesc
                  (JsArray.push (smoothedRanking h o)
                     (notFlowerPrediction (first (smoothedRanking h o)))));
       isUncertain := true |}
  else
    {| predictions := smoothedRanking h o;
       topPrediction := first (smoothedRanking h o);
       isUncertain := false |}.
Proof.
  unfold predictWithAllProbabilities, smoothedRanking.
  destruct (negb _); reflexivity.
Qed.

(** After the synthesis the top entry is the reject entry when its
    probability is strictly above the one of the former top entry, and the
    former top entry otherwise. *)
Lemma top_after_synthesis (h : list (list number)) (o : list number) :
  first (JsArray.sort byProbabilityDesc
           (JsArray.push (smoothedRanking h o)
              (notFlowerPrediction (first (smoothedRanking h o))))) =
  if Qle_bool (probability (notFlowerPrediction (first (smoothedRanking h o))))
       (probability (first (smoothedRanking h o)))
  then first (smoothedRanking h o)
  else notFlowerPrediction (first (smoothedRanking h o)).
Proof.
  apply first_of_hd.
  pose proof (smoothedRanking_top h o) as Htop.
  unfold smoothedRanking in *.
  change byProbabilityDesc with (Ranking.descending probability) in *.
  unfold JsArray.push. rewrite (hd_sort_snoc probability _ _ _ Htop).
  destruct (Qle_bool _ _); reflexivity.
Qed.

Lemma top_is_maximal (h : list (list number)) (o : list number)
  (e : TMPrediction) :
  In e (smoothedRanking h o) ->
  probability e <= probability (first (smoothedRanking h o)).
Proof.
  intro Hin. pose proof (smoothedRanking_top h o) as Htop.
  unfold smoothedRanking in *.
  change byProbabilityDesc with (Ranking.descending probability) in *.
  rewrite hd_sort in Htop.
  apply (leftmostMax_upper probability _ _ Htop).
  apply (proj1 (sort_In probability e _) Hin).
Qed.

Lemma top_in_ranking (h : list (list number)) (o : list number) :
  In (first (smoothedRanking h o)) (smoothedRanking h o).
Proof.
  pose proof (smoothedRanking_top h o) as Htop.
  destruct (smoothedRanking h o); [discriminate|].
  simpl in *. left. reflexivity.
Qed.

Lemma reject_is_not_top (h : list (list number)) (o : list number) :
  first (smoothedRanking h o) <>
  notFlowerPrediction (first (smoothedRanking h o)).
Proof.
  intro E. apply not_flower_not_a_label.
  pose proof (smoothedRanking_label h o _ (top_in_ranking h o)) as Hl.
  rewrite E in Hl. exact Hl.
Qed.

(** C7 (amended) -- Reject synthesis.  When the top averaged probability
    [p] is below 0.70, an entry labelled Not Flower with probability
    [1 - p] is appended and the array is sorted again.  The synthetic entry
    becomes the top prediction exactly when [1 - p] is strictly above every
    probability of the original distribution, the top one included, that
    is exactly when [p] is below one half; otherwise the top prediction is
    unchanged.  At 0.70 and above nothing is synthesised.  With [p] equal
    to 0.55 the synthetic entry has probability 0.45 and the top prediction
    stays the original label. *)
Theorem reject_synthesis (h : list (list number)) (o : list number) :
  let ranking := smoothedRanking h o in
  let top := first ranking in
  let reject := notFlowerPrediction top in
  let r := snd (predictWithAllProbabilities h o) in
  (probability top < CONFIDENCE_THRESHOLD ->
     label reject = "Not Flower" /\
     probability reject == 1 - probability top /\
     predictions r = JsArray.sort byProbabilityDesc (ranking ++ [reject]) /\
     (topPrediction r = reject <->
      forall e, In e ranking -> probability e < probability reject) /\
     (topPrediction r = reject <-> probability top < 1 # 2) /\
     (topPrediction r <> reject -> topPrediction r = top)) /\
  (CONFIDENCE_THRESHOLD <= probability top ->
     predictions r = ranking /\ topPrediction r = top) /\
  (probability top == 0.55 ->
     topPrediction r = top /\
     In reject (predictions r) /\
     probability reject == 0.45).
Proof.
  intros ranking top reject r.
  assert (Hr : r = snd (predictWithAllProbabilities h o)) by reflexivity.
  clearbody r. rewrite predict_result in Hr. fold ranking in Hr. fold top in Hr.
  fold reject in Hr.
  assert (Hprob : probability reject == 1 - probability top).
  { unfold reject, notFlowerPrediction. cbn [probability]. lra. }
  assert (Htop : first (JsArray.sort byProbabilityDesc
                          (JsArray.push ranking reject)) =
                 if Qle_bool (probability reject) (probability top)
                 then top else reject)
    by apply top_after_synthesis.
  assert (Hcase : probability top < CONFIDENCE_THRESHOLD ->
                  predictions r =
                    JsArray.sort byProbabilityDesc (ranking ++ [reject]) /\
                  topPrediction r =
                    if Qle_bool (probability reject) (probability top)
                    then top else reject).
  { intro Hlt.
    assert (Qle_bool CONFIDENCE_THRESHOLD (probability top) = false) as E.
    { destruct (Qle_bool _ _) eqn:E; [|reflexivity].
      apply Qle_bool_iff in E. lra. }
    rewrite E in Hr. cbn [negb] in Hr. subst r.
    cbn [predictions topPrediction]. rewrite Htop.
    split; reflexivity. }
  split; [|split].
  - intro Hlt. destruct (Hcase Hlt) as (Hpred & Htp).
    split; [reflexivity|]. split; [exact Hprob|]. split; [exact Hpred|].
    destruct (Qle_bool (probability reject) (probability top)) eqn:E.
    + apply Qle_bool_iff in E. rewrite Htp.
      split; [|split].
      * split.
        -- intro Heq. exfalso. exact (reject_is_not_top h o Heq).
        -- intro Hall. specialize (Hall top (top_in_ranking h o)). lra.
      * split.
        -- intro Heq. exfalso. exact (reject_is_not_top h o Heq).
        -- intro Hhalf. lra.
      * reflexivity.
    + apply Qle_bool_false in E. rewrite Htp.
      split; [|split].
      * split; [|reflexivity].
        intros _ e He. pose proof (top_is_maximal h o e He) as Hmax.
        fold ranking in Hmax. fold top in Hmax. lra.
      * split; [|reflexivity]. intros _. lra.
      * intro Hne. exfalso. apply Hne. reflexivity.
  - intro Hge. apply Qle_bool_iff in Hge. rewrite Hge in Hr.
    cbn [negb] in Hr. subst r. split; reflexivity.
  - intro H055.
    assert (Hlt : probability top < CONFIDENCE_THRESHOLD).
    { unfold CONFIDENCE_THRESHOLD. lra. }
    destruct (Hcase Hlt) as (Hpred & Htp).
    assert (Qle_bool (probability reject) (probability top) = true) as E.
    { apply Qle_bool_iff. lra. }
    rewrite E in Htp. split; [exact Htp|]. split; [|lra].
    rewrite Hpred.
    change byProbabilityDesc with (Ranking.descending probability).
    apply sort_In. apply in_or_app. right. left. reflexivity.
Qed.

(** C7, as stated, fails on the code.  For the distribution 0.55, 0.2, 0.1,
    0.1, 0.05, 0 the synthetic probability 0.45 is above every original
    probability other than the top one, and the top prediction is still
    the original label. *)
Lemma reject_synthesis_counterexample :
  probability (first (smoothedRanking [] Inputs.top_055)) == 0.55 /\
  probability
    (notFlowerPrediction (first (smoothedRanking [] Inputs.top_055)))
  == 0.45 /\
  Forall (fun e => probability e < 0.45)
    (tl (smoothedRanking [] Inputs.top_055)) /\
  label (topPrediction
           (snd (predictWithAllProbabilities [] Inputs.top_055)))
  = "Ampalaya Bilog Male" /\
  label (topPrediction
           (snd (predictWithAllProbabilities [] Inputs.top_055)))
  <> "Not Flower".
Proof.
  split; [reflexivity|]. split; [reflexivity|]. split.
  - vm_compute. repeat constructor.
  - split; [reflexivity | discriminate].
Qed.

(** The two cases of the re-sort: at 0.55 the top prediction is kept, at
    0.40 the synthetic entry takes its place. *)
Lemma reject_synthesis_example :
  (probability (first (smoothedRanking [] Inputs.top_055)) == 0.55 /\
   label (topPrediction
            (snd (predictWithAllProbabilities [] Inputs.top_055)))
   = "Ampalaya Bilog Male") /\
  (probability (first (smoothedRanking [] Inputs.top_040))
   < CONFIDENCE_THRESHOLD /\
   label (topPrediction
            (snd (predictWithAllProbabilities [] Inputs.top_040)))
   = "Not Flower").
Proof.
  split.
  - split; [reflexivity|].
    destruct (reject_synthesis [] Inputs.top_055) as (_ & _ & H).
    destruct (H ltac:(reflexivity)) as (-> & _). reflexivity.
  - split; [reflexivity|].
    destruct (reject_synthesis [] Inputs.top_040) as (H & _).
    destruct (H ltac:(reflexivity)) as (_ & _ & _ & _ & Hhalf & _).
    rewrite (proj2 Hhalf ltac:(reflexivity)). reflexivity.
Defined.

(** Every entry of the ranking reports its probability as a percentage
    rounded to one decimal. *)
Lemma smoothedRanking_percentage (h : list (list number)) (o : list number)
  (e : TMPrediction) :
  In e (smoothedRanking h o) -> percentage e = round1 (probability e * 100).
Proof.
  unfold smoothedRanking.
  change byProbabilityDesc with (Ranking.descending probability).
  rewrite sort_In. unfold labelled, JsArray.mapi. intro H.
  destruct (mapi_from_In _ _ _ _ H) as (x & j & _ & ->). reflexivity.
Qed.

Lemma round1_at_least_50 (x : Q) : 50 <= x -> 50 <= round1 x.
Proof.
  intro H. unfold round1, Qround_half_up.
  assert (500 <= Qfloor (x * 10 + (1 # 2)))%Z as Hz.
  { rewrite <- (Qfloor_Z 500). apply Qfloor_resp_le.
    change (inject_Z 500) with 500. lra. }
  assert (inject_Z 500 <= inject_Z (Qfloor (x * 10 + (1 # 2)))) as Hq.
  { rewrite <- Zle_Qle. exact Hz. }
  change (inject_Z 500) with 500 in Hq.
  apply Qle_shift_div_l; [reflexivity|]. lra.
Qed.

(** A top prediction that is not the reject entry has at least one half of
    the probability mass, so the scan loop only ever records a non-reject
    label with a confidence of 50 percent or more. *)
Lemma accepted_top_at_least_50 (h : list (list number)) (o : list number) :
  label (topPrediction (snd (predictWithAllProbabilities h o)))
  <> "Not Flower" ->
  50 <= percentage (topPrediction (snd (predictWithAllProbabilities h o))).
Proof.
  rewrite predict_result.
  pose proof (smoothedRanking_percentage h o _ (top_in_ranking h o)) as Hpct.
  destruct (Qle_bool CONFIDENCE_THRESHOLD _) eqn:E;
    cbn [negb topPrediction].
  - intros _. apply Qle_bool_iff in E. unfold CONFIDENCE_THRESHOLD in E.
    rewrite Hpct. apply round1_at_least_50. lra.
  - rewrite top_after_synthesis.
    destruct (Qle_bool (probability (notFlowerPrediction _)) _) eqn:E'.
    + intros _. apply Qle_bool_iff in E'.
      unfold notFlowerPrediction in E'. cbn [probability] in E'.
      rewrite Hpct. apply round1_at_least_50. lra.
    + intro Hne. exfalso. apply Hne. reflexivity.
Qed.

End Smoother.

(* ================================================================== *)
(** * Stability and the best frame *)
(* ================================================================== *)

Section Stability.
Import CameraScreenTM FrameSelection.

Lemma slice_last_snoc_In {A : Type} (n : nat) (front : list A) (x : A) :
  In x (JsArray.slice_last (S n) (front ++ [x])).
Proof.
  rewrite slice_last_rev, rev_app_distr. simpl.
  apply in_or_app. right. left. reflexivity.
Qed.

(** The history after a tick with a prediction ends with its entry. *)
Lemma recent_after_tick (s : ScanState) (photo : Photo) (label : string)
  (percentage : Q) :
  exists front,
    recentPredictions (scanTick s (TickPredicted photo label percentage)) =
    front ++ [ {| rp_label := label; rp_confidence := percentage;
                  rp_uri := photo_uri photo; rp_width := photo_width photo;
                  rp_height := photo_height photo |} ].
Proof.
  cbn [scanTick recentPredictions]. unfold JsArray.push, JsArray.shift.
  destruct (Nat.ltb 7 _) eqn:E.
  - apply Nat.ltb_lt in E. rewrite length_app in E. simpl in E.
    destruct (recentPredictions s) as [|x front]; [simpl in E; lia|].
    exists front. reflexivity.
  - eexists. reflexivity.
Qed.

(** The history never holds more than seven entries. *)
Lemma recent_bounded (s : ScanState) (t : Tick) :
  (length (recentPredictions s) <= 7)%nat ->
  (length (recentPredictions (scanTick s t)) <= 7)%nat.
Proof.
  intro H. destruct t as [|photo|photo label percentage];
    cbn [scanTick recentPredictions]; try exact H.
  unfold JsArray.push, JsArray.shift.
  destruct (Nat.ltb 7 _) eqn:E.
  - destruct (recentPredictions s) as [|x front]; simpl in *; [lia|].
    rewrite length_app. simpl. lia.
  - apply Nat.ltb_ge in E. exact E.
Qed.

(** What [isStable] is after a tick, in terms of the history it leaves. *)
Lemma isStable_after_tick (s : ScanState) (photo : Photo) (label : string)
  (percentage : Q) :
  isStable (scanTick s (TickPredicted photo label percentage)) =
  Nat.leb 5
    (length (JsArray.slice_last 5
       (recentPredictions (scanTick s (TickPredicted photo label percentage)))))
  && forallb (fun p => String.eqb (rp_label p) label)
       (JsArray.slice_last 5
          (recentPredictions
             (scanTick s (TickPredicted photo label percentage))))
  && negb (String.eqb label "Not Flower").
Proof. reflexivity. Qed.

(** A list of at least five elements ends with its last five. *)
Lemma last_five (A : Type) (l : list A) :
  (5 <= length l)%nat ->
  exists front p1 p2 p3 p4 p5,
    l = front ++ [p1; p2; p3; p4; p5] /\
    JsArray.slice_last 5 l = [p1; p2; p3; p4; p5].
Proof.
  intro H. unfold JsArray.slice_last.
  pose proof (firstn_skipn (length l - 5) l) as Hsplit.
  pose proof (length_skipn (length l - 5) l) as Hlen.
  destruct (skipn (length l - 5) l) as [|p1 [|p2 [|p3 [|p4 [|p5 [|p6 r]]]]]];
    cbn [length] in Hlen; try lia.
  exists (firstn (length l - 5) l), p1, p2, p3, p4, p5.
  split; [symmetry; exact Hsplit | reflexivity].
Qed.

(** [isStable] after a tick, in terms of the entries themselves: the
    history ends with five entries that carry the label of the tick, which
    is not the reject label. *)
Lemma stable_iff_last_five (s : ScanState) (photo : Photo) (label : string)
  (percentage : Q) :
  isStable (scanTick s (TickPredicted photo label percentage)) = true <->
  exists front p1 p2 p3 p4 p5,
    recentPredictions (scanTick s (TickPredicted photo label percentage))
    = front ++ [p1; p2; p3; p4; p5] /\
    rp_label p1 = label /\ rp_label p2 = label /\ rp_label p3 = label /\
    rp_label p4 = label /\ rp_label p5 = label /\
    label <> "Not Flower".
Proof.
  rewrite isStable_after_tick.
  set (recent := recentPredictions _). clearbody recent.
  rewrite !andb_true_iff, Nat.leb_le, negb_true_iff, String.eqb_neq,
    slice_last_length.
  split.
  - intros ((Hlen & Hall) & Hne).
    destruct (last_five _ recent) as (front & p1 & p2 & p3 & p4 & p5 & E & Es);
      [lia|].
    rewrite Es in Hall. cbn [forallb] in Hall.
    rewrite !andb_true_iff, !String.eqb_eq in Hall.
    exists front, p1, p2, p3, p4, p5. tauto.
  - intros (front & p1 & p2 & p3 & p4 & p5 & E & H1 & H2 & H3 & H4 & H5 & Hne).
    assert (Es : JsArray.slice_last 5 recent = [p1; p2; p3; p4; p5]).
    { rewrite E. apply (slice_last_app_exact front [p1; p2; p3; p4; p5]). }
    split; [split|exact Hne].
    + rewrite E, length_app. cbn [length]. lia.
    + rewrite Es. cbn [forallb].
      rewrite !andb_true_iff, !String.eqb_eq. tauto.
Qed.

(** A tick with a prediction appends its entry and drops at most the
    oldest entry: the entries appended last are kept. *)
Lemma recent_keeps_suffix (s : ScanState) (front kept : list RecentPrediction)
  (photo : Photo) (label : string) (percentage : Q) :
  recentPredictions s = front ++ kept ->
  (length kept < 7)%nat ->
  exists front',
    recentPredictions (scanTick s (TickPredicted photo label percentage)) =
    front' ++ kept
    ++ [ {| rp_label := label; rp_confidence := percentage;
            rp_uri := photo_uri photo; rp_width := photo_width photo;
            rp_height := photo_height photo |} ].
Proof.
  intros E Hlen. cbn [scanTick recentPredictions].
  unfold JsArray.push, JsArray.shift. rewrite E.
  destruct (Nat.ltb 7 _) eqn:L.
  - apply Nat.ltb_lt in L. rewrite !length_app in L. cbn in L.
    destruct front as [|x front]; [cbn in L; lia|].
    exists front. cbn. rewrite <- app_assoc. reflexivity.
  - exists front. rewrite <- app_assoc. reflexivity.
Qed.

Lemma stabilityTrace_app (ticks more : list Tick) :
  forall s : ScanState,
  stabilityTrace s (ticks ++ more) =
  stabilityTrace s ticks ++ stabilityTrace (scan s ticks) more.
Proof.
  induction ticks as [|t ticks IH]; intro s; [reflexivity|].
  cbn [app stabilityTrace]. rewrite IH. reflexivity.
Qed.

Lemma scan_app (ticks more : list Tick) (s : ScanState) :
  scan s (ticks ++ more) = scan (scan s ticks) more.
Proof. unfold scan. apply fold_left_app. Qed.

(** Five ticks in a row with one label other than the reject label make
    the prediction stable, whatever the history held before. *)
Lemma five_in_a_row (s : ScanState) (a : string) (p1 p2 p3 p4 p5 : Photo)
  (c1 c2 c3 c4 c5 : Q) :
  a <> "Not Flower" ->
  isStable
    (scan s [TickPredicted p1 a c1; TickPredicted p2 a c2;
             TickPredicted p3 a c3; TickPredicted p4 a c4;
             TickPredicted p5 a c5]) = true.
Proof.
  intro Ha. cbn [scan fold_left].
  destruct (recent_keeps_suffix s (recentPredictions s) [] p1 a c1)
    as (f1 & E1); [rewrite app_nil_r; reflexivity | cbn; lia|].
  set (s1 := scanTick s _) in *.
  destruct (recent_keeps_suffix s1 _ _ p2 a c2 E1) as (f2 & E2); [cbn; lia|].
  set (s2 := scanTick s1 _) in *.
  destruct (recent_keeps_suffix s2 _ _ p3 a c3 E2) as (f3 & E3); [cbn; lia|].
  set (s3 := scanTick s2 _) in *.
  destruct (recent_keeps_suffix s3 _ _ p4 a c4 E3) as (f4 & E4); [cbn; lia|].
  set (s4 := scanTick s3 _) in *.
  destruct (recent_keeps_suffix s4 _ _ p5 a c5 E4) as (f5 & E5); [cbn; lia|].
  apply stable_iff_last_five.
  eexists f5, _, _, _, _, _. split; [exact E5|].
  cbn [rp_label]. repeat split. exact Ha.
Qed.

(** A tick with another label less than five ticks ago keeps the
    prediction unstable. *)
Lemma other_label_within_five (s : ScanState) (a : string)
  (front kept : list RecentPrediction) (pb : RecentPrediction)
  (photo : Photo) (c : Q) :
  recentPredictions s = front ++ pb :: kept ->
  rp_label pb <> a ->
  (length kept < 4)%nat ->
  isStable (scanTick s (TickPredicted photo a c)) = false.
Proof.
  intros E Hb Hlen.
  destruct (isStable (scanTick s (TickPredicted photo a c))) eqn:Es;
    [|reflexivity].
  exfalso. apply stable_iff_last_five in Es.
  destruct Es as (f & q1 & q2 & q3 & q4 & q5 & Eq & H1 & H2 & H3 & H4 & H5 & _).
  destruct (recent_keeps_suffix s front (pb :: kept) photo a c E)
    as (f' & E'); [cbn; lia|].
  rewrite E' in Eq. apply (f_equal (@rev _)) in Eq.
  rewrite !rev_app_distr in Eq. cbn [rev app] in Eq.
  rewrite <- !app_assoc in Eq. cbn [app] in Eq.
  destruct kept as [|k1 [|k2 [|k3 [|k4 kept]]]]; cbn [length] in Hlen;
    try lia; cbn [rev app] in Eq; injection Eq as; subst; congruence.
Qed.

(** C5 -- Stability needs five consecutive identical labels.  After a tick
    that obtained a prediction, [isStable] is set exactly when the history
    holds at least five entries, its last five entries carry one and the
    same label, and that label is not the reject label; the last five
    entries are the five the history ends with, whatever it holds before
    them.  In a session that starts from the reset state, four ticks with
    one label followed by a tick with another label never set [isStable];
    five ticks with one label other than the reject label set it at the
    fifth tick.  After any ticks at all, five ticks in a row with one
    label other than the reject label set [isStable], and a tick with
    another label followed by up to four ticks with one label leaves it
    unset at each of them. *)
Theorem stability_needs_five_in_a_row :
  (forall (s : ScanState) (photo : Photo) (label : string) (percentage : Q),
     isStable (scanTick s (TickPredicted photo label percentage)) = true <->
     (5 <= length (recentPredictions
                     (scanTick s (TickPredicted photo label percentage))))%nat
     /\ exists common,
          common <> "Not Flower" /\
          Forall (fun p => rp_label p = common)
            (JsArray.slice_last 5
               (recentPredictions
                  (scanTick s (TickPredicted photo label percentage))))) /\
  (forall (a b : string) (p1 p2 p3 p4 p5 : Photo) (c1 c2 c3 c4 c5 : Q),
     a <> b ->
     stabilityTrace resetOnFocus
       [TickPredicted p1 a c1; TickPredicted p2 a c2; TickPredicted p3 a c3;
        TickPredicted p4 a c4; TickPredicted p5 b c5]
     = [false; false; false; false; false]) /\
  (forall (a : string) (p1 p2 p3 p4 p5 : Photo) (c1 c2 c3 c4 c5 : Q),
     a <> "Not Flower" ->
     stabilityTrace resetOnFocus
       [TickPredicted p1 a c1; TickPredicted p2 a c2; TickPredicted p3 a c3;
        TickPredicted p4 a c4; TickPredicted p5 a c5]
     = [false; false; false; false; true]) /\
  (forall (s : ScanState) (photo : Photo) (label : string) (percentage : Q),
     isStable (scanTick s (TickPredicted photo label percentage)) = true <->
     exists front e1 e2 e3 e4 e5,
       recentPredictions (scanTick s (TickPredicted photo label percentage))
       = front ++ [e1; e2; e3; e4; e5] /\
       rp_label e1 = label /\ rp_label e2 = label /\ rp_label e3 = label /\
       rp_label e4 = label /\ rp_label e5 = label /\
       label <> "Not Flower") /\
  (forall (s : ScanState) (before : list Tick) (a : string)
          (p1 p2 p3 p4 p5 : Photo) (c1 c2 c3 c4 c5 : Q),
     a <> "Not Flower" ->
     isStable
       (scan s
          (before ++
           [TickPredicted p1 a c1; TickPredicted p2 a c2;
            TickPredicted p3 a c3; TickPredicted p4 a c4;
            TickPredicted p5 a c5])) = true) /\
  (forall (s : ScanState) (before : list Tick) (a b : string)
          (p0 p1 p2 p3 p4 : Photo) (c0 c1 c2 c3 c4 : Q),
     a <> b ->
     stabilityTrace s
       (before ++
        [TickPredicted p0 b c0; TickPredicted p1 a c1; TickPredicted p2 a c2;
         TickPredicted p3 a c3; TickPredicted p4 a c4])
     = stabilityTrace s (before ++ [TickPredicted p0 b c0])
       ++ [false; false; false; false]).
Proof.
  split; [|split; [|split; [|split; [|split]]]].
  - intros s photo label percentage.
    rewrite isStable_after_tick.
    destruct (recent_after_tick s photo label percentage) as (front & Hrec).
    set (recent := recentPredictions _) in *. clearbody recent.
    rewrite !andb_true_iff, Nat.leb_le, negb_true_iff, String.eqb_neq,
      forallb_forall, slice_last_length.
    split.
    + intros ((Hlen & Hall) & Hne). split; [lia|].
      exists label. split; [exact Hne|].
      apply Forall_forall. intros p Hp. apply String.eqb_eq, Hall, Hp.
    + intros (Hlen & common & Hne & Hall).
      rewrite Forall_forall in Hall.
      assert (common = label) as ->.
      { symmetry. rewrite Hrec in Hall.
        apply (Hall _ (slice_last_snoc_In 4 front _)). }
      repeat split; [lia | | exact Hne].
      intros p Hp. apply String.eqb_eq, Hall, Hp.
  - intros a b p1 p2 p3 p4 p5 c1 c2 c3 c4 c5 Hab.
    apply String.eqb_neq in Hab.
    cbn. rewrite Hab. reflexivity.
  - intros a p1 p2 p3 p4 p5 c1 c2 c3 c4 c5 Ha.
    apply String.eqb_neq in Ha.
    cbn. rewrite !String.eqb_refl, Ha. reflexivity.
  - exact stable_iff_last_five.
  - intros s before a p1 p2 p3 p4 p5 c1 c2 c3 c4 c5 Ha.
    rewrite scan_app. apply five_in_a_row. exact Ha.
  - intros s before a b p0 p1 p2 p3 p4 c0 c1 c2 c3 c4 Hab.
    change (before ++
            [TickPredicted p0 b c0; TickPredicted p1 a c1;
             TickPredicted p2 a c2; TickPredicted p3 a c3;
             TickPredicted p4 a c4])
      with (before ++
            [TickPredicted p0 b c0] ++
            [TickPredicted p1 a c1; TickPredicted p2 a c2;
             TickPredicted p3 a c3; TickPredicted p4 a c4]).
    rewrite app_assoc, stabilityTrace_app. f_equal.
    rewrite scan_app. cbn [scan fold_left].
    set (s0 := scan s before).
    destruct (recent_keeps_suffix s0 (recentPredictions s0) [] p0 b c0)
      as (f0 & E0); [rewrite app_nil_r; reflexivity | cbn; lia|].
    cbn [app] in E0. set (s1 := scanTick s0 _) in *.
    assert (Hne : forall p c,
              rp_label {| rp_label := b; rp_confidence := c;
                          rp_uri := photo_uri p; rp_width := photo_width p;
                          rp_height := photo_height p |} <> a).
    { intros p c E. apply Hab. symmetry. exact E. }
    cbn [stabilityTrace].
    rewrite (other_label_within_five s1 a f0 [] _ p1 c1 E0 (Hne p0 c0))
      by (cbn; lia).
    destruct (recent_keeps_suffix s1 f0 _ p1 a c1 E0) as (f1 & E1);
      [cbn; lia|].
    cbn [app] in E1. set (s2 := scanTick s1 _) in *.
    rewrite (other_label_within_five s2 a f1 _ _ p2 c2 E1 (Hne p0 c0))
      by (cbn; lia).
    destruct (recent_keeps_suffix s2 f1 _ p2 a c2 E1) as (f2 & E2);
      [cbn; lia|].
    cbn [app] in E2. set (s3 := scanTick s2 _) in *.
    rewrite (other_label_within_five s3 a f2 _ _ p3 c3 E2 (Hne p0 c0))
      by (cbn; lia).
    destruct (recent_keeps_suffix s3 f2 _ p3 a c3 E2) as (f3 & E3);
      [cbn; lia|].
    cbn [app] in E3. set (s4 := scanTick s3 _) in *.
    rewrite (other_label_within_five s4 a f3 _ _ p4 c4 E3 (Hne p0 c0))
      by (cbn; lia).
    reflexivity.
Qed.

(** Sessions of five ticks from the reset state, and longer ones: nine
    ticks that end with five identical labels, the first four of which
    have left the history by then, and ten ticks in which the label
    changes four ticks before the end. *)
Lemma stability_example :
  "Patola Male" <> "Not Flower" /\
  "Patola Male" <> "Patola Female" /\
  stabilityTrace resetOnFocus Inputs.stableSession
  = [false; false; false; false; true] /\
  stabilityTrace resetOnFocus
    [Inputs.patolaTick 1 80; Inputs.patolaTick 2 85; Inputs.patolaTick 3 91;
     Inputs.patolaTick 4 83;
     TickPredicted (Inputs.photo 5) "Patola Female" 88]
  = [false; false; false; false; false] /\
  isStable
    (scan resetOnFocus
       (LongSessions.femaleTicks ++
        [Inputs.patolaTick 1 80; Inputs.patolaTick 2 85;
         Inputs.patolaTick 3 91; Inputs.patolaTick 4 83;
         Inputs.patolaTick 5 88])) = true /\
  stabilityTrace resetOnFocus
    (Inputs.stableSession ++
     [LongSessions.femaleTick 6 90; Inputs.patolaTick 7 80;
      Inputs.patolaTick 8 85; Inputs.patolaTick 9 91;
      Inputs.patolaTick 10 83])
  = stabilityTrace resetOnFocus
      (Inputs.stableSession ++ [LongSessions.femaleTick 6 90])
    ++ [false; false; false; false].
Proof.
  assert (H1 : "Patola Male" <> "Not Flower") by discriminate.
  assert (H2 : "Patola Male" <> "Patola Female") by discriminate.
  destruct stability_needs_five_in_a_row
    as (_ & Hchange & Hfive & _ & Hlate & Hbroken).
  split; [exact H1 | split; [exact H2 | split; [|split; [|split]]]].
  - apply Hfive. exact H1.
  - apply Hchange. exact H2.
  - apply (Hlate resetOnFocus LongSessions.femaleTicks "Patola Male").
    exact H1.
  - apply (Hbroken resetOnFocus Inputs.stableSession "Patola Male"
             "Patola Female").
    exact H2.
Defined.

(** What the tick does to the best frame: both label branches of the code
    perform the same comparison. *)
Lemma bestFrame_after_tick (s : ScanState) (photo : Photo) (label : string)
  (percentage : Q) :
  bestFrame (scanTick s (TickPredicted photo label percentage)) =
  if isStable (scanTick s (TickPredicted photo label percentage))
     && negb (Qle_bool percentage (bf_confidence (bestFrame s)))
  then stableFrame photo label percentage
  else bestFrame s.
Proof.
  rewrite isStable_after_tick. cbn [scanTick bestFrame].
  set (lastFive := JsArray.slice_last 5 _).
  destruct (Nat.leb 5 (length lastFive)) eqn:Hlen; cbn [andb];
    [|reflexivity].
  assert (length lastFive = 5%nat) as Hfive.
  { apply Nat.leb_le in Hlen. unfold lastFive in *.
    rewrite slice_last_length in *. lia. }
  unfold stableFrame. rewrite Hfive.
  destruct (forallb _ lastFive); cbn [andb]; [|reflexivity].
  destruct (negb (String.eqb label "Not Flower")); cbn [andb];
    [|reflexivity].
  destruct (strict_eq _ _); reflexivity.
Qed.

Lemma bestFrame_confidence_tick (s : ScanState) (t : Tick) :
  bf_confidence (bestFrame s) <= bf_confidence (bestFrame (scanTick s t)).
Proof.
  destruct t as [|photo|photo label percentage];
    try (cbn [scanTick bestFrame]; apply Qle_refl).
  rewrite bestFrame_after_tick.
  destruct (isStable _); cbn [andb]; [|apply Qle_refl].
  destruct (Qle_bool percentage (bf_confidence (bestFrame s))) eqn:E;
    cbn [negb]; [apply Qle_refl|].
  apply Qle_bool_false in E. cbn [stableFrame bf_confidence].
  apply Qlt_le_weak, E.
Qed.

(** C6 -- Best frame mutation.  A tick changes the best frame only when
    its prediction is stable.  On a stable tick the best frame is replaced
    by the current frame when the current confidence is strictly above the
    stored one, whether the stored label is the same or another one; it is
    kept when the current confidence is at most the stored one.  The empty
    best frame stores the confidence 0, so a stable tick with a positive
    confidence replaces it, and every stable tick fed by the classifier
    does.  Ticks without a prediction keep the best frame.  Hence the
    stored confidence never decreases along a session. *)
Theorem best_frame_mutation :
  (forall (s : ScanState) (photo : Photo) (label : string) (percentage : Q),
     (isStable (scanTick s (TickPredicted photo label percentage)) = false ->
      bestFrame (scanTick s (TickPredicted photo label percentage))
      = bestFrame s) /\
     (isStable (scanTick s (TickPredicted photo label percentage)) = true ->
      bf_confidence (bestFrame s) < percentage ->
      bestFrame (scanTick s (TickPredicted photo label percentage))
      = stableFrame photo label percentage) /\
     (isStable (scanTick s (TickPredicted photo label percentage)) = true ->
      percentage <= bf_confidence (bestFrame s) ->
      bestFrame (scanTick s (TickPredicted photo label percentage))
      = bestFrame s) /\
     (isStable (scanTick s (TickPredicted photo label percentage)) = true ->
      bestFrame s = emptyBestFrame ->
      0 < percentage ->
      bestFrame (scanTick s (TickPredicted photo label percentage))
      = stableFrame photo label percentage)) /\
  (forall (s : ScanState) (photo : Photo)
          (history : list (list number)) (output : list number),
     isStable
       (scanTick s
          (TickPredicted photo
             (ModelServiceTM.label (classified history output))
             (ModelServiceTM.percentage (classified history output))))
     = true ->
     bestFrame s = emptyBestFrame ->
     bestFrame
       (scanTick s
          (TickPredicted photo
             (ModelServiceTM.label (classified history output))
             (ModelServiceTM.percentage (classified history output))))
     = stableFrame photo
         (ModelServiceTM.label (classified history output))
         (ModelServiceTM.percentage (classified history output))) /\
  (forall (s : ScanState) (photo : Photo),
     bestFrame (scanTick s TickSkipped) = bestFrame s /\
     bestFrame (scanTick s (TickCaptured photo)) = bestFrame s) /\
  (forall (s : ScanState) (ticks : list Tick),
     bf_confidence (bestFrame s) <= bf_confidence (bestFrame (scan s ticks))).
Proof.
  assert (Hgt : forall (s : ScanState) (percentage : Q),
            bf_confidence (bestFrame s) < percentage ->
            Qle_bool percentage (bf_confidence (bestFrame s)) = false).
  { intros s percentage H. destruct (Qle_bool _ _) eqn:E; [|reflexivity].
    apply Qle_bool_iff in E. lra. }
  split; [|split; [|split]].
  - intros s photo label percentage. rewrite bestFrame_after_tick.
    repeat split.
    + intros ->. reflexivity.
    + intros -> H. rewrite (Hgt s percentage H). reflexivity.
    + intros -> H. apply Qle_bool_iff in H. rewrite H. reflexivity.
    + intros -> Hempty H. rewrite Hgt; [reflexivity|].
      rewrite Hempty. exact H.
  - intros s photo history output Hstable Hempty.
    rewrite bestFrame_after_tick, Hstable.
    rewrite Hgt; [reflexivity|].
    rewrite Hempty. cbn [emptyBestFrame bf_confidence].
    rewrite isStable_after_tick, !andb_true_iff, negb_true_iff in Hstable.
    destruct Hstable as (_ & Hne). apply String.eqb_neq in Hne.
    pose proof (accepted_top_at_least_50 history output Hne) as H50.
    unfold classified. lra.
  - intros s photo. split; reflexivity.
  - intros s ticks. revert s. unfold scan.
    induction ticks as [|t ticks IH]; intro s; cbn [fold_left].
    + apply Qle_refl.
    + eapply Qle_trans; [apply (bestFrame_confidence_tick s t) | apply IH].
Qed.

(** A stable session: the frame of the fifth tick is stored when the
    label becomes stable; a later stable tick replaces it only with a
    higher confidence. *)
Lemma best_frame_example :
  isStable (scan resetOnFocus Inputs.stableSession) = true /\
  bestFrame (scan resetOnFocus Inputs.stableSession)
  = stableFrame (Inputs.photo 5) "Patola Male" 88 /\
  bestFrame (scanTick (scan resetOnFocus Inputs.stableSession)
               (Inputs.patolaTick 6 70))
  = stableFrame (Inputs.photo 5) "Patola Male" 88 /\
  bestFrame (scanTick (scan resetOnFocus Inputs.stableSession)
               (Inputs.patolaTick 6 93))
  = stableFrame (Inputs.photo 6) "Patola Male" 93.
Proof.
  split; [reflexivity|]. split; [reflexivity|].
  pose proof (proj1 best_frame_mutation
                (scan resetOnFocus Inputs.stableSession) (Inputs.photo 6)
                "Patola Male") as H.
  split.
  - destruct (H 70) as (_ & _ & Hkeep & _).
    unfold Inputs.patolaTick.
    rewrite Hkeep; [reflexivity | reflexivity | vm_compute; discriminate].
  - destruct (H 93) as (_ & Hrep & _).
    unfold Inputs.patolaTick.
    rewrite Hrep; reflexivity.
Defined.

End Stability.

(* ================================================================== *)
(** * Frame selection at capture time *)
(* ================================================================== *)

Section Capture.
Import CameraScreenTM FrameSelection.

Lemma truthy_Some (u : string) : truthy (Some u) = true <-> u <> EmptyString.
Proof.
  destruct u; simpl; split; intro H; congruence.
Qed.

Lemma Qlt_bool_iff (x y : Q) : negb (Qle_bool x y) = true <-> y < x.
Proof.
  rewrite negb_true_iff. split; intro H.
  - apply Qle_bool_false, H.
  - destruct (Qle_bool x y) eqn:E; [|reflexivity].
    apply Qle_bool_iff in E. lra.
Qed.

(** The test of the first rule is the availability of a best stable
    frame. *)
Lemma bestStable_test (s : ScanState) :
  truthy (bf_uri (bestFrame s))
  && negb (Qle_bool (bf_confidence (bestFrame s)) 50) = true
  <-> bestStableAvailable s.
Proof.
  unfold bestStableAvailable. rewrite andb_true_iff, Qlt_bool_iff. split.
  - intros (Ht & Hc). destruct (bf_uri (bestFrame s)) as [u|] eqn:E;
      [|discriminate]. exists u. rewrite truthy_Some in Ht. auto.
  - intros (u & -> & Hu & Hc). rewrite truthy_Some. auto.
Qed.

Lemma lastFrame_test (s : ScanState) :
  truthy (lf_uri (lastFrameUri s)) = true <-> lastFrameAvailable s.
Proof.
  unfold lastFrameAvailable. split.
  - intro Ht. destruct (lf_uri (lastFrameUri s)) as [u|] eqn:E;
      [|discriminate]. exists u. rewrite truthy_Some in Ht. auto.
  - intros (u & -> & Hu). rewrite truthy_Some. exact Hu.
Qed.

Lemma candidate_filter (s : ScanState) (p : RecentPrediction) :
  In p (filter (fun p => negb (String.eqb (rp_label p) "Not Flower"))
          (recentPredictions s))
  <-> candidate s p.
Proof.
  unfold candidate.
  rewrite filter_In, negb_true_iff, String.eqb_neq. reflexivity.
Qed.

(** [bestRecent]: the first of the candidates in descending order of
    confidence is a candidate that no other candidate exceeds. *)
Lemma bestRecent_spec (s : ScanState) :
  match hd_error
          (JsArray.sort byConfidenceDesc
             (filter (fun p => negb (String.eqb (rp_label p) "Not Flower"))
                (recentPredictions s)))
  with
  | Some p =>
      candidate s p /\
      forall q, candidate s q -> rp_confidence q <= rp_confidence p
  | None => forall q, ~ candidate s q
  end.
Proof.
  change byConfidenceDesc with (Ranking.descending rp_confidence).
  rewrite hd_sort.
  destruct (Ranking.leftmostMax rp_confidence _) as [p|] eqn:E.
  - split.
    + apply candidate_filter. exact (leftmostMax_In _ _ _ E).
    + intros q Hq. apply (leftmostMax_upper _ _ _ E).
      apply candidate_filter. exact Hq.
  - intros q Hq. apply candidate_filter in Hq.
    rewrite (leftmostMax_None _ _ E) in Hq. destruct Hq.
Qed.

(** The entries recorded by the scan loop carry the URIs of its
    pictures. *)
Lemma recorded_uris (ticks : list Tick) :
  forall s : ScanState,
  Forall (fun p => rp_uri p <> EmptyString) (recentPredictions s) ->
  Forall pictureHasUri ticks ->
  Forall (fun p => rp_uri p <> EmptyString)
    (recentPredictions (scan s ticks)).
Proof.
  unfold scan.
  induction ticks as [|t ticks IH]; intros s Hs Ht; cbn [fold_left];
    [exact Hs|].
  inversion Ht as [|t' ticks' Hpic Hrest]; subst.
  apply IH; [|exact Hrest].
  destruct t as [|photo|photo label percentage];
    cbn [scanTick recentPredictions]; try exact Hs.
  assert (Hpushed : Forall (fun p => rp_uri p <> EmptyString)
                      (JsArray.push (recentPredictions s)
                         {| rp_label := label; rp_confidence := percentage;
                            rp_uri := photo_uri photo;
                            rp_width := photo_width photo;
                            rp_height := photo_height photo |})).
  { unfold JsArray.push. apply Forall_app. split; [exact Hs|].
    constructor; [exact Hpic | constructor]. }
  destruct (Nat.ltb 7 _); [|exact Hpushed].
  unfold JsArray.shift.
  destruct (JsArray.push _ _) as [|x rest]; [constructor|].
  inversion Hpushed; assumption.
Qed.

(** C4 -- Frame selection at capture time.  The handler uses the best
    stable frame when one is stored with a confidence above 50 percent;
    else the most confident recent entry that does not carry the reject
    label, when its confidence is above 60 percent; else the last frame
    when one is stored; else it takes a new photo.  The recent entries are
    the ones recorded by the scan loop, whose frames carry the non-empty
    URI of a captured picture. *)
Theorem capture_frame_priority (s : ScanState) :
  (forall uri,
     bf_uri (bestFrame s) = Some uri -> uri <> EmptyString ->
     50 < bf_confidence (bestFrame s) ->
     handleCapture false s =
     NavigateWithCachedFrame uri (bf_width (bestFrame s))
       (bf_height (bestFrame s))
       (BEST_STABLE (bf_label (bestFrame s))
          (bf_confidence (bestFrame s)))) /\
  (~ bestStableAvailable s ->
   recentAvailable s ->
   Forall (fun p => rp_uri p <> EmptyString) (recentPredictions s) ->
   exists p,
     candidate s p /\
     (forall q, candidate s q -> rp_confidence q <= rp_confidence p) /\
     60 < rp_confidence p /\
     handleCapture false s =
     NavigateWithCachedFrame (rp_uri p) (rp_width p) (rp_height p)
       (BEST_RECENT (rp_label p) (rp_confidence p))) /\
  (~ bestStableAvailable s ->
   ~ recentAvailable s ->
   forall uri,
     lf_uri (lastFrameUri s) = Some uri -> uri <> EmptyString ->
     handleCapture false s =
     NavigateWithCachedFrame uri (lf_width (lastFrameUri s))
       (lf_height (lastFrameUri s)) LAST_FRAME) /\
  (~ bestStableAvailable s ->
   ~ recentAvailable s ->
   ~ lastFrameAvailable s ->
   handleCapture false s = TakeNewPhoto).
Proof.
  assert (Hno : ~ bestStableAvailable s ->
                truthy (bf_uri (bestFrame s))
                && negb (Qle_bool (bf_confidence (bestFrame s)) 50) = false).
  { intro H. destruct (_ && _) eqn:E; [|reflexivity].
    exfalso. apply H, bestStable_test, E. }
  pose proof (bestRecent_spec s) as Hbest.
  split; [|split; [|split]].
  - intros uri Huri Hne Hconf. unfold handleCapture.
    assert (bestStableAvailable s) as Hb by (exists uri; auto).
    apply bestStable_test in Hb. rewrite Hb, Huri.
    apply truthy_Some in Hne. rewrite Hne. reflexivity.
  - intros Hb (p0 & Hcand0 & Hconf0) Huris. unfold handleCapture.
    rewrite (Hno Hb).
    destruct (hd_error _) as [p|]; [|exfalso; exact (Hbest p0 Hcand0)].
    destruct Hbest as (Hcand & Hmax).
    assert (60 < rp_confidence p) as Hconf.
    { specialize (Hmax p0 Hcand0). lra. }
    exists p. repeat split; try assumption; try apply Hcand.
    apply Qlt_bool_iff in Hconf. rewrite Hconf.
    rewrite Forall_forall in Huris.
    pose proof (Huris p (proj1 Hcand)) as Hne.
    apply truthy_Some in Hne. rewrite Hne. reflexivity.
  - intros Hb Hr uri Huri Hne. unfold handleCapture. rewrite (Hno Hb).
    assert (Hl : truthy (lf_uri (lastFrameUri s)) = true).
    { apply lastFrame_test. exists uri. auto. }
    apply truthy_Some in Hne.
    destruct (hd_error _) as [p|].
    + destruct Hbest as (Hcand & _).
      destruct (negb (Qle_bool (rp_confidence p) 60)) eqn:E.
      * exfalso. apply Hr. exists p. split; [exact Hcand|].
        apply Qlt_bool_iff, E.
      * rewrite Hl, Huri, Hne. reflexivity.
    + rewrite Hl, Huri, Hne. reflexivity.
  - intros Hb Hr Hl. unfold handleCapture. rewrite (Hno Hb).
    assert (Hl' : truthy (lf_uri (lastFrameUri s)) = false).
    { destruct (truthy (lf_uri (lastFrameUri s))) eqn:E; [|reflexivity].
      exfalso. apply Hl, lastFrame_test, E. }
    destruct (hd_error _) as [p|].
    + destruct Hbest as (Hcand & _).
      destruct (negb (Qle_bool (rp_confidence p) 60)) eqn:E.
      * exfalso. apply Hr. exists p. split; [exact Hcand|].
        apply Qlt_bool_iff, E.
      * rewrite Hl'. reflexivity.
    + rewrite Hl'. reflexivity.
Qed.

(** The four rules on sessions of the scan loop: a stable session, a
    session whose labels never settle, a state with only a last frame, and
    the reset state. *)
Lemma capture_frame_example :
  handleCapture false (scan resetOnFocus Inputs.stableSession) =
  NavigateWithCachedFrame (photo_uri (Inputs.photo 5)) 1085 1920
    (BEST_STABLE (Some "Patola Male") 88) /\
  (exists p,
     candidate (scan resetOnFocus Inputs.unsettledSession) p /\
     (forall q, candidate (scan resetOnFocus Inputs.unsettledSession) q ->
                rp_confidence q <= rp_confidence p) /\
     60 < rp_confidence p /\
     handleCapture false (scan resetOnFocus Inputs.unsettledSession) =
     NavigateWithCachedFrame (rp_uri p) (rp_width p) (rp_height p)
       (BEST_RECENT (rp_label p) (rp_confidence p))) /\
  handleCapture false Inputs.onlyLastFrame =
  NavigateWithCachedFrame (photo_uri (Inputs.photo 0)) 1080 1920 LAST_FRAME /\
  handleCapture false resetOnFocus = TakeNewPhoto.
Proof.
  assert (Hempty : forall s, bf_uri (bestFrame s) = None ->
                             ~ bestStableAvailable s).
  { intros s Hnone (uri & Huri & _). congruence. }
  assert (Hnorecent : forall s, recentPredictions s = [] ->
                                ~ recentAvailable s).
  { intros s Hnil (p & (Hin & _) & _). rewrite Hnil in Hin. destruct Hin. }
  split; [|split; [|split]].
  - apply (proj1 (capture_frame_priority
                    (scan resetOnFocus Inputs.stableSession))).
    + reflexivity.
    + discriminate.
    + reflexivity.
  - apply (proj1 (proj2 (capture_frame_priority
                           (scan resetOnFocus Inputs.unsettledSession)))).
    + apply Hempty. reflexivity.
    + exists {| rp_label := "Upo Smooth Male"; rp_confidence := 72;
                rp_uri := photo_uri (Inputs.photo 3);
                rp_width := 1083; rp_height := 1920 |}.
      split; [|reflexivity].
      split; [|discriminate].
      right. right. left. reflexivity.
    + repeat constructor; discriminate.
  - apply (proj1 (proj2 (proj2 (capture_frame_priority
                                  Inputs.onlyLastFrame)))).
    + apply Hempty. reflexivity.
    + apply Hnorecent. reflexivity.
    + reflexivity.
    + discriminate.
  - apply (proj2 (proj2 (proj2 (capture_frame_priority resetOnFocus)))).
    + apply Hempty. reflexivity.
    + apply Hnorecent. reflexivity.
    + intros (uri & Huri & _). discriminate.
Defined.

End Capture.

(* ================================================================== *)
(** * Parsing the response of the remote model *)
(* ================================================================== *)

Section RemoteParsing.
Import GeminiService ResponseParsing.

Variable JSON_parse : string -> option GeminiResult.
Variable parseFloat : string -> number.

Lemma nonempty_truthy (s c : string) :
  nonempty s = Some c -> truthy (Some c) = true.
Proof.
  destruct s; simpl; intro H; inversion H; reflexivity.
Qed.

Lemma search_Some (m : string -> option string) (s c : string) :
  search m s = Some c -> exists suffix, m suffix = Some c.
Proof.
  induction s as [|a s IH]; simpl.
  - destruct (m EmptyString) eqn:E; [|discriminate].
    intro H. inversion H; subst. eauto.
  - destruct (m (String a s)) eqn:E.
    + intro H. inversion H; subst. eauto.
    + exact IH.
Qed.

(** The captures of the variety and gender patterns are never empty. *)
Lemma quotedField_truthy (name text c : string) :
  search (quotedFieldAt name) text = Some c -> truthy (Some c) = true.
Proof.
  intro H. destruct (search_Some _ _ _ H) as (suffix & Hm).
  unfold quotedFieldAt in Hm.
  destruct (after_key name suffix) as [[|a r]|]; try discriminate.
  destruct (Ascii.eqb a dquote); [|discriminate].
  destruct (span not_dquote r) as [captured others].
  destruct others; [discriminate|].
  exact (nonempty_truthy _ _ Hm).
Qed.

(** When strict parsing fails, [parseResponse] returns the extracted
    fields if all three are found and throws otherwise. *)
Lemma parseResponse_fallback (text : string) :
  strictParseFails JSON_parse text ->
  match varietyMatch_re text, genderMatch_re text, confidenceMatch_re text
  with
  | Some v, Some g, Some c =>
      exists reasoning,
        parseResponse JSON_parse parseFloat text =
        Returned (salvaged v g (parseFloat c) reasoning)
  | _, _, _ =>
      parseResponse JSON_parse parseFloat text =
      Thrown "Invalid response format from Gemini"
  end.
Proof.
  intro Hfail. unfold parseResponse, strictOrPartial, extracted, salvaged.
  destruct Hfail as [Hnone | (json & Hsome & Hthrow)].
  - rewrite Hnone.
    destruct (varietyMatch_re text) as [v|]; [|reflexivity].
    destruct (genderMatch_re text) as [g|]; [|reflexivity].
    destruct (confidenceMatch_re text) as [c|]; [|reflexivity].
    eexists. reflexivity.
  - rewrite Hsome, Hthrow.
    destruct (varietyMatch_re text) as [v|]; [|reflexivity].
    destruct (genderMatch_re text) as [g|]; [|reflexivity].
    destruct (confidenceMatch_re text) as [c|]; [|reflexivity].
    eexists. reflexivity.
Qed.

(** C9 -- Remote parse fallback.  When strict JSON parsing of the response
    fails and the targeted patterns find the variety, the gender and the
    confidence, [analyzeFlower] returns the prediction formatted from
    those three fields.  When strict parsing fails, the call throws
    exactly when the extraction misses one of the three fields, and the
    error is the analysis failure for an invalid response format. *)
Theorem remote_parse_fallback (text : string) :
  strictParseFails JSON_parse text ->
  (forall v g c,
     varietyMatch_re text = Some v ->
     genderMatch_re text = Some g ->
     confidenceMatch_re text = Some c ->
     exists reasoning,
       analyzeFlower JSON_parse parseFloat text =
       Returned (formatPrediction (salvaged v g (parseFloat c) reasoning))) /\
  (forall message,
     analyzeFlower JSON_parse parseFloat text = Thrown message ->
     extractionFails text /\
     message = "Gemini analysis failed: Invalid response format from Gemini")
  /\
  (extractionFails text ->
   analyzeFlower JSON_parse parseFloat text =
   Thrown "Gemini analysis failed: Invalid response format from Gemini").
Proof.
  intro Hfail. pose proof (parseResponse_fallback text Hfail) as Hparse.
  unfold analyzeFlower, extractionFails.
  destruct (varietyMatch_re text) as [v|] eqn:Ev;
    [destruct (genderMatch_re text) as [g|] eqn:Eg;
     [destruct (confidenceMatch_re text) as [c|] eqn:Ec|]|].
  - destruct Hparse as (reasoning & ->).
    cbn [salvaged gr_variety gr_gender gr_confidence].
    rewrite (quotedField_truthy _ _ _ Ev), (quotedField_truthy _ _ _ Eg).
    cbn [negb orb].
    split; [|split].
    + intros v' g' c' Hv Hg Hc. inversion Hv; inversion Hg; inversion Hc.
      subst. exists reasoning. reflexivity.
    + intros message H. discriminate.
    + intros [H | [H | H]]; discriminate.
  - rewrite Hparse. split; [|split].
    + intros v' g' c' _ _ Hc. discriminate.
    + intros message H. inversion H. auto.
    + reflexivity.
  - rewrite Hparse. split; [|split].
    + intros v' g' c' _ Hg. discriminate.
    + intros message H. inversion H. auto.
    + reflexivity.
  - rewrite Hparse. split; [|split].
    + intros v' g' c' Hv. discriminate.
    + intros message H. inversion H. auto.
    + reflexivity.
Qed.

End RemoteParsing.

(** A response cut before its closing brace and a response with both
    braces that is not JSON are both recovered from the three fields; a
    response in prose is an analysis failure. *)
Lemma remote_parse_fallback_example :
  ResponseParsing.strictParseFails Inputs.rejectingParser
    Inputs.truncatedResponse /\
  (exists reasoning,
     GeminiService.analyzeFlower Inputs.rejectingParser Inputs.parseDecimal
       Inputs.truncatedResponse =
     GeminiService.Returned
       (GeminiService.formatPrediction
          (ResponseParsing.salvaged "patola" "male" (Num (9 # 10))
             reasoning))) /\
  ResponseParsing.strictParseFails Inputs.rejectingParser
    Inputs.malformedResponse /\
  (exists reasoning,
     GeminiService.analyzeFlower Inputs.rejectingParser Inputs.parseDecimal
       Inputs.malformedResponse =
     GeminiService.Returned
       (GeminiService.formatPrediction
          (ResponseParsing.salvaged "upo_smooth" "female" (Num (85 # 100))
             reasoning))) /\
  ResponseParsing.strictParseFails Inputs.rejectingParser
    Inputs.proseResponse /\
  GeminiService.analyzeFlower Inputs.rejectingParser Inputs.parseDecimal
    Inputs.proseResponse =
  GeminiService.Thrown
    "Gemini analysis failed: Invalid response format from Gemini".
Proof.
  assert (H1 : ResponseParsing.strictParseFails Inputs.rejectingParser
                 Inputs.truncatedResponse) by (left; reflexivity).
  assert (H2 : ResponseParsing.strictParseFails Inputs.rejectingParser
                 Inputs.malformedResponse).
  { right. eexists. split; reflexivity. }
  assert (H3 : ResponseParsing.strictParseFails Inputs.rejectingParser
                 Inputs.proseResponse) by (left; reflexivity).
  split; [exact H1|]. split.
  - destruct (remote_parse_fallback Inputs.rejectingParser
                Inputs.parseDecimal Inputs.truncatedResponse H1)
      as (Hok & _).
    destruct (Hok "patola" "male" "0.9" eq_refl eq_refl eq_refl)
      as (reasoning & Hret).
    exists reasoning. rewrite Hret. reflexivity.
  - split; [exact H2|]. split.
    + destruct (remote_parse_fallback Inputs.rejectingParser
                  Inputs.parseDecimal Inputs.malformedResponse H2)
        as (Hok & _).
      destruct (Hok "upo_smooth" "female" "0.85" eq_refl eq_refl eq_refl)
        as (reasoning & Hret).
      exists reasoning. rewrite Hret. reflexivity.
    + split; [exact H3|].
      apply (remote_parse_fallback Inputs.rejectingParser
               Inputs.parseDecimal Inputs.proseResponse H3).
      left. reflexivity.
Defined.

(* ================================================================== *)
(** * More on the arbitration *)
(* ================================================================== *)

Section ArbitrationBounds.
Import DecisionTable RemoteVocabulary.

Lemma ge_inv (a b : number) :
  ge a b = true -> exists x y, a = Num x /\ b = Num y /\ y <= x.
Proof.
  destruct a as [|x], b as [|y]; simpl; try discriminate.
  intro H. apply Qle_bool_iff in H. eauto.
Qed.

Lemma lt_inv (a b : number) :
  lt a b = true -> exists x y, a = Num x /\ b = Num y /\ x < y.
Proof.
  destruct a as [|x], b as [|y]; try discriminate.
  intro H. apply lt_Num in H. eauto.
Qed.

Lemma ge_Num_inv (a : number) (c : Q) :
  ge a (Num c) = true -> exists x, a = Num x /\ c <= x.
Proof.
  intro H. destruct (ge_inv _ _ H) as (x & y & -> & E & Hle).
  inversion E; subst. eauto.
Qed.

Lemma gt_Num_inv (a : number) (c : Q) :
  gt a (Num c) = true -> exists x, a = Num x /\ c < x.
Proof.
  intro H. destruct (lt_inv _ _ H) as (x & y & E & -> & Hlt).
  inversion E; subst. eauto.
Qed.

Lemma lt_Num_inv (a : number) (c : Q) :
  lt a (Num c) = true -> exists x, a = Num x /\ x < c.
Proof.
  intro H. destruct (lt_inv _ _ H) as (x & y & -> & E & Hlt).
  inversion E; subst. eauto.
Qed.

Lemma recommendation_agreeing (l r : Prediction) :
  agree (GeminiService.comparePredictions l r) = true ->
  recommendation (GeminiService.comparePredictions l r) =
  if ge (rawScore r) (rawScore l) then gemini else tflite.
Proof.
  unfold GeminiService.comparePredictions. simpl. intros ->. reflexivity.
Qed.

(** The booleans of the table, read as facts on the scores. *)
Ltac score_facts :=
  repeat match goal with
    | H : (_ && _) = true |- _ => apply andb_true_iff in H; destruct H
    | H : ge _ (Num _) = true |- _ =>
        apply ge_Num_inv in H; destruct H as (? & ? & ?)
    | H : gt _ (Num _) = true |- _ =>
        apply gt_Num_inv in H; destruct H as (? & ? & ?)
    | H : lt _ (Num _) = true |- _ =>
        apply lt_Num_inv in H; destruct H as (? & ? & ?)
    end.

Ltac table_cases :=
  cbn [firstMatch laterRules];
  unfold speciesGuard, genderGuard, localOverwhelming, remoteOverwhelming,
    localHigh, remoteHigh;
  repeat match goal with
    | |- context [if ?b then _ else _] => destruct b eqn:?
    end.

(** X1 -- The source that [comparePredictions] recommends is a confident
    one.  The remote source is recommended only with a numeric raw score,
    at least the local one when the predictions agree and at least 0.90
    when they disagree; on a disagreement the local source is recommended
    only with a raw score above 0.65. *)
Theorem recommended_source_is_confident (l r : Prediction) :
  (recommendation (GeminiService.comparePredictions l r) = gemini ->
   exists g,
     rawScore r = Num g /\
     (agree (GeminiService.comparePredictions l r) = true ->
      exists t, rawScore l = Num t /\ t <= g) /\
     (agree (GeminiService.comparePredictions l r) = false -> 0.90 <= g)) /\
  (recommendation (GeminiService.comparePredictions l r) = tflite ->
   agree (GeminiService.comparePredictions l r) = false ->
   exists t, rawScore l = Num t /\ 0.65 < t).
Proof.
  destruct (agree (GeminiService.comparePredictions l r)) eqn:Ha.
  - rewrite (recommendation_agreeing l r Ha). split.
    + destruct (ge (rawScore r) (rawScore l)) eqn:E; [|discriminate].
      intros _. destruct (ge_inv _ _ E) as (g & t & Hg & Ht & Hle).
      exists g. split; [exact Hg|]. split; [|discriminate].
      intros _. exists t. auto.
    + intros _ H. discriminate.
  - rewrite (compare_disagreeing l r Ha). split.
    + table_cases; intro Hrec; try discriminate; score_facts;
        match goal with
        | H : rawScore r = Num ?g |- _ =>
            exists g; split; [exact H|]; split; [discriminate|]; intros _; lra
        end.
    + table_cases; intros Hrec _; try discriminate; score_facts;
        match goal with
        | H : rawScore l = Num ?t |- _ => exists t; split; [exact H|]; lra
        end.
Qed.

Lemma recommended_source_example :
  recommendation (GeminiService.comparePredictions
                    Inputs.a_female_095 Inputs.a_male_099) = gemini /\
  agree (GeminiService.comparePredictions
           Inputs.a_female_095 Inputs.a_male_099) = false /\
  exists g, rawScore Inputs.a_male_099 = Num g /\ 0.90 <= g.
Proof.
  split; [reflexivity|]. split; [reflexivity|].
  destruct (proj1 (recommended_source_is_confident
                     Inputs.a_female_095 Inputs.a_male_099) eq_refl)
    as (g & Hg & _ & Hge).
  exists g. split; [exact Hg | exact (Hge eq_refl)].
Defined.

(** X2 -- The confidence that [comparePredictions] reports for two numeric
    raw scores lies between them, and it is the larger one when the
    predictions agree; the confidence gap it reports is never negative,
    and it is zero exactly when the two scores are equal. *)
Theorem reported_confidence_bounds (l r : Prediction) (a b : Q) :
  rawScore l = Num a ->
  rawScore r = Num b ->
  exists q d,
    confidence (GeminiService.comparePredictions l r) = Num q /\
    confidenceGap (GeminiService.comparePredictions l r) = Num d /\
    (a <= q \/ b <= q) /\ (q <= a \/ q <= b) /\
    (agree (GeminiService.comparePredictions l r) = true ->
     a <= q /\ b <= q) /\
    0 <= d /\ (d == 0 <-> a == b).
Proof.
  intros Hl Hr. unfold GeminiService.comparePredictions.
  cbn [confidence confidenceGap agree]. rewrite Hl, Hr.
  cbn [max add divq sub abs].
  assert (Hgap : 0 <= Qabs (a - b) /\ (Qabs (a - b) == 0 <-> a == b)).
  { split; [apply Qabs_nonneg|].
    destruct (Qlt_le_dec (a - b) 0) as [Hneg | Hpos].
    - rewrite Qabs_neg by lra. split; intro H; lra.
    - rewrite Qabs_pos by lra. split; intro H; lra. }
  destruct (strict_eq (variety l) (variety r)
            && strict_eq (gender l) (gender r)).
  - destruct (Qle_bool a b) eqn:E.
    + apply Qle_bool_iff in E. exists b, (Qabs (a - b)).
      split; [reflexivity|]. split; [reflexivity|].
      split; [right; lra|]. split; [right; lra|].
      split; [intros _; split; lra | exact Hgap].
    + apply Qle_bool_false in E. exists a, (Qabs (a - b)).
      split; [reflexivity|]. split; [reflexivity|].
      split; [left; lra|]. split; [left; lra|].
      split; [intros _; split; lra | exact Hgap].
  - exists ((a + b) / 2), (Qabs (a - b)).
    split; [reflexivity|]. split; [reflexivity|].
    change ((a + b) / 2) with ((a + b) * (1 # 2)).
    split; [destruct (Qlt_le_dec a b); [left | right]; lra|].
    split; [destruct (Qlt_le_dec a b); [right | left]; lra|].
    split; [discriminate | exact Hgap].
Qed.

(** Two scores that binary arithmetic represents exactly. *)
Lemma reported_confidence_example :
  rawScore (Inputs.pred "A" "female" 0.75) = Num 0.75 /\
  rawScore (Inputs.pred "A" "male" 0.5) = Num 0.5 /\
  exists q d,
    confidence (GeminiService.comparePredictions
                  (Inputs.pred "A" "female" 0.75)
                  (Inputs.pred "A" "male" 0.5)) = Num q /\
    confidenceGap (GeminiService.comparePredictions
                     (Inputs.pred "A" "female" 0.75)
                     (Inputs.pred "A" "male" 0.5)) = Num d /\
    q == 0.625 /\ d == 0.25.
Proof.
  split; [reflexivity|]. split; [reflexivity|].
  destruct (reported_confidence_bounds (Inputs.pred "A" "female" 0.75)
              (Inputs.pred "A" "male" 0.5) 0.75 0.5 eq_refl eq_refl)
    as (q & d & Hq & Hd & _).
  exists q, d. split; [exact Hq|]. split; [exact Hd|].
  vm_compute in Hq, Hd. inversion Hq; inversion Hd. split; reflexivity.
Defined.

Lemma strict_eq_sym (a b : option string) : strict_eq a b = strict_eq b a.
Proof.
  destruct a, b; simpl; try reflexivity. apply String.eqb_sym.
Qed.

Lemma gt_lt_false (a : number) (c d : Q) :
  d <= c -> gt a (Num c) = true -> lt a (Num d) = false.
Proof.
  intros Hdc H. destruct (gt_Num_inv _ _ H) as (x & -> & Hx).
  destruct (lt (Num x) (Num d)) eqn:E; [|reflexivity].
  apply lt_Num in E. lra.
Qed.

(** X3 -- The first revision of [comparePredictions] treats the two
    sources alike: exchanging the two predictions exchanges the
    recommended source, and leaves [manual] and the agreement unchanged, on
    every pair that disagrees. *)
Theorem legacy_arbitration_is_symmetric (l r : Prediction) :
  agree (GeminiServiceLegacy.comparePredictions l r) = false ->
  agree (GeminiServiceLegacy.comparePredictions r l) = false /\
  recommendation (GeminiServiceLegacy.comparePredictions r l) =
  swapSource (recommendation (GeminiServiceLegacy.comparePredictions l r)).
Proof.
  unfold GeminiServiceLegacy.comparePredictions. cbn [agree recommendation].
  rewrite (strict_eq_sym (variety r)), (strict_eq_sym (gender r)).
  intros ->. split; [reflexivity|].
  destruct (gt (rawScore r) (Num 0.8)) eqn:Eg;
    destruct (lt (rawScore l) (Num 0.6)) eqn:El; cbn [andb];
    destruct (gt (rawScore l) (Num 0.8)) eqn:Et;
    destruct (lt (rawScore r) (Num 0.6)) eqn:Er; cbn [andb swapSource];
    try reflexivity.
  all: try (rewrite (gt_lt_false (rawScore r) 0.8 0.6) in Er;
            [discriminate | lra | exact Eg]).
  all: try (rewrite (gt_lt_false (rawScore l) 0.8 0.6) in El;
            [discriminate | lra | exact Et]).
Qed.

Lemma legacy_arbitration_example :
  agree (GeminiServiceLegacy.comparePredictions
           Inputs.ampalaya_male_050 Inputs.upo_female_090) = false /\
  recommendation (GeminiServiceLegacy.comparePredictions
                    Inputs.ampalaya_male_050 Inputs.upo_female_090)
  = gemini /\
  recommendation (GeminiServiceLegacy.comparePredictions
                    Inputs.upo_female_090 Inputs.ampalaya_male_050)
  = tflite.
Proof.
  split; [reflexivity|]. split; [reflexivity|].
  destruct (legacy_arbitration_is_symmetric
              Inputs.ampalaya_male_050 Inputs.upo_female_090 eq_refl)
    as (_ & ->).
  reflexivity.
Defined.

End ArbitrationBounds.

(* ================================================================== *)
(** * The formatted remote prediction *)
(* ================================================================== *)

Section RemoteFormat.
Import GeminiService RemoteVocabulary.

Lemma eqb_false_of_neq (a b : string) : a <> b -> String.eqb a b = false.
Proof. apply String.eqb_neq. Qed.



(** X6 -- A variety outside the vocabulary of the prompt.  When the
    response names a variety that is none of the three varieties nor
    [not_flower], [formatPrediction] still reports a flower: the variety is
    [null], the class is [unknown], and the gender of the response is
    kept. *)
Theorem unknown_variety_format (r : GeminiResult) (v : string) :
  gr_variety r = Some v ->
  ~ In v varieties ->
  v <> "not_flower" ->
  fp_variety (formatPrediction r) = None /\
  fp_predictedClass (formatPrediction r) = "unknown" /\
  fp_isFlower (formatPrediction r) = true /\
  fp_isNotFlower (formatPrediction r) = false /\
  fp_gender (formatPrediction r) = gr_gender r.
Proof.
  intros Hv Hnot Hnf. unfold varieties in Hnot. simpl in Hnot.
  unfold formatPrediction.
  cbn [fp_variety fp_predictedClass fp_isFlower fp_isNotFlower fp_gender].
  rewrite Hv. cbn [strict_eq].
  rewrite !(eqb_false_of_neq v) by (intro E; subst; tauto).
  repeat split.
Qed.

Lemma unknown_variety_example :
  gr_variety (ResponseParsing.salvaged "Upo Smooth" "female" (Num 0.9) "w")
  = Some "Upo Smooth" /\
  fp_variety
    (formatPrediction
       (ResponseParsing.salvaged "Upo Smooth" "female" (Num 0.9) "w"))
  = None /\
  fp_shouldReject
    (formatPrediction
       (ResponseParsing.salvaged "Upo Smooth" "female" (Num 0.9) "w"))
  = false.
Proof.
  split; [reflexivity|].
  destruct (unknown_variety_format
              (ResponseParsing.salvaged "Upo Smooth" "female" (Num 0.9) "w")
              "Upo Smooth" eq_refl) as (Hvar & _).
  - unfold varieties. simpl. intuition discriminate.
  - discriminate.
  - split; [exact Hvar | reflexivity].
Defined.

(** [Math.round] is within one half of its argument. *)
Lemma round_half_up_bounds (x : Q) :
  x - (1 # 2) < inject_Z (Qround_half_up x) /\
  inject_Z (Qround_half_up x) <= x + (1 # 2).
Proof.
  unfold Qround_half_up. split.
  - pose proof (Qlt_floor (x + (1 # 2))) as H.
    rewrite inject_Z_plus in H. change (inject_Z 1) with 1 in H. lra.
  - apply Qfloor_le.
Qed.

Lemma round_half_up_mono (x y : Q) :
  x <= y -> inject_Z (Qround_half_up x) <= inject_Z (Qround_half_up y).
Proof.
  intro H. unfold Qround_half_up. rewrite <- Zle_Qle.
  apply Qfloor_resp_le. lra.
Qed.

End RemoteFormat.

(* ================================================================== *)
(** * Outcomes of the response parsing *)
(* ================================================================== *)

Section AnalysisOutcomes.
Import GeminiService ResponseParsing RemoteVocabulary.

Variable JSON_parse : string -> option GeminiResult.
Variable parseFloat : string -> number.

(** The completeness test of [analyzeFlower] on an object. *)
Lemma analyze_parsed (text json : string) (r : GeminiResult) :
  jsonMatch_re text = Some json ->
  JSON_parse json = Some r ->
  analyzeFlower JSON_parse parseFloat text =
  if negb (truthy (gr_variety r)) || negb (truthy (gr_gender r))
     || match gr_confidence r with None => true | Some _ => false end
  then Thrown "Gemini analysis failed: Incomplete response from Gemini"
  else Returned (formatPrediction r).
Proof.
  intros Hm Hp. unfold analyzeFlower, parseResponse, strictOrPartial.
  rewrite Hm, Hp. destruct (_ || _); reflexivity.
Qed.

Lemma strict_cases (text : string) :
  strictParseFails JSON_parse text \/
  exists json r, jsonMatch_re text = Some json /\ JSON_parse json = Some r.
Proof.
  unfold strictParseFails.
  destruct (jsonMatch_re text) as [json|]; [|left; left; reflexivity].
  destruct (JSON_parse json) as [r|] eqn:E.
  - right. eauto.
  - left. right. eauto.
Qed.

(** X9 -- Shape of a returned prediction.  Whatever the path, a
    prediction returned by [analyzeFlower] is the format of an object with
    a non-empty variety, a non-empty gender and a confidence: if it is a
    flower it carries that gender, and if it is not it carries neither a
    gender nor a variety. *)
Theorem returned_prediction_shape (text : string)
  (p : FormattedPrediction) :
  analyzeFlower JSON_parse parseFloat text = Returned p ->
  (exists r,
     p = formatPrediction r /\
     truthy (gr_variety r) = true /\ truthy (gr_gender r) = true /\
     gr_confidence r <> None) /\
  (fp_isFlower p = true -> truthy (fp_gender p) = true) /\
  (fp_isFlower p = false -> fp_gender p = None /\ fp_variety p = None).
Proof.
  intro H.
  assert (Hr : exists r,
             p = formatPrediction r /\
             truthy (gr_variety r) = true /\ truthy (gr_gender r) = true /\
             gr_confidence r <> None).
  { destruct (strict_cases text) as [Hfail | (json & r & Hm & Hp)].
    - pose proof (parseResponse_fallback JSON_parse parseFloat text Hfail)
        as Hparse.
      unfold analyzeFlower in H.
      destruct (varietyMatch_re text) as [v|] eqn:Ev;
        [destruct (genderMatch_re text) as [g|] eqn:Eg;
         [destruct (confidenceMatch_re text) as [c|] eqn:Ec|]|];
        try (rewrite Hparse in H; discriminate).
      destruct Hparse as (reasoning & Hparse). rewrite Hparse in H.
      cbn [salvaged gr_variety gr_gender gr_confidence] in H.
      rewrite (quotedField_truthy _ _ _ Ev), (quotedField_truthy _ _ _ Eg)
        in H.
      cbn [negb orb] in H. inversion H.
      exists (salvaged v g (parseFloat c) reasoning).
      split; [reflexivity|].
      cbn [salvaged gr_variety gr_gender gr_confidence].
      rewrite (quotedField_truthy _ _ _ Ev), (quotedField_truthy _ _ _ Eg).
      repeat split. discriminate.
    - rewrite (analyze_parsed text json r Hm Hp) in H.
      destruct (truthy (gr_variety r)) eqn:Ev;
        destruct (truthy (gr_gender r)) eqn:Eg;
        destruct (gr_confidence r) as [c|] eqn:Ec;
        cbn [negb orb] in H; try discriminate.
      inversion H. exists r. rewrite Ec. repeat split; try assumption.
      discriminate. }
  split; [exact Hr|].
  destruct Hr as (r & -> & Hv & Hg & _).
  unfold formatPrediction. cbn [fp_isFlower fp_gender fp_variety].
  destruct (strict_eq (gr_variety r) (Some "not_flower")) eqn:E;
    cbn [negb].
  - split; [discriminate|]. intros _. split; [reflexivity|].
    destruct (gr_variety r) as [v|]; [|discriminate]. simpl in E.
    apply String.eqb_eq in E. subst v. reflexivity.
  - split; [intros _; exact Hg | discriminate].
Qed.

Variable syntaxErrorMessage : string -> string.

Lemma formats_share_core (r : GeminiResult) :
  Revisions.sameCore (GeminiServiceLegacyAnalysis.formatPrediction r)
    (formatPrediction r).
Proof. repeat split. Qed.

(** X10 -- The current [analyzeFlower] extends the first revision.  Every
    response for which the first revision returns a prediction gets a
    prediction from the current one that agrees with it on the class, the
    variety, the gender, the flags, the percentage, the raw score, the
    reasoning, the key features and the probabilities.  The two
    predictions are not the same object: the first revision reports
    another model name and version, and fewer fields of Gemini data.  On
    a response whose JSON object parses, both revisions throw the same
    message or both return; the first revision throws on every response
    whose strict parsing fails, where the current one may still recover
    the three fields. *)
Theorem current_parsing_extends_legacy (text : string) :
  (forall p,
     GeminiServiceLegacyAnalysis.analyzeFlower JSON_parse syntaxErrorMessage
       text = Returned p ->
     (exists q,
        analyzeFlower JSON_parse parseFloat text = Returned q /\
        Revisions.sameCore p q) /\
     GeminiServiceLegacyAnalysis.lp_modelType p
     <> GeminiServiceMetadata.modelType /\
     GeminiServiceLegacyAnalysis.lp_modelVersion p
     <> GeminiServiceMetadata.modelVersion /\
     GeminiServiceLegacyAnalysis.lp_geminiData p
     <> GeminiServiceMetadata.geminiData) /\
  (strictParseFails JSON_parse text ->
   exists message,
     GeminiServiceLegacyAnalysis.analyzeFlower JSON_parse syntaxErrorMessage
       text = Thrown message) /\
  (forall json r,
     jsonMatch_re text = Some json -> JSON_parse json = Some r ->
     match
       GeminiServiceLegacyAnalysis.analyzeFlower JSON_parse
         syntaxErrorMessage text,
       analyzeFlower JSON_parse parseFloat text
     with
     | Returned p, Returned q => Revisions.sameCore p q
     | Thrown message, Thrown message' => message = message'
     | _, _ => False
     end).
Proof.
  unfold GeminiServiceLegacyAnalysis.analyzeFlower, strictParseFails.
  destruct (jsonMatch_re text) as [json|] eqn:Hm.
  - destruct (JSON_parse json) as [r|] eqn:Hp.
    + rewrite (analyze_parsed text json r Hm Hp).
      split; [|split].
      * destruct (truthy (gr_variety r)); destruct (truthy (gr_gender r));
          destruct (gr_confidence r); cbn [negb orb]; intros p H;
          try discriminate.
        injection H as <-.
        split; [exists (formatPrediction r);
                split; [reflexivity | apply formats_share_core]|].
        repeat split; discriminate.
      * intros [H | (j & Hj & Hn)]; [discriminate|].
        inversion Hj; subst. congruence.
      * intros j r' Hj Hr.
        destruct (truthy (gr_variety r)); destruct (truthy (gr_gender r));
          destruct (gr_confidence r); cbn [negb orb];
          first [reflexivity | apply formats_share_core].
    + split; [intros p H; discriminate|]. split; [eauto|].
      intros j r Hj Hr. inversion Hj; subst. congruence.
  - split; [intros p H; discriminate|]. split; [eauto|].
    intros j r Hj. discriminate.
Qed.

End AnalysisOutcomes.

Lemma returned_prediction_example :
  exists p,
    GeminiService.analyzeFlower Inputs.rejectingParser Inputs.parseDecimal
      Inputs.truncatedResponse = GeminiService.Returned p /\
    GeminiService.fp_isFlower p = true /\
    truthy (GeminiService.fp_gender p) = true.
Proof.
  eexists. split; [reflexivity|]. split; [reflexivity|].
  refine (proj1 (proj2 (returned_prediction_shape Inputs.rejectingParser
                          Inputs.parseDecimal Inputs.truncatedResponse
                          _ eq_refl)) eq_refl).
Defined.

(** A truncated response, which only the current revision recovers, and
    a complete one, on which both return. *)
Lemma current_parsing_extends_legacy_example :
  ResponseParsing.strictParseFails Inputs.rejectingParser
    Inputs.truncatedResponse /\
  (exists message,
     GeminiServiceLegacyAnalysis.analyzeFlower Inputs.rejectingParser
       (fun _ => "Unexpected end of JSON input") Inputs.truncatedResponse
     = GeminiService.Thrown message) /\
  (exists p,
     GeminiService.analyzeFlower Inputs.rejectingParser Inputs.parseDecimal
       Inputs.truncatedResponse = GeminiService.Returned p) /\
  exists q,
    GeminiService.analyzeFlower RevisionInputs.knownParser
      Inputs.parseDecimal RevisionInputs.completeResponse
    = GeminiService.Returned q /\
    Revisions.sameCore
      (GeminiServiceLegacyAnalysis.formatPrediction
         RevisionInputs.completeResult) q.
Proof.
  assert (H : ResponseParsing.strictParseFails Inputs.rejectingParser
                Inputs.truncatedResponse) by (left; reflexivity).
  split; [exact H|]. split; [|split].
  - exact (proj1 (proj2 (current_parsing_extends_legacy
                           Inputs.rejectingParser Inputs.parseDecimal
                           (fun _ => "Unexpected end of JSON input")
                           Inputs.truncatedResponse)) H).
  - eexists. reflexivity.
  - apply (proj1 (current_parsing_extends_legacy
                    RevisionInputs.knownParser Inputs.parseDecimal
                    (fun _ => "Unexpected token")
                    RevisionInputs.completeResponse)).
    reflexivity.
Defined.

(* ================================================================== *)
(** * What the patterns extract *)
(* ================================================================== *)

Section Patterns.
Import GeminiService RemoteVocabulary.

Lemma strip_prefix_app (p s : string) :
  strip_prefix p (p ++ s)%string = Some s.
Proof.
  induction p as [|a p IH]; simpl; [destruct s; reflexivity|].
  rewrite Ascii.eqb_refl. exact IH.
Qed.

(** [span] stops where the characters stop satisfying the test. *)
Lemma span_stop (f : ascii -> bool) (c : ascii) (rest : string) :
  f c = false -> span f (String c rest) = (EmptyString, String c rest).
Proof. intro H. simpl. rewrite H. reflexivity. Qed.

Lemma span_app (f : ascii -> bool) (a b : string) :
  (forall c rest, b = String c rest -> f c = false) ->
  all_chars f a = true ->
  span f (a ++ b)%string = (a, b).
Proof.
  intros Hb. induction a as [|c a IH]; simpl.
  - intros _. destruct b as [|c rest]; [reflexivity|].
    apply span_stop. exact (Hb c rest eq_refl).
  - intro H. apply andb_true_iff in H. destruct H as (Hc & Ha).
    rewrite Hc, (IH Ha). reflexivity.
Qed.

Lemma span_blank (a b : string) :
  blank a = true ->
  (forall c rest, b = String c rest -> is_space c = false) ->
  span is_space (a ++ b)%string = (a, b).
Proof. intros Ha Hb. apply span_app; assumption. Qed.

Lemma span_value (a b : string) :
  without dquote a = true ->
  span not_dquote (a ++ String dquote b)%string = (a, String dquote b).
Proof.
  intro Ha. apply span_app.
  - intros c rest E. inversion E. reflexivity.
  - exact Ha.
Qed.

Lemma span_numeral (a b : string) :
  numeral a = true ->
  (forall c rest, b = String c rest -> is_digit_or_dot c = false) ->
  span is_digit_or_dot (a ++ b)%string = (a, b).
Proof. intros Ha Hb. apply span_app; assumption. Qed.

Lemma append_assoc (a b c : string) :
  ((a ++ b) ++ c)%string = (a ++ (b ++ c))%string.
Proof.
  induction a as [|x a IH]; simpl; [reflexivity|]. rewrite IH. reflexivity.
Qed.

Lemma digit_not_space (c : ascii) :
  is_digit_or_dot c = true -> is_space c = false.
Proof.
  destruct c as [b0 b1 b2 b3 b4 b5 b6 b7].
  destruct b0, b1, b2, b3, b4, b5, b6, b7; vm_compute; intro H;
    first [reflexivity | discriminate].
Qed.

(** The head of the field patterns on a written key. *)
Lemma after_key_written (name before after rest : string) :
  blank before = true ->
  blank after = true ->
  (forall c r, rest = String c r -> is_space c = false) ->
  after_key name (quoted name ++ before ++ ":" ++ after ++ rest)%string
  = Some rest.
Proof.
  intros Hb Ha Hrest. unfold after_key.
  rewrite strip_prefix_app.
  rewrite (span_blank before (":" ++ after ++ rest)%string Hb).
  - cbn [snd append]. rewrite (span_blank after rest Ha Hrest). reflexivity.
  - intros c r E. inversion E. reflexivity.
Qed.

Lemma search_here (m : string -> option string) (s c : string) :
  m s = Some c -> search m s = Some c.
Proof. intro H. destruct s; simpl; rewrite H; reflexivity. Qed.

(** X11 -- What is written is what is extracted.  When the response text
    begins with the variety (or the gender) written as a quoted key, a
    colon and a quoted value, with any white space around the colon, the
    pattern captures exactly the value, provided the value is not empty and
    holds no quotation mark.  Likewise the pattern of the confidence
    captures a run of digits and dots up to the first other character. *)
Theorem written_field_is_extracted
  (before after value rest : string) :
  blank before = true ->
  blank after = true ->
  value <> EmptyString ->
  without dquote value = true ->
  varietyMatch_re (written "variety" before after value ++ rest)%string
  = Some value /\
  genderMatch_re (written "gender" before after value ++ rest)%string
  = Some value /\
  (numeral value = true ->
   (forall c r, rest = String c r -> is_digit_or_dot c = false) ->
   confidenceMatch_re
     (quoted "confidence" ++ before ++ ":" ++ after ++ value ++ rest)%string
   = Some value).
Proof.
  intros Hb Ha Hne Hq.
  assert (Hquoted : forall name,
             search (quotedFieldAt name)
               (written name before after value ++ rest)%string
             = Some value).
  { intro name. apply search_here. unfold quotedFieldAt, written.
    rewrite !append_assoc.
    rewrite (after_key_written name before after
               (quoted value ++ rest)%string Hb Ha).
    - unfold quoted. cbn [append]. rewrite Ascii.eqb_refl.
      rewrite append_assoc. cbn [append].
      rewrite (span_value value rest Hq).
      destruct value; [congruence | reflexivity].
    - intros c r E. unfold quoted in E. inversion E. reflexivity. }
  split; [apply Hquoted|]. split; [apply Hquoted|].
  intros Hnum Hrest. apply search_here. unfold numberFieldAt.
  rewrite (after_key_written "confidence" before after
             (value ++ rest)%string Hb Ha).
  - rewrite (span_numeral value rest Hnum Hrest). cbn [fst].
    destruct value; [congruence | reflexivity].
  - intros c r E. destruct value as [|d value']; [congruence|].
    inversion E; subst. unfold numeral in Hnum. cbn [all_chars] in Hnum.
    apply andb_true_iff in Hnum. destruct Hnum as (Hd & _).
    exact (digit_not_space c Hd).
Qed.

Lemma written_field_example :
  blank " " = true /\
  without dquote "upo_smooth" = true /\
  varietyMatch_re
    (written "variety" EmptyString " " "upo_smooth" ++ ", and more")%string
  = Some "upo_smooth".
Proof.
  split; [reflexivity|]. split; [reflexivity|].
  apply (written_field_is_extracted EmptyString " " "upo_smooth"
           ", and more"); try reflexivity.
  discriminate.
Defined.

Lemma through_last_absent (c : ascii) (s : string) :
  without c s = true -> through_last c s = None.
Proof.
  unfold without. induction s as [|a s IH]; simpl; [reflexivity|].
  intro H. apply andb_true_iff in H. destruct H as (Ha & Hs).
  rewrite (IH Hs). apply negb_true_iff in Ha. rewrite Ha. reflexivity.
Qed.

Lemma through_last_app (c : ascii) (body post : string) :
  without c post = true ->
  through_last c (body ++ String c post)%string
  = Some (body ++ String c EmptyString)%string.
Proof.
  intro Hpost. induction body as [|a body IH]; simpl.
  - rewrite (through_last_absent c post Hpost), Ascii.eqb_refl. reflexivity.
  - rewrite IH. reflexivity.
Qed.

Lemma through_last_prefix (c : ascii) (s p : string) :
  through_last c s = Some p ->
  exists body post,
    p = (body ++ String c EmptyString)%string /\ s = (p ++ post)%string.
Proof.
  revert p. induction s as [|a s IH]; simpl; intros p H; [discriminate|].
  destruct (through_last c s) as [q|] eqn:E.
  - inversion H; subst. destruct (IH q eq_refl) as (body & post & -> & Hs).
    exists (String a body), post. simpl. rewrite Hs at 1. split; reflexivity.
  - destruct (Ascii.eqb a c) eqn:Ea; [|discriminate].
    apply Ascii.eqb_eq in Ea. subst a. inversion H; subst.
    exists EmptyString, s. split; reflexivity.
Qed.

(** X12 -- The JSON object of a response.  When the response wraps one
    object in text that holds no opening brace before it and no closing
    brace after it (prose, a code fence), the strict stage parses exactly
    the object, from its opening to its closing brace.  Whatever the
    response, the text handed to [JSON.parse] is a part of it that begins
    with an opening brace and ends with a closing one. *)
Theorem json_object_is_isolated :
  (forall pre body post : string,
     without "{" pre = true ->
     without "}" post = true ->
     jsonMatch_re (pre ++ String "{" (body ++ String "}" post))%string
     = Some (String "{" (body ++ String "}" EmptyString))%string) /\
  (forall text json : string,
     jsonMatch_re text = Some json ->
     exists pre body post,
       json = String "{" (body ++ String "}" EmptyString)%string /\
       text = (pre ++ json ++ post)%string).
Proof.
  split.
  - intros pre body post Hpre Hpost. unfold without in Hpre.
    induction pre as [|a pre IH]; simpl.
    + rewrite (through_last_app "}" body post Hpost). reflexivity.
    + simpl in Hpre. apply andb_true_iff in Hpre.
      destruct Hpre as (Ha & Hpre). apply negb_true_iff in Ha.
      rewrite Ha. exact (IH Hpre).
  - intros text. induction text as [|a text IH]; simpl; intros json H;
      [discriminate|].
    assert (Hrest : jsonMatch_re text = Some json ->
                    exists pre body post,
                      json = String "{" (body ++ String "}" EmptyString)%string
                      /\ String a text = (pre ++ json ++ post)%string).
    { intro Hj. destruct (IH json Hj) as (pre & body & post & Hjson & Ht).
      exists (String a pre), body, post. split; [exact Hjson|].
      simpl. rewrite Ht. reflexivity. }
    destruct (Ascii.eqb a "{") eqn:Ea; [|exact (Hrest H)].
    destruct (through_last "}" text) as [p|] eqn:Ep; [|exact (Hrest H)].
    apply Ascii.eqb_eq in Ea. subst a. inversion H; subst.
    destruct (through_last_prefix _ _ _ Ep) as (body & post & -> & Ht).
    exists EmptyString, body, post. split; [reflexivity|].
    simpl. rewrite Ht at 1. reflexivity.
Qed.

Lemma json_object_example :
  without "{" "Here is the result: " = true /\
  without "}" " Hope this helps." = true /\
  jsonMatch_re
    ("Here is the result: "
     ++ String "{" ("a: 1, b: {c: 2}" ++ String "}" " Hope this helps."))%string
  = Some "{a: 1, b: {c: 2}}".
Proof.
  split; [reflexivity|]. split; [reflexivity|].
  apply (proj1 json_object_is_isolated "Here is the result: "
           "a: 1, b: {c: 2}" " Hope this helps."); reflexivity.
Defined.

End Patterns.

(* ================================================================== *)
(** * Availability of the remote service *)
(* ================================================================== *)

Section Availability.
Import GeminiAvailability.

Lemma initialize_available (key : option string) (sdkOk : bool)
  (s : Service) :
  isAvailable s = true -> initialize key sdkOk s = s.
Proof.
  unfold isAvailable, initialize. intro H.
  apply andb_true_iff in H. destruct H as (_ & ->). reflexivity.
Qed.

Lemma initialize_disabled (key : option string) (sdkOk : bool)
  (s : Service) :
  isEnabled s = false -> isEnabled (initialize key sdkOk s) = false.
Proof.
  unfold initialize. intro H. rewrite H.
  destruct (isInitialized s); simpl; exact H.
Qed.

(** X13 -- Availability of the remote service.  The first call of
    [initialize] makes the service available exactly when it is enabled,
    the key is set and the client could be built.  An available service
    stays as it is under further calls.  A service that is disabled, by
    the environment or by one failed call, is never available again,
    whatever the later calls do. *)
Theorem availability_is_settled_once (key : option string) :
  (forall (enable sdkOk : bool),
     isAvailable (initialize key sdkOk (construct enable)) = true <->
     enable = true /\ truthy key = true /\ sdkOk = true) /\
  (forall (s : Service) (outcomes : list bool),
     isAvailable s = true -> attempts key outcomes s = s) /\
  (forall (s : Service) (outcomes : list bool),
     isEnabled s = false ->
     isAvailable (attempts key outcomes s) = false) /\
  (forall (enable : bool) (outcomes : list bool),
     isAvailable (attempts key (false :: outcomes) (construct enable))
     = false).
Proof.
  assert (Hdisabled : forall (outcomes : list bool) (s : Service),
             isEnabled s = false ->
             isAvailable (attempts key outcomes s) = false).
  { unfold attempts. induction outcomes as [|o outcomes IH]; intros s H;
      cbn [fold_left].
    - unfold isAvailable. rewrite H. reflexivity.
    - apply IH. apply initialize_disabled. exact H. }
  split; [|split; [|split]].
  - intros enable sdkOk. unfold initialize, construct, isAvailable. simpl.
    destruct enable, (truthy key), sdkOk; simpl; intuition congruence.
  - intros s outcomes H. unfold attempts.
    induction outcomes as [|o outcomes IH]; cbn [fold_left]; [reflexivity|].
    rewrite (initialize_available key o s H). exact IH.
  - intros s outcomes H. apply Hdisabled. exact H.
  - intros enable outcomes. unfold attempts. cbn [fold_left].
    apply Hdisabled. unfold initialize, construct. simpl.
    destruct enable, (truthy key); reflexivity.
Qed.

Lemma availability_example :
  isAvailable
    (attempts (Some "key") [false; true; true] (construct true)) = false /\
  isAvailable
    (attempts (Some "key") [true; false] (construct true)) = true.
Proof.
  split.
  - apply (proj2 (proj2 (proj2 (availability_is_settled_once (Some "key"))))).
  - assert (H : isAvailable (initialize (Some "key") true (construct true))
                = true) by reflexivity.
    change (attempts (Some "key") [true; false] (construct true))
      with (attempts (Some "key") [false]
              (initialize (Some "key") true (construct true))).
    rewrite (proj1 (proj2 (availability_is_settled_once (Some "key")))
               _ [false] H).
    exact H.
Defined.

End Availability.

(* ================================================================== *)
(** * The smoothed distribution *)
(* ================================================================== *)

Section SmoothedDistribution.
Import ModelServiceTM SmoothingVocabulary.

Lemma fold_left_sum {A : Type} (g : A -> Q) (l : list A) :
  forall a, fold_left (fun sum x => sum + g x) l a == a + Qsum (map g l).
Proof.
  induction l as [|x l IH]; intro a; simpl.
  - lra.
  - rewrite IH. lra.
Qed.

(** The averaged probability of a label: the mean of its values over the
    window. *)
Lemma averagedProb_mean (h : list (list number)) (i : nat) :
  averagedProb h i ==
  Qsum (map (fun output => valueAt output i) h)
  / inject_Z (Z.of_nat (length h)).
Proof.
  unfold averagedProb. rewrite fold_left_sum. unfold valueAt.
  apply Qmult_comp; [lra | reflexivity].
Qed.

Lemma Qsum_repeat (x : Q) (n : nat) :
  Qsum (repeat x n) == inject_Z (Z.of_nat n) * x.
Proof.
  induction n as [|n IH].
  - change (inject_Z (Z.of_nat 0)) with 0. simpl. ring.
  - cbn [repeat Qsum fold_right]. fold (Qsum (repeat x n)). rewrite IH.
    rewrite Nat2Z.inj_succ. unfold Z.succ. rewrite inject_Z_plus.
    change (inject_Z 1) with 1. ring.
Qed.

Lemma length_positive (n : nat) : (0 < n)%nat -> 0 < inject_Z (Z.of_nat n).
Proof.
  intro H. change 0 with (inject_Z 0). rewrite <- Zlt_Qlt. lia.
Qed.

Lemma averagedProb_repeat (o : list number) (n i : nat) :
  (0 < n)%nat -> averagedProb (repeat o n) i == valueAt o i.
Proof.
  intro Hn. rewrite averagedProb_mean, map_repeat, Qsum_repeat.
  rewrite repeat_length.
  pose proof (length_positive n Hn) as Hpos.
  field. lra.
Qed.

Lemma slice_last_repeat {A : Type} (x : A) (n k : nat) :
  JsArray.slice_last n (repeat x k) = repeat x (Nat.min n k).
Proof.
  unfold JsArray.slice_last. rewrite repeat_length.
  replace k with ((k - n) + Nat.min n k)%nat at 2 by lia.
  rewrite repeat_app, skipn_app, repeat_length.
  rewrite skipn_all2 by (rewrite repeat_length; lia).
  replace (k - n - (k - n))%nat with 0%nat by lia. reflexivity.
Qed.

Lemma insert_perm {A : Type} (cmp : A -> A -> Q) (x : A) (l : list A) :
  Permutation (JsArray.insert cmp x l) (x :: l).
Proof.
  induction l as [|y l IH]; simpl; [apply Permutation_refl|].
  destruct (Qle_bool (cmp x y) 0); [apply Permutation_refl|].
  eapply perm_trans; [apply perm_skip, IH | apply perm_swap].
Qed.

(** The sort rearranges the array and loses nothing. *)
Lemma sort_perm {A : Type} (cmp : A -> A -> Q) (l : list A) :
  Permutation (JsArray.sort cmp l) l.
Proof.
  induction l as [|x l IH]; simpl; [apply perm_nil|].
  eapply perm_trans; [apply insert_perm | apply perm_skip, IH].
Qed.

Lemma labelled_labels (averaged : list Q) :
  map label (labelled averaged) = TM_LABELS.
Proof. reflexivity. Qed.

Lemma labelled_probabilities (h : list (list number)) :
  map probability (labelled (averagedProbs h)) = averagedProbs h.
Proof. reflexivity. Qed.


Lemma result_percentage (h : list (list number)) (o : list number)
  (e : TMPrediction) :
  In e (predictions (snd (predictWithAllProbabilities h o))) ->
  percentage e = round1 (probability e * 100).
Proof.
  rewrite predict_result.
  destruct (negb _); cbn [predictions].
  - change byProbabilityDesc with (Ranking.descending probability).
    rewrite sort_In. unfold JsArray.push. rewrite in_app_iff.
    intros [H | [<- | []]].
    + exact (smoothedRanking_percentage h o e H).
    + reflexivity.
  - exact (smoothedRanking_percentage h o e).
Qed.

Lemma result_lists_every_label_aux (h : list (list number))
  (o : list number) :
  StronglySorted descendingProbability
    (predictions (snd (predictWithAllProbabilities h o))) /\
  hd_error (predictions (snd (predictWithAllProbabilities h o)))
  = Some (topPrediction (snd (predictWithAllProbabilities h o))).
Proof.
  rewrite predict_result.
  destruct (negb _); cbn [predictions topPrediction];
    change byProbabilityDesc with (Ranking.descending probability).
  - split; [apply (sort_sorted probability)|].
    pose proof (sort_length probability
                  (JsArray.push (smoothedRanking h o)
                     (notFlowerPrediction
                        (first (smoothedRanking h o))))) as Hlen.
    unfold JsArray.push in *. rewrite length_app in Hlen.
    simpl in Hlen. unfold first at 2.
    destruct (JsArray.sort _ _); [simpl in Hlen; lia | reflexivity].
  - split; [|apply smoothedRanking_top].
    unfold smoothedRanking.
    change byProbabilityDesc with (Ranking.descending probability).
    apply (sort_sorted probability).
Qed.


(** The top prediction holds at least half of the mass. *)
Lemma top_prediction_bounds (h : list (list number)) (o : list number) :
  1 # 2 <= probability (topPrediction (snd (predictWithAllProbabilities h o)))
  /\
  50 <= percentage (topPrediction (snd (predictWithAllProbabilities h o))).
Proof.
  assert (Hhalf : 1 # 2 <= probability
                    (topPrediction (snd (predictWithAllProbabilities h o)))).
  { rewrite predict_result.
    destruct (Qle_bool CONFIDENCE_THRESHOLD _) eqn:E;
      cbn [negb topPrediction].
    - apply Qle_bool_iff in E. unfold CONFIDENCE_THRESHOLD in E. lra.
    - rewrite top_after_synthesis.
      destruct (Qle_bool (probability (notFlowerPrediction _)) _) eqn:E2.
      + apply Qle_bool_iff in E2. cbn [notFlowerPrediction probability] in E2.
        lra.
      + apply Qle_bool_false in E2.
        cbn [notFlowerPrediction probability] in *. lra. }
  split; [exact Hhalf|].
  assert (Hin : In (topPrediction (snd (predictWithAllProbabilities h o)))
                  (predictions (snd (predictWithAllProbabilities h o)))).
  { destruct (result_lists_every_label_aux h o) as (_ & Hhd).
    destruct (predictions (snd (predictWithAllProbabilities h o)));
      [discriminate|]. injection Hhd as <-. left. reflexivity. }
  rewrite (result_percentage h o _ Hin).
  apply round1_at_least_50. lra.
Qed.

(** X16 -- The top prediction of a result.  No prediction of the result
    has a higher probability than the top prediction, whose probability is
    at least one half and whose percentage is at least 50: a top label below
    one half always gives way to the reject entry. *)
Theorem top_prediction_dominates (h : list (list number))
  (o : list number) :
  (forall e,
     In e (predictions (snd (predictWithAllProbabilities h o))) ->
     probability e
     <= probability (topPrediction (snd (predictWithAllProbabilities h o)))) /\
  1 # 2 <= probability (topPrediction (snd (predictWithAllProbabilities h o)))
  /\
  50 <= percentage (topPrediction (snd (predictWithAllProbabilities h o))).
Proof.
  destruct (top_prediction_bounds h o) as (Hhalf & Hfifty).
  split; [|split; [exact Hhalf | exact Hfifty]].
  intros e He.
  destruct (result_lists_every_label_aux h o) as (Hs & Hhd).
  destruct (predictions (snd (predictWithAllProbabilities h o)))
    as [|x l]; [destruct He|].
  injection Hhd as <-. inversion Hs as [|? ? _ Hall]; subst.
  destruct He as [<- | He]; [lra|].
  rewrite Forall_forall in Hall. exact (Hall e He).
Qed.

Lemma Qsum_app (a b : list Q) : Qsum (a ++ b) == Qsum a + Qsum b.
Proof.
  induction a as [|x a IH]; simpl; [lra|].
  fold (Qsum (a ++ b)). fold (Qsum a). rewrite IH. lra.
Qed.

(** The column totals of a window of distributions add up to its
    length. *)
Lemma column_totals (h : list (list number)) :
  Forall normalised h ->
  Qsum (map (fun i => Qsum (map (fun output => valueAt output i) h))
          (seq 0 (length TM_LABELS)))
  == inject_Z (Z.of_nat (length h)).
Proof.
  induction 1 as [|o h Ho _ IH].
  - reflexivity.
  - unfold normalised, labelValues in Ho.
    cbn [length TM_LABELS seq map Qsum fold_right] in *.
    rewrite Nat2Z.inj_succ. unfold Z.succ. rewrite inject_Z_plus.
    change (inject_Z 1) with 1. unfold Qsum in IH. rewrite <- IH. lra.
Qed.

Lemma mean_normalised (h : list (list number)) :
  h <> [] -> Forall normalised h -> Qsum (averagedProbs h) == 1.
Proof.
  intros Hne Hall. pose proof (column_totals h Hall) as Htot.
  assert (Hpos : 0 < inject_Z (Z.of_nat (length h))).
  { apply length_positive. destruct h; [congruence | simpl; lia]. }
  unfold averagedProbs.
  cbn [length TM_LABELS seq map Qsum fold_right] in *.
  rewrite !averagedProb_mean.
  set (n := inject_Z (Z.of_nat (length h))) in *.
  set (c0 := Qsum (map (fun output => valueAt output 0) h)) in *.
  set (c1 := Qsum (map (fun output => valueAt output 1) h)) in *.
  set (c2 := Qsum (map (fun output => valueAt output 2) h)) in *.
  set (c3 := Qsum (map (fun output => valueAt output 3) h)) in *.
  set (c4 := Qsum (map (fun output => valueAt output 4) h)) in *.
  set (c5 := Qsum (map (fun output => valueAt output 5) h)) in *.
  transitivity ((c0 + (c1 + (c2 + (c3 + (c4 + (c5 + 0)))))) / n).
  - field. lra.
  - rewrite Htot. field. lra.
Qed.

Lemma column_bounds (h : list (list number)) (i : nat) :
  Forall (fun output => 0 <= valueAt output i <= 1) h ->
  0 <= Qsum (map (fun output => valueAt output i) h)
  <= inject_Z (Z.of_nat (length h)).
Proof.
  induction 1 as [|o h Ho _ IH].
  - simpl. change (inject_Z 0) with 0. lra.
  - cbn [map Qsum fold_right length].
    fold (Qsum (map (fun output => valueAt output i) h)).
    rewrite Nat2Z.inj_succ. unfold Z.succ. rewrite inject_Z_plus.
    change (inject_Z 1) with 1. lra.
Qed.

Lemma mean_bounds (h : list (list number)) (i : nat) :
  h <> [] ->
  Forall (fun output => 0 <= valueAt output i <= 1) h ->
  0 <= averagedProb h i <= 1.
Proof.
  intros Hne Hall. pose proof (column_bounds h i Hall) as Hb.
  assert (Hpos : 0 < inject_Z (Z.of_nat (length h))).
  { apply length_positive. destruct h; [congruence | simpl; lia]. }
  rewrite averagedProb_mean. split.
  - apply Qle_shift_div_l; [exact Hpos | lra].
  - apply Qle_shift_div_r; [exact Hpos | lra].
Qed.

Lemma slice_last_Forall {A : Type} (P : A -> Prop) (n : nat) (l : list A) :
  Forall P l -> Forall P (JsArray.slice_last n l).
Proof.
  intro H. rewrite Forall_forall in *. intros x Hx. apply H.
  unfold JsArray.slice_last in Hx.
  rewrite <- (firstn_skipn (length l - n) l). apply in_or_app. right.
  exact Hx.
Qed.

Lemma slice_last_nonempty {A : Type} (n : nat) (l : list A) :
  l <> [] -> JsArray.slice_last (S n) l <> [].
Proof.
  intros Hne E. apply (f_equal (@length A)) in E.
  rewrite slice_last_length in E. destruct l; [congruence|].
  simpl in E. lia.
Qed.

End SmoothedDistribution.

(* ================================================================== *)
(** * The crop handed to the image manipulator *)
(* ================================================================== *)

Section CenterCrop.
Import ModelServiceTMImage.

Lemma minQ_cases (a b : Q) :
  (minQ a b = a /\ a <= b) \/ (minQ a b = b /\ b < a).
Proof.
  unfold minQ. destruct (Qle_bool a b) eqn:E.
  - left. split; [reflexivity | apply Qle_bool_iff, E].
  - right. split; [reflexivity | apply Qle_bool_false, E].
Qed.

Lemma truthyNumber_nonzero (q : Q) :
  ~ q == 0 -> truthyNumber (Some (Num q)) = true.
Proof.
  intro H. cbn [truthyNumber]. destruct (Qeq_bool q 0) eqn:E;
    [|reflexivity].
  apply Qeq_bool_iff in E. contradiction.
Qed.

(** X18 -- The centre crop of [preprocessImage].  For an image with
    positive dimensions the actions are one crop followed by the resize to
    the input size of the model; the crop is a square whose side is the
    smaller dimension, it lies inside the image, it leaves the same margin
    on both sides of each axis and no margin along the smaller one.  When
    a dimension is missing, [NaN] or 0 the image is only resized, hence
    not cropped to a square. *)
Theorem crop_is_centred_square :
  (forall w h : Q,
     0 < w -> 0 < h ->
     exists x y side,
       cropActions (Some (Num w)) (Some (Num h))
       = [Crop x y side side; Resize 224 224] /\
       (side = w \/ side = h) /\ side <= w /\ side <= h /\
       0 <= x /\ 0 <= y /\
       x + side + x == w /\ y + side + y == h /\
       (x == 0 \/ y == 0)) /\
  (forall sourceWidth sourceHeight : option number,
     truthyNumber sourceWidth = false \/ truthyNumber sourceHeight = false ->
     cropActions sourceWidth sourceHeight = [Resize 224 224]).
Proof.
  split.
  - intros w h Hw Hh.
    exists ((w - minQ w h) / 2), ((h - minQ w h) / 2), (minQ w h).
    split.
    + unfold cropActions. cbn [inputSize].
      rewrite !truthyNumber_nonzero by lra. reflexivity.
    + change ((w - minQ w h) / 2) with ((w - minQ w h) * (1 # 2)).
      change ((h - minQ w h) / 2) with ((h - minQ w h) * (1 # 2)).
      destruct (minQ_cases w h) as [(-> & Hle) | (-> & Hlt)].
      * repeat split;
          first [lra | left; reflexivity | left; lra].
      * repeat split;
          first [lra | right; reflexivity | right; lra].
  - intros sourceWidth sourceHeight H. unfold cropActions. cbn [inputSize].
    destruct H as [-> | ->]; [reflexivity|].
    rewrite andb_false_r. reflexivity.
Qed.

Lemma crop_is_centred_square_example :
  exists x y side,
    cropActions (Some (Num 1080)) (Some (Num 1920))
    = [Crop x y side side; Resize 224 224] /\
    (side = 1080 \/ side = 1920) /\ side <= 1080 /\ side <= 1920 /\
    0 <= x /\ 0 <= y /\
    x + side + x == 1080 /\ y + side + y == 1920 /\
    (x == 0 \/ y == 0).
Proof.
  apply (proj1 crop_is_centred_square 1080 1920); reflexivity.
Defined.

End CenterCrop.

(* ================================================================== *)
(** * Scanning sessions *)
(* ================================================================== *)

Section Sessions.
Import CameraScreenTM FrameSelection SessionVocabulary.

Lemma scan_snoc (s : ScanState) (ticks : list Tick) (t : Tick) :
  scan s (ticks ++ [t]) = scanTick (scan s ticks) t.
Proof. unfold scan. rewrite fold_left_app. reflexivity. Qed.

Lemma lastPicture_snoc (ticks : list Tick) (t : Tick) :
  lastPicture (ticks ++ [t]) =
  match pictureOf t with
  | Some photo => Some photo
  | None => lastPicture ticks
  end.
Proof.
  induction ticks as [|a ticks IH]; cbn [app lastPicture].
  - destruct (pictureOf t); reflexivity.
  - rewrite IH. destruct (pictureOf t); reflexivity.
Qed.

Lemma lastPicture_from (ticks : list Tick) (photo : Photo) :
  lastPicture ticks = Some photo -> pictureFrom ticks photo.
Proof.
  induction ticks as [|t ticks IH]; cbn [lastPicture]; [discriminate|].
  destruct (lastPicture ticks) as [q|].
  - intro H. destruct (IH H) as (t' & Hin & Hpic).
    exists t'. split; [right; exact Hin | exact Hpic].
  - intro H. exists t. split; [left; reflexivity | exact H].
Qed.

Lemma recordedFrom_more (ticks more : list Tick) (p : RecentPrediction) :
  recordedFrom ticks p -> recordedFrom (ticks ++ more) p.
Proof.
  intros (photo & Hin & H). exists photo. split; [|exact H].
  apply in_or_app. left. exact Hin.
Qed.

(** The history of a session holds at most seven entries. *)
Lemma session_recent_bounded (ticks : list Tick) :
  (length (recentPredictions (scan resetOnFocus ticks)) <= 7)%nat.
Proof.
  induction ticks as [|t ticks IH] using rev_ind.
  - simpl. lia.
  - rewrite scan_snoc. apply recent_bounded, IH.
Qed.

(** Every entry of the history records a prediction of the session. *)
Lemma session_recent_recorded (ticks : list Tick) :
  Forall (recordedFrom ticks) (recentPredictions (scan resetOnFocus ticks)).
Proof.
  induction ticks as [|t ticks IH] using rev_ind; [constructor|].
  rewrite scan_snoc.
  assert (Hold : Forall (recordedFrom (ticks ++ [t]))
                   (recentPredictions (scan resetOnFocus ticks))).
  { eapply Forall_impl; [|exact IH].
    intros p. apply recordedFrom_more. }
  destruct t as [|photo|photo label percentage];
    cbn [scanTick recentPredictions]; try exact Hold.
  assert (Hpushed : Forall (recordedFrom
                              (ticks ++ [TickPredicted photo label percentage]))
                      (JsArray.push
                         (recentPredictions (scan resetOnFocus ticks))
                         {| rp_label := label; rp_confidence := percentage;
                            rp_uri := photo_uri photo;
                            rp_width := photo_width photo;
                            rp_height := photo_height photo |})).
  { unfold JsArray.push. apply Forall_app. split; [exact Hold|].
    constructor; [|constructor].
    exists photo. cbn. split; [|auto].
    apply in_or_app. right. left. reflexivity. }
  destruct (Nat.ltb 7 _); [|exact Hpushed].
  unfold JsArray.shift.
  destruct (JsArray.push _ _) as [|x rest]; [constructor|].
  inversion Hpushed; assumption.
Qed.

(** The best frame of a session is the empty one or the frame of one of
    its predictions. *)
Lemma session_best_frame (ticks : list Tick) :
  bestFrame (scan resetOnFocus ticks) = emptyBestFrame \/
  exists photo label confidence,
    In (TickPredicted photo label confidence) ticks /\
    label <> "Not Flower" /\ 0 < confidence /\
    bestFrame (scan resetOnFocus ticks) = stableFrame photo label confidence.
Proof.
  induction ticks as [|t ticks IH] using rev_ind; [left; reflexivity|].
  rewrite scan_snoc.
  assert (Hold : bestFrame (scan resetOnFocus ticks) = emptyBestFrame \/
                 exists photo label confidence,
                   In (TickPredicted photo label confidence) (ticks ++ [t]) /\
                   label <> "Not Flower" /\ 0 < confidence /\
                   bestFrame (scan resetOnFocus ticks)
                   = stableFrame photo label confidence).
  { destruct IH as [IH | (photo & label & c & Hin & H)]; [left; exact IH|].
    right. exists photo, label, c. split; [|exact H].
    apply in_or_app. left. exact Hin. }
  assert (Hpos : 0 <= bf_confidence (bestFrame (scan resetOnFocus ticks))).
  { destruct IH as [-> | (photo & label & c & _ & _ & Hc & ->)];
      cbn [emptyBestFrame stableFrame bf_confidence]; lra. }
  destruct t as [|photo|photo label percentage];
    try (cbn [scanTick bestFrame]; exact Hold).
  rewrite bestFrame_after_tick.
  destruct (isStable _) eqn:Hstable; cbn [andb]; [|exact Hold].
  destruct (Qle_bool percentage _) eqn:E; cbn [negb]; [exact Hold|].
  right. exists photo, label, percentage.
  apply Qle_bool_false in E.
  rewrite isStable_after_tick, !andb_true_iff, negb_true_iff in Hstable.
  destruct Hstable as (_ & Hne). apply String.eqb_neq in Hne.
  repeat split; [|exact Hne|lra].
  apply in_or_app. right. left. reflexivity.
Qed.

(** The last frame of a session is the picture of its last tick that
    stored one. *)
Lemma session_last_frame (ticks : list Tick) :
  lastFrameUri (scan resetOnFocus ticks) =
  match lastPicture ticks with
  | Some photo => storeLastFrame photo
  | None => emptyLastFrame
  end.
Proof.
  induction ticks as [|t ticks IH] using rev_ind; [reflexivity|].
  rewrite scan_snoc, lastPicture_snoc.
  destruct t as [|photo|photo label percentage];
    cbn [scanTick lastFrameUri pictureOf]; [exact IH | reflexivity..].
Qed.

(** X19 -- What a scanning session leaves behind.  After any sequence of
    ticks from the reset state, the history holds at most seven entries,
    each the record of a prediction of the session with the picture it was
    made on; the best frame is either still empty or the frame of a
    prediction of the session whose label is not the reject label and
    whose confidence is positive, with the count 5; and the last frame is
    the picture of the last tick that stored one. *)
Theorem session_records_its_ticks (ticks : list Tick) :
  (length (recentPredictions (scan resetOnFocus ticks)) <= 7)%nat /\
  Forall (recordedFrom ticks) (recentPredictions (scan resetOnFocus ticks)) /\
  (bestFrame (scan resetOnFocus ticks) = emptyBestFrame \/
   exists photo label confidence,
     In (TickPredicted photo label confidence) ticks /\
     label <> "Not Flower" /\ 0 < confidence /\
     bestFrame (scan resetOnFocus ticks)
     = stableFrame photo label confidence) /\
  lastFrameUri (scan resetOnFocus ticks) =
  match lastPicture ticks with
  | Some photo => storeLastFrame photo
  | None => emptyLastFrame
  end.
Proof.
  split; [apply session_recent_bounded|].
  split; [apply session_recent_recorded|].
  split; [apply session_best_frame | apply session_last_frame].
Qed.

Lemma pictureHasUri_from (ticks : list Tick) (photo : Photo) :
  Forall pictureHasUri ticks -> pictureFrom ticks photo ->
  truthy (Some (photo_uri photo)) = true.
Proof.
  intros Hall (t & Hin & Hpic). rewrite Forall_forall in Hall.
  specialize (Hall t Hin). apply truthy_Some.
  destruct t; cbn in *; congruence.
Qed.

Lemma no_picture_no_change (ticks : list Tick) :
  lastPicture ticks = None -> scan resetOnFocus ticks = resetOnFocus.
Proof.
  induction ticks as [|t ticks IH] using rev_ind; [reflexivity|].
  rewrite lastPicture_snoc, scan_snoc.
  destruct t; cbn [pictureOf]; try discriminate.
  intro H. rewrite (IH H). reflexivity.
Qed.

(** X20 -- Capture after a scanning session.  When no tick of the session
    stored a picture, the capture takes a new photo.  When some tick did,
    and the pictures carry non-empty URIs, the capture never takes a new
    photo: it navigates with the URI and the dimensions of one of the
    pictures of the session. *)
Theorem capture_reuses_session_picture (ticks : list Tick) :
  (lastPicture ticks = None ->
   handleCapture false (scan resetOnFocus ticks) = TakeNewPhoto) /\
  (lastPicture ticks <> None ->
   Forall pictureHasUri ticks ->
   exists photo reason,
     pictureFrom ticks photo /\
     handleCapture false (scan resetOnFocus ticks) =
     NavigateWithCachedFrame (photo_uri photo) (photo_width photo)
       (photo_height photo) reason).
Proof.
  split.
  - intro H. rewrite (no_picture_no_change ticks H). reflexivity.
  - intros Hsome Huris.
    pose proof (session_recent_recorded ticks) as Hrec.
    pose proof (session_best_frame ticks) as Hbest.
    pose proof (session_last_frame ticks) as Hlast.
    pose proof (bestRecent_spec (scan resetOnFocus ticks)) as Hrecent.
    set (s := scan resetOnFocus ticks) in *. clearbody s.
    assert (Hfallback :
              exists photo,
                pictureFrom ticks photo /\
                lastFrameUri s = storeLastFrame photo).
    { destruct (lastPicture ticks) as [photo|] eqn:E; [|congruence].
      exists photo. split; [apply lastPicture_from, E | exact Hlast]. }
    unfold handleCapture.
    destruct (truthy (bf_uri (bestFrame s))
              && negb (Qle_bool (bf_confidence (bestFrame s)) 50)) eqn:Eb.
    + destruct Hbest as [Hb | (photo & label & c & Hin & _ & _ & Hb)];
        rewrite Hb in *; [discriminate|].
      assert (Hp : pictureFrom ticks photo).
      { exists (TickPredicted photo label c). split; [exact Hin|reflexivity]. }
      exists photo, (BEST_STABLE (Some label) c). split; [exact Hp|].
      cbn [stableFrame bf_uri bf_width bf_height bf_label bf_confidence].
      rewrite (pictureHasUri_from ticks photo Huris Hp). reflexivity.
    + assert (Hl : exists photo,
                 pictureFrom ticks photo /\
                 (if truthy (lf_uri (lastFrameUri s))
                  then (lf_uri (lastFrameUri s), lf_width (lastFrameUri s),
                        lf_height (lastFrameUri s), Some LAST_FRAME)
                  else (None, 0%Z, 0%Z, None))
                 = (Some (photo_uri photo), photo_width photo,
                    photo_height photo, Some LAST_FRAME)).
      { destruct Hfallback as (photo & Hp & ->). exists photo.
        split; [exact Hp|]. cbn [storeLastFrame lf_uri lf_width lf_height].
        rewrite (pictureHasUri_from ticks photo Huris Hp). reflexivity. }
      destruct (hd_error _) as [p|].
      * destruct (negb (Qle_bool (rp_confidence p) 60)).
        -- destruct Hrecent as ((Hin & _) & _).
           rewrite Forall_forall in Hrec.
           destruct (Hrec p Hin) as (photo & Htick & Hu & Hw & Hh).
           assert (Hp : pictureFrom ticks photo).
           { eexists. split; [exact Htick | reflexivity]. }
           exists photo, (BEST_RECENT (rp_label p) (rp_confidence p)).
           split; [exact Hp|]. rewrite Hu, Hw, Hh.
           rewrite (pictureHasUri_from ticks photo Huris Hp). reflexivity.
        -- destruct Hl as (photo & Hp & ->).
           exists photo, LAST_FRAME. split; [exact Hp|].
           rewrite (pictureHasUri_from ticks photo Huris Hp). reflexivity.
      * destruct Hl as (photo & Hp & ->).
        exists photo, LAST_FRAME. split; [exact Hp|].
        rewrite (pictureHasUri_from ticks photo Huris Hp). reflexivity.
Qed.

Lemma capture_reuses_session_picture_example :
  handleCapture false (scan resetOnFocus [TickSkipped; TickSkipped])
  = TakeNewPhoto /\
  exists photo reason,
    pictureFrom Inputs.unsettledSession photo /\
    handleCapture false (scan resetOnFocus Inputs.unsettledSession) =
    NavigateWithCachedFrame (photo_uri photo) (photo_width photo)
      (photo_height photo) reason.
Proof.
  split.
  - apply (proj1 (capture_reuses_session_picture [TickSkipped; TickSkipped])).
    reflexivity.
  - apply (proj2 (capture_reuses_session_picture Inputs.unsettledSession)).
    + discriminate.
    + repeat constructor; discriminate.
Defined.

End Sessions.

(* ================================================================== *)
(** * The runner-up of a result and the colours drawn *)
(* ================================================================== *)

Section RunnerUp.
Import ModelServiceTM SmoothingVocabulary Distributions.
Import CameraScreenTMDisplay.

Lemma column_nonneg (h : list (list number)) (i : nat) :
  Forall (fun output => 0 <= valueAt output i) h ->
  0 <= Qsum (map (fun output => valueAt output i) h).
Proof.
  induction 1 as [|o h Ho _ IH]; simpl; [lra|].
  fold (Qsum (map (fun output => valueAt output i) h)). lra.
Qed.

Lemma mean_nonneg (h : list (list number)) (i : nat) :
  h <> [] ->
  Forall distribution h -> 0 <= averagedProb h i.
Proof.
  intros Hne Hall.
  assert (Hpos : 0 < inject_Z (Z.of_nat (length h))).
  { apply length_positive. destruct h; [congruence | simpl; lia]. }
  rewrite averagedProb_mean. apply Qle_shift_div_l; [exact Hpos|].
  assert (0 <= Qsum (map (fun output => valueAt output i) h)).
  { apply column_nonneg. eapply Forall_impl; [|exact Hall].
    intros o (_ & H). apply H. }
  lra.
Qed.

Lemma pushHistory_nonempty (h : list (list number)) (o : list number) :
  pushHistory h o <> [].
Proof.
  intro E. apply (f_equal (@length _)) in E. revert E.
  unfold pushHistory, JsArray.push, JsArray.shift.
  destruct (Nat.ltb historySize _) eqn:L.
  - apply Nat.ltb_lt in L. unfold historySize in L.
    destruct (h ++ [o]) as [|x [|y l]]; simpl in *; lia.
  - rewrite length_app. simpl. lia.
Qed.

Lemma pushHistory_Forall (P : list number -> Prop) (h : list (list number))
  (o : list number) :
  Forall P h -> P o -> Forall P (pushHistory h o).
Proof.
  intros Hh Ho.
  assert (Hall : Forall P (JsArray.push h o)).
  { unfold JsArray.push. apply Forall_app. split; [exact Hh|].
    constructor; [exact Ho | constructor]. }
  unfold pushHistory. destruct (Nat.ltb _ _); [|exact Hall].
  unfold JsArray.shift. destruct (JsArray.push h o); [constructor|].
  inversion Hall; assumption.
Qed.

(** Two different labels of the ranking share at most the whole mass. *)
Lemma pair_bound (h : list (list number)) (o : list number)
  (x y : TMPrediction) :
  Forall distribution h -> distribution o ->
  In x (smoothedRanking h o) -> In y (smoothedRanking h o) ->
  label x <> label y ->
  probability x + probability y <= 1.
Proof.
  intros Hh Ho Hx Hy Hne.
  pose proof (pushHistory_Forall distribution h o Hh Ho) as Hall.
  pose proof (pushHistory_nonempty h o) as Hnonempty.
  assert (Hsum : Qsum (averagedProbs (pushHistory h o)) == 1).
  { apply mean_normalised; [exact Hnonempty|].
    eapply Forall_impl; [|exact Hall]. intros a (H & _). exact H. }
  pose proof (fun i => mean_nonneg (pushHistory h o) i Hnonempty Hall)
    as Hpos.
  unfold smoothedRanking in Hx, Hy.
  change byProbabilityDesc with (Ranking.descending probability) in Hx, Hy.
  apply sort_In in Hx. apply sort_In in Hy.
  pose proof (Hpos 0%nat) as H0. pose proof (Hpos 1%nat) as H1.
  pose proof (Hpos 2%nat) as H2. pose proof (Hpos 3%nat) as H3.
  pose proof (Hpos 4%nat) as H4. pose proof (Hpos 5%nat) as H5.
  clear Hpos Hall Hnonempty.
  unfold averagedProbs in *. unfold labelled, JsArray.mapi in Hx, Hy.
  cbn [length TM_LABELS seq map Qsum fold_right JsArray.mapi_from nth]
    in Hsum, Hx, Hy.
  set (a0 := averagedProb (pushHistory h o) 0) in *.
  set (a1 := averagedProb (pushHistory h o) 1) in *.
  set (a2 := averagedProb (pushHistory h o) 2) in *.
  set (a3 := averagedProb (pushHistory h o) 3) in *.
  set (a4 := averagedProb (pushHistory h o) 4) in *.
  set (a5 := averagedProb (pushHistory h o) 5) in *.
  clearbody a0 a1 a2 a3 a4 a5.
  cbn [In] in Hx, Hy.
  destruct Hx as [<-|[<-|[<-|[<-|[<-|[<-|[]]]]]]];
    destruct Hy as [<-|[<-|[<-|[<-|[<-|[<-|[]]]]]]];
    cbn [label probability] in *;
    first [exfalso; apply Hne; reflexivity | lra].
Qed.

Lemma labels_NoDup (uncertain : bool) : NoDup (labelsOf uncertain).
Proof.
  destruct uncertain; cbn;
    repeat (constructor; [cbn; intuition discriminate|]); constructor.
Qed.

Lemma result_labels (h : list (list number)) (o : list number) :
  Permutation
    (map label (predictions (snd (predictWithAllProbabilities h o))))
    (labelsOf (isUncertain (snd (predictWithAllProbabilities h o)))).
Proof.
  rewrite predict_result.
  assert (Hlabels : Permutation (map label (smoothedRanking h o)) TM_LABELS).
  { unfold smoothedRanking.
    rewrite <- (labelled_labels (averagedProbs (pushHistory h o))).
    apply Permutation_map, sort_perm. }
  destruct (negb _); cbn [predictions isUncertain labelsOf];
    [|exact Hlabels].
  eapply perm_trans; [apply Permutation_map, sort_perm|].
  unfold JsArray.push. rewrite map_app.
  apply Permutation_app_tail. exact Hlabels.
Qed.

Lemma round1_at_most_50 (x : Q) : x <= 50 -> round1 x <= 50.
Proof.
  intro H. unfold round1.
  pose proof (round_half_up_mono (x * 10) 500) as Hm.
  assert (Hr : inject_Z (Qround_half_up 500) == 500) by reflexivity.
  set (z := inject_Z (Qround_half_up (x * 10))) in *.
  change (z / 10) with (z * (1 # 10)).
  assert (z <= inject_Z (Qround_half_up 500)) by (apply Hm; lra).
  lra.
Qed.

(** The entries after the first one of a result. *)
Lemma others_at_most_half (h : list (list number)) (o : list number)
  (top e : TMPrediction) (rest : list TMPrediction) :
  Forall distribution h -> distribution o ->
  predictions (snd (predictWithAllProbabilities h o)) = top :: rest ->
  In e rest ->
  probability e <= 1 # 2 /\ percentage e <= 50.
Proof.
  intros Hh Ho Hpred He.
  assert (Hin : In e (predictions (snd (predictWithAllProbabilities h o)))).
  { rewrite Hpred. right. exact He. }
  assert (Hdistinct : label e <> label top).
  { pose proof (result_labels h o) as Hperm.
    pose proof (labels_NoDup
                  (isUncertain (snd (predictWithAllProbabilities h o))))
      as Hnd.
    apply (Permutation_NoDup (Permutation_sym Hperm)) in Hnd.
    rewrite Hpred in Hnd. cbn [map] in Hnd.
    inversion Hnd as [|? ? Hnot _]; subst.
    intro E. apply Hnot. rewrite <- E. apply in_map. exact He. }
  assert (Hhalf : probability e <= 1 # 2).
  { destruct (result_lists_every_label_aux h o) as (_ & Hhd).
    rewrite Hpred in Hhd. cbn [hd_error] in Hhd.
    injection Hhd as Htop.
    revert Hin Htop. rewrite predict_result.
    pose proof (top_in_ranking h o) as Hf.
    destruct (Qle_bool CONFIDENCE_THRESHOLD _) eqn:E;
      cbn [negb predictions topPrediction].
    - intros Hin ->. apply Qle_bool_iff in E.
      unfold CONFIDENCE_THRESHOLD in E.
      pose proof (pair_bound h o _ _ Hh Ho Hin Hf Hdistinct). lra.
    - change byProbabilityDesc with (Ranking.descending probability).
      rewrite sort_In.
      change (Ranking.descending probability) with byProbabilityDesc.
      rewrite top_after_synthesis.
      unfold JsArray.push. rewrite in_app_iff.
      destruct (Qle_bool (probability (notFlowerPrediction _)) _) eqn:E2.
      + apply Qle_bool_iff in E2.
        cbn [notFlowerPrediction probability] in E2.
        intros [Hin | [<- | []]] ->.
        * pose proof (pair_bound h o _ _ Hh Ho Hin Hf Hdistinct). lra.
        * cbn [notFlowerPrediction probability]. lra.
      + apply Qle_bool_false in E2.
        cbn [notFlowerPrediction probability] in E2.
        intros [Hin | [<- | []]] ->.
        * pose proof (top_is_maximal h o e Hin). lra.
        * exfalso. apply Hdistinct. reflexivity. }
  split; [exact Hhalf|].
  rewrite (result_percentage h o e Hin). apply round1_at_most_50. lra.
Qed.

(** X21 -- The runner-up of a result.  When the output tensors of the
    window are probability distributions over the six labels, every
    prediction of the result other than the first one has a probability of
    at most one half, hence a percentage of at most 50; together with the
    bound on the top prediction, a prediction above one half is always the
    first. *)
Theorem runner_up_at_most_half (h : list (list number)) (o : list number) :
  Forall distribution h -> distribution o ->
  forall e,
    In e (tl (predictions (snd (predictWithAllProbabilities h o)))) ->
    probability e <= 1 # 2 /\ percentage e <= 50.
Proof.
  intros Hh Ho e He.
  destruct (predictions (snd (predictWithAllProbabilities h o)))
    as [|top rest] eqn:Hpred; [destruct He|].
  exact (others_at_most_half h o top e rest Hh Ho Hpred He).
Qed.

Lemma tensor_distribution_example : distribution Inputs.top_055.
Proof.
  split; [reflexivity|].
  intro i. do 7 (destruct i as [|i]; [vm_compute; discriminate|]).
  vm_compute; discriminate.
Qed.

Lemma runner_up_at_most_half_example :
  Forall (fun e => probability e <= 1 # 2 /\ percentage e <= 50)
    (tl (predictions
           (snd (predictWithAllProbabilities [] Inputs.top_055)))).
Proof.
  apply Forall_forall.
  apply (runner_up_at_most_half [] Inputs.top_055).
  - constructor.
  - exact tensor_distribution_example.
Defined.





End RunnerUp.

(* ================================================================== *)
(** * The results screen *)
(* ================================================================== *)

Section ResultsScreen.
Import ModelServiceTM GeminiService GeminiAvailability ResultsScreenTM.
Import SmoothingVocabulary.

(** The label of a top prediction is a label of the model or the reject
    label. *)
Lemma top_label (h : list (list number)) (o : list number) :
  In (label (topPrediction (snd (predictWithAllProbabilities h o))))
    (TM_LABELS ++ ["Not Flower"]).
Proof.
  pose proof (result_labels h o) as Hperm.
  destruct (result_lists_every_label_aux h o) as (_ & Hhd).
  assert (Hin : In (label (topPrediction
                             (snd (predictWithAllProbabilities h o))))
                  (map label (predictions
                                (snd (predictWithAllProbabilities h o))))).
  { apply in_map.
    destruct (predictions (snd (predictWithAllProbabilities h o)));
      [discriminate|]. injection Hhd as <-. left. reflexivity. }
  apply (Permutation_in _ Hperm) in Hin.
  destruct (isUncertain _); cbn [labelsOf] in Hin; [exact Hin|].
  apply in_or_app. left. exact Hin.
Qed.

(** X23 -- The local prediction of [runAnalysis].  For every result of
    the classifier, the object built from its top prediction is flagged as
    not a flower exactly when it has no variety, and exactly when its
    gender is unknown; otherwise its variety is one of the three display
    names, its gender is male or female, its raw score is at least one
    half and its confidence at least 50.  The varieties of a formatted
    remote prediction are taken from the same display names. *)
Theorem local_prediction_fields :
  (forall (h : list (list number)) (o : list number),
     (tp_isNotFlower (tmPredOf (snd (predictWithAllProbabilities h o)))
      = true <->
      tp_variety (tmPredOf (snd (predictWithAllProbabilities h o))) = None) /\
     (tp_isNotFlower (tmPredOf (snd (predictWithAllProbabilities h o)))
      = true <->
      tp_gender (tmPredOf (snd (predictWithAllProbabilities h o)))
      = "unknown") /\
     (tp_isNotFlower (tmPredOf (snd (predictWithAllProbabilities h o)))
      = false ->
      (exists v,
         tp_variety (tmPredOf (snd (predictWithAllProbabilities h o)))
         = Some v /\ In v displayNames) /\
      (tp_gender (tmPredOf (snd (predictWithAllProbabilities h o))) = "male"
       \/ tp_gender (tmPredOf (snd (predictWithAllProbabilities h o)))
          = "female")) /\
     1 # 2 <= tp_rawScore (tmPredOf (snd (predictWithAllProbabilities h o)))
     /\
     50 <= tp_confidence (tmPredOf (snd (predictWithAllProbabilities h o))))
  /\
  (forall r : GeminiResult,
     fp_variety (formatPrediction r) = None \/
     exists v, fp_variety (formatPrediction r) = Some v /\ In v displayNames).
Proof.
  split.
  - intros h o. pose proof (top_label h o) as Hl.
    pose proof (top_prediction_bounds h o) as (Hhalf & Hfifty).
    unfold tmPredOf.
    cbn [tp_isNotFlower tp_variety tp_gender tp_rawScore tp_confidence].
    split; [|split; [|split; [|split; [exact Hhalf | exact Hfifty]]]];
      clear Hhalf Hfifty;
      set (l := label (topPrediction
                         (snd (predictWithAllProbabilities h o)))) in *;
      clearbody l; cbn [TM_LABELS app In] in Hl;
      destruct Hl as [<-|[<-|[<-|[<-|[<-|[<-|[<-|[]]]]]]]];
      vm_compute; try (split; intro; congruence);
      try discriminate; intros _;
      (split; [eexists; split; [reflexivity|]; auto 6 | auto]).
  - intro r. unfold formatPrediction. cbn [fp_variety].
    destruct (strict_eq _ (Some "ampalaya_bilog"));
      [right; eexists; split; [reflexivity|]; cbn; auto|].
    destruct (strict_eq _ (Some "patola"));
      [right; eexists; split; [reflexivity|]; cbn; auto|].
    destruct (strict_eq _ (Some "upo_smooth"));
      [right; eexists; split; [reflexivity|]; cbn; auto|].
    left. reflexivity.
Qed.



End ResultsScreen.

(* ================================================================== *)
(** * The parsers of the multi-class classifier *)
(* ================================================================== *)

Section Parsers.
Import ModelService.

Lemma gt_Num (x y : Q) : gt (Num x) (Num y) = true <-> y < x.
Proof. unfold gt. apply lt_Num. Qed.

Lemma gt_NaN_l (y : number) : gt NaN y = false.
Proof. destruct y; reflexivity. Qed.

(** The loop keeps the first of the largest entries above the initial
    maximum. *)
Lemma scanMax_spec (values : list number) :
  forall (i : nat) (m : Q) (k : nat),
  exists m' K,
    scanMax i values (Num m) k = (Num m', K) /\
    (forall j q, nth_error values j = Some (Num q) -> q <= m') /\
    ((K = k /\ m' = m) \/
     (exists j,
        K = (i + j)%nat /\ nth_error values j = Some (Num m') /\ m < m' /\
        forall j' q,
          (j' < j)%nat -> nth_error values j' = Some (Num q) -> q < m')).
Proof.
  induction values as [|prob rest IH]; intros i m k; cbn [scanMax].
  - exists m, k. split; [reflexivity|]. split.
    + intros [|j] q H; discriminate.
    + left. split; reflexivity.
  - destruct prob as [|p].
    + rewrite gt_NaN_l.
      destruct (IH (S i) m k) as (m' & K & E & Hub & Hcase).
      exists m', K. split; [exact E|]. split.
      * intros [|j] q H; [discriminate | exact (Hub j q H)].
      * destruct Hcase as [H | (j & HK & Hj & Hlt & Hfirst)]; [left; exact H|].
        right. exists (S j). split; [lia|]. split; [exact Hj|].
        split; [exact Hlt|].
        intros [|j'] q Hj' H; [discriminate|].
        apply (Hfirst j' q); [lia | exact H].
    + destruct (gt (Num p) (Num m)) eqn:G.
      * apply gt_Num in G.
        destruct (IH (S i) p i) as (m' & K & E & Hub & Hcase).
        exists m', K. split; [exact E|].
        assert (Hp : p <= m').
        { destruct Hcase as [(_ & ->) | (_ & _ & _ & H & _)]; lra. }
        split.
        -- intros [|j] q H; [|exact (Hub j q H)].
           cbn in H. injection H as <-. exact Hp.
        -- right.
           destruct Hcase as [(-> & ->) | (j & HK & Hj & Hlt & Hfirst)].
           ++ exists 0%nat. split; [lia|]. split; [reflexivity|].
              split; [exact G|]. intros j' q Hj'. lia.
           ++ exists (S j). split; [lia|]. split; [exact Hj|].
              split; [lra|].
              intros [|j'] q Hj' H.
              ** cbn in H. injection H as <-. exact Hlt.
              ** apply (Hfirst j' q); [lia | exact H].
      * assert (Hle : p <= m).
        { destruct (Qlt_le_dec m p) as [H | H]; [|exact H].
          apply gt_Num in H. congruence. }
        destruct (IH (S i) m k) as (m' & K & E & Hub & Hcase).
        exists m', K. split; [exact E|].
        assert (Hm : m <= m').
        { destruct Hcase as [(_ & ->) | (_ & _ & _ & H & _)]; lra. }
        split.
        -- intros [|j] q H; [|exact (Hub j q H)].
           cbn in H. injection H as <-. lra.
        -- destruct Hcase as [H | (j & HK & Hj & Hlt & Hfirst)];
             [left; exact H|].
           right. exists (S j). split; [lia|]. split; [exact Hj|].
           split; [exact Hlt|].
           intros [|j'] q Hj' H.
           ++ cbn in H. injection H as <-. lra.
           ++ apply (Hfirst j' q); [lia | exact H].
Qed.

Lemma nth_error_firstn_lt {A : Type} (n j : nat) (l : list A) :
  (j < n)%nat -> nth_error (firstn n l) j = nth_error l j.
Proof.
  revert j l. induction n as [|n IH]; intros j l H; [lia|].
  destruct l as [|x l]; [destruct j; reflexivity|].
  destruct j as [|j]; [reflexivity|]. cbn. apply IH. lia.
Qed.

Lemma nth_error_firstn_Some {A : Type} (n j : nat) (l : list A) (x : A) :
  nth_error (firstn n l) j = Some x ->
  (j < n)%nat /\ nth_error l j = Some x.
Proof.
  revert j l. induction n as [|n IH]; intros j l H.
  - destruct j; discriminate.
  - destruct l as [|y l]; [destruct j; discriminate|].
    destruct j as [|j]; [split; [lia | exact H]|].
    cbn in H. destruct (IH j l H). split; [lia | assumption].
Qed.

(** The flags of a parsed class. *)
Lemma class_flags (j : nat) (c : number) :
  (j < 7)%nat ->
  exists cls info,
    nth_error classes j = Some cls /\ classLabels cls = Some info /\
    orNull (ci_variety info) = ci_variety info /\
    orNull (ci_gender info) = ci_gender info /\
    (ci_isFlower info = negb (strict_eq (Some cls) (Some "not_flower"))) /\
    (ci_variety info = None <-> cls = "not_flower") /\
    (ci_gender info = None <-> cls = "not_flower").
Proof.
  intro H.
  do 7 (destruct j as [|j];
        [eexists; eexists; repeat split; try reflexivity;
         cbn; intro; congruence|]).
  lia.
Qed.

(** X25 -- The class chosen by [parseMultiClassOutput].  The raw score is
    a number: the largest of -1 and the numeric entries among the first
    seven of the tensor.  When no entry exceeds -1 the first class is
    reported with the raw score -1; otherwise the class is the one of the
    first entry that holds the largest value.  The class is always one of
    the seven classes of the model, the prediction is rejected exactly
    when it is not reported as a flower, it is a flower exactly when the
    class is not [not_flower] and the confidence is at least 65, and it
    has no variety, and no gender, exactly when the class is
    [not_flower]. *)
Theorem multi_class_argmax (outputTensor : list number) :
  exists (m : Q) (j : nat) (cls : string),
    cl_rawScore (parseMultiClassOutput outputTensor) = Num m /\
    cl_confidence (parseMultiClassOutput outputTensor) = Num (m * 100) /\
    (forall i q,
       (i < 7)%nat -> nth_error outputTensor i = Some (Num q) -> q <= m) /\
    ((m = -1 /\ j = 0%nat) \/
     ((j < 7)%nat /\ nth_error outputTensor j = Some (Num m) /\ -1 < m /\
      forall i q,
        (i < j)%nat -> nth_error outputTensor i = Some (Num q) -> q < m)) /\
    nth_error classes j = Some cls /\
    cl_predictedClass (parseMultiClassOutput outputTensor) = Some cls /\
    cl_shouldReject (parseMultiClassOutput outputTensor)
    = negb (cl_isFlower (parseMultiClassOutput outputTensor)) /\
    (cl_isFlower (parseMultiClassOutput outputTensor) = true <->
     cls <> "not_flower" /\ 65 <= m * 100) /\
    (cl_variety (parseMultiClassOutput outputTensor) = None <->
     cls = "not_flower") /\
    (cl_gender (parseMultiClassOutput outputTensor) = None <->
     cls = "not_flower").
Proof.
  unfold parseMultiClassOutput.
  destruct (scanMax_spec (firstn (length classes) outputTensor) 0 (-1) 0)
    as (m & K & E & Hub & Hcase).
  rewrite E.
  cbn [cl_rawScore cl_confidence cl_predictedClass cl_shouldReject
       cl_isFlower cl_variety cl_gender].
  assert (HK : (K < 7)%nat).
  { destruct Hcase as [(-> & _) | (j & -> & Hj & _)]; [lia|].
    apply nth_error_firstn_Some in Hj. cbn in Hj. lia. }
  destruct (class_flags K (Num m) HK)
    as (cls & info & Hcls & Hinfo & Hov & Hog & Hfl & Hvar & Hgen).
  exists m, K, cls. rewrite Hcls, Hinfo, Hov, Hog, Hfl.
  split; [reflexivity|]. split; [reflexivity|]. split.
  { intros i q Hi H. apply (Hub i q).
    rewrite nth_error_firstn_lt by exact Hi. exact H. }
  split.
  { destruct Hcase as [(-> & ->) | (j & -> & Hj & Hlt & Hfirst)];
      [left; split; reflexivity|].
    right. cbn [Nat.add].
    destruct (nth_error_firstn_Some _ _ _ _ Hj) as (Hj7 & Hj').
    split; [exact Hj7|]. split; [exact Hj'|]. split; [exact Hlt|].
    intros i q Hi H. apply (Hfirst i q Hi).
    rewrite nth_error_firstn_lt by (cbn; lia). exact H. }
  split; [reflexivity|]. split; [reflexivity|].
  assert (Hlow : lt (Num (m * 100)) (Num (confidenceThreshold * 100)) = true
                 <-> m * 100 < 65).
  { rewrite lt_Num. unfold confidenceThreshold. split; intro; lra. }
  assert (Hnf : strict_eq (Some cls) (Some "not_flower") = true
                <-> cls = "not_flower").
  { cbn [strict_eq]. apply String.eqb_eq. }
  cbn [mul].
  split; [|split; [|split; [exact Hvar | exact Hgen]]].
  - destruct (strict_eq (Some cls) (Some "not_flower"));
      destruct (lt _ _); reflexivity.
  - rewrite andb_true_iff, !negb_true_iff. split.
    + intros (Hc & Hl). split.
      * intro Ec. apply Hnf in Ec. congruence.
      * destruct (Qlt_le_dec (m * 100) 65) as [H | H]; [|exact H].
        apply Hlow in H. congruence.
    + intros (Hc & Hl). split.
      * destruct (strict_eq _ _) eqn:Es; [|reflexivity].
        exfalso. apply Hc, Hnf. reflexivity.
      * destruct (lt _ _) eqn:El; [|reflexivity].
        assert (m * 100 < 65) by (apply Hlow; reflexivity). lra.
Qed.


End Parsers.

(* ================================================================== *)
(** * The stabilised prediction *)
(* ================================================================== *)

Section Stabilisation.
Import ModelService StabilisationVocabulary FirstSeen.

Local Abbreviation count := (count_occ option_string_dec).
Local Abbreviation classOf := cl_predictedClass.

Lemma strict_eq_eq (a b : option string) : strict_eq a b = true <-> a = b.
Proof.
  destruct a as [x|], b as [y|]; cbn; try (split; congruence).
  rewrite String.eqb_eq. split; congruence.
Qed.

Lemma count_snoc (l : list (option string)) (x c : option string) :
  count (l ++ [x]) c =
  if option_string_dec x c then S (count l c) else count l c.
Proof.
  rewrite count_occ_app. cbn.
  destruct (option_string_dec x c); lia.
Qed.

(** One more occurrence of [x] in a table with one entry per class. *)
Lemma bump_map (f : option string -> nat) (x : option string)
  (ks : list (option string)) :
  NoDup ks ->
  bump (map (fun c => (c, f c)) ks) x =
  map (fun c => (c, if option_string_dec x c then S (f c) else f c)) ks
  ++ (if in_dec option_string_dec x ks then [] else [(x, 1%nat)]).
Proof.
  induction 1 as [|k ks Hk Hnd IH]; cbn [map bump app].
  - destruct (in_dec _ x []) as [[]|_]. reflexivity.
  - destruct (strict_eq k x) eqn:E.
    + apply strict_eq_eq in E. subst k.
      destruct (option_string_dec x x) as [_|N]; [|congruence].
      destruct (in_dec option_string_dec x (x :: ks)) as [_|N];
        [|exfalso; apply N; left; reflexivity].
      rewrite app_nil_r. f_equal. apply map_ext_in. intros c Hc.
      destruct (option_string_dec x c) as [->|_]; [contradiction|reflexivity].
    + assert (k <> x) as Hne.
      { intro Ek. apply strict_eq_eq in Ek. congruence. }
      rewrite IH.
      destruct (option_string_dec x k) as [Ek|_]; [congruence|].
      cbn [app]. f_equal. f_equal.
      destruct (in_dec option_string_dec x ks) as [I|N];
        destruct (in_dec option_string_dec x (k :: ks)) as [I'|N'];
        try reflexivity.
      * exfalso. apply N'. right. exact I.
      * exfalso. destruct I' as [Ek | I']; [congruence | contradiction].
Qed.

Lemma firstSeen_snoc (l : list (option string)) (x : option string) :
  firstSeen (l ++ [x]) = note (firstSeen l) x.
Proof. unfold firstSeen. rewrite fold_left_app. reflexivity. Qed.

Lemma firstSeen_In (l : list (option string)) (c : option string) :
  In c (firstSeen l) <-> In c l.
Proof.
  induction l as [|x l IH] using rev_ind; [reflexivity|].
  rewrite firstSeen_snoc, in_app_iff. unfold note.
  destruct (in_dec option_string_dec x (firstSeen l)) as [I|N].
  - rewrite IH. cbn. split; [tauto|].
    intros [H | [<- | []]]; [exact H | apply IH, I].
  - rewrite in_app_iff, IH. reflexivity.
Qed.

Lemma firstSeen_NoDup (l : list (option string)) : NoDup (firstSeen l).
Proof.
  induction l as [|x l IH] using rev_ind; [constructor|].
  rewrite firstSeen_snoc. unfold note.
  destruct (in_dec option_string_dec x (firstSeen l)) as [I|N];
    [exact IH|].
  apply (Permutation_NoDup (Permutation_cons_append (firstSeen l) x)).
  constructor; assumption.
Qed.

(** A class first seen before another one occurs before it. *)
Lemma firstSeen_order (l : list (option string)) :
  forall (pre : list (option string)) (c : option string)
         (post : list (option string)),
  firstSeen l = pre ++ c :: post ->
  exists p q, l = p ++ c :: q /\ forall x, In x p -> In x pre.
Proof.
  induction l as [|x l IH] using rev_ind; intros pre c post H.
  - destruct pre; discriminate.
  - rewrite firstSeen_snoc in H. unfold note in H.
    destruct (in_dec option_string_dec x (firstSeen l)) as [I|N].
    + destruct (IH pre c post H) as (p & q & -> & Hp).
      exists p, (q ++ [x]). split; [|exact Hp].
      rewrite <- app_assoc. reflexivity.
    + destruct post as [|z post _] using rev_ind.
      * apply app_inj_tail in H. destruct H as (Hseen & ->).
        exists l, []. split; [reflexivity|].
        intros y Hy. rewrite <- Hseen. apply firstSeen_In, Hy.
      * change (pre ++ c :: post ++ [z]) with (pre ++ (c :: post) ++ [z])
          in H.
        rewrite app_assoc in H. apply app_inj_tail in H.
        destruct H as (Hseen & _).
        destruct (IH pre c post Hseen) as (p & q & -> & Hp).
        exists p, (q ++ [x]). split; [|exact Hp].
        rewrite <- app_assoc. reflexivity.
Qed.

(** The table of counts: one entry per class, in the order of first
    appearance, with the number of its occurrences. *)
Lemma countClasses_spec (h : list Classification) :
  countClasses h =
  map (fun c => (c, count (map classOf h) c)) (firstSeen (map classOf h)).
Proof.
  induction h as [|p h IH] using rev_ind; [reflexivity|].
  unfold countClasses in *. rewrite fold_left_app. cbn [fold_left].
  rewrite IH, map_app. cbn [map]. rewrite firstSeen_snoc.
  rewrite bump_map by apply firstSeen_NoDup.
  unfold note.
  destruct (in_dec option_string_dec (classOf p)
              (firstSeen (map classOf h))) as [I|N].
  - rewrite app_nil_r. apply map_ext. intro c.
    rewrite count_snoc. reflexivity.
  - rewrite map_app. cbn [map]. f_equal.
    + apply map_ext. intro c. rewrite count_snoc. reflexivity.
    + rewrite count_snoc.
      destruct (option_string_dec (classOf p) (classOf p)) as [_|Ne];
        [|congruence].
      rewrite (proj1 (count_occ_not_In option_string_dec _ _));
        [reflexivity|].
      intro Hin. apply N, firstSeen_In, Hin.
Qed.

(** The loop over the entries keeps the first of the largest counts. *)
Lemma mostCommon_spec (f : option string -> nat)
  (ks : list (option string)) :
  forall (M : nat) (S0 : option (option string)),
  exists M' S',
    fold_left
      (fun '(maxCount, stableClass) '(cls, n) =>
         if Nat.ltb maxCount n then (n, Some cls)
         else (maxCount, stableClass))
      (map (fun c => (c, f c)) ks) (M, S0) = (M', S') /\
    (M <= M')%nat /\
    (forall c, In c ks -> (f c <= M')%nat) /\
    ((M' = M /\ S' = S0) \/
     exists pre c post,
       ks = pre ++ c :: post /\ S' = Some c /\ M' = f c /\ (M < f c)%nat /\
       forall c', In c' pre -> (f c' < f c)%nat).
Proof.
  induction ks as [|k ks IH]; intros M S0; cbn [map fold_left].
  - exists M, S0. repeat split; [lia | intros c [] | left; split; reflexivity].
  - destruct (Nat.ltb M (f k)) eqn:E.
    + apply Nat.ltb_lt in E.
      destruct (IH (f k) (Some k)) as (M' & S' & Hf & Hle & Hub & Hcase).
      exists M', S'. split; [exact Hf|]. split; [lia|]. split.
      * intros c [<- | Hc]; [exact Hle | apply Hub, Hc].
      * right. destruct Hcase as [(-> & ->) | (pre & c & post & -> & -> & -> & Hlt & Hpre)].
        -- exists [], k, ks. repeat split; [exact E | intros c' []].
        -- exists (k :: pre), c, post. repeat split; [lia|].
           intros c' [<- | Hc']; [exact Hlt | apply Hpre, Hc'].
    + apply Nat.ltb_ge in E.
      destruct (IH M S0) as (M' & S' & Hf & Hle & Hub & Hcase).
      exists M', S'. split; [exact Hf|]. split; [exact Hle|]. split.
      * intros c [<- | Hc]; [lia | apply Hub, Hc].
      * destruct Hcase as [H | (pre & c & post & -> & -> & -> & Hlt & Hpre)];
          [left; exact H|].
        right. exists (k :: pre), c, post. repeat split; [exact Hlt|].
        intros c' [<- | Hc']; [lia | apply Hpre, Hc'].
Qed.

(** Searching from the end finds the last entry that passes the test. *)
Lemma find_last {A : Type} (f : A -> bool) (l : list A) :
  (exists x, In x l /\ f x = true) ->
  exists before pred after,
    l = before ++ pred :: after /\ f pred = true /\
    (forall p, In p after -> f p = false) /\
    find f (rev l) = Some pred.
Proof.
  induction l as [|x l IH] using rev_ind; intros (y & Hy & Hf);
    [destruct Hy|].
  rewrite rev_app_distr. cbn [rev app find].
  destruct (f x) eqn:E.
  - exists l, x, []. repeat split; [exact E | intros p []].
  - apply in_app_iff in Hy. destruct Hy as [Hy | [<- | []]];
      [|congruence].
    destruct IH as (before & pred & after & -> & Hp & Hafter & Hfind);
      [exists y; auto|].
    exists before, pred, (after ++ [x]). repeat split.
    + rewrite <- app_assoc. reflexivity.
    + exact Hp.
    + intros p Hin. apply in_app_iff in Hin.
      destruct Hin as [Hin | [<- | []]]; [apply Hafter, Hin | exact E].
    + exact Hfind.
Qed.

(** X27 -- The stabilised prediction.  With fewer than three entries in
    the history the last prediction is returned as it is.  Otherwise the
    result is an entry of the history: the last one of its class, and no
    class occurs more often than its class, whose number of occurrences is
    the stability count; when another class occurs as often, the class of
    the result is the one that appears first in the history. *)
Theorem stabilized_is_most_common (s : History) :
  ((length (predictionHistory s) < 3)%nat ->
   getStabilizedPrediction s = AsIs (lastPrediction s)) /\
  ((3 <= length (predictionHistory s))%nat ->
   exists before pred after,
     predictionHistory s = before ++ pred :: after /\
     (forall p, In p after -> classOf p <> classOf pred) /\
     getStabilizedPrediction s =
     Stable pred (occurrences (predictionHistory s) (classOf pred))
       (length (predictionHistory s)) /\
     (forall p,
        In p (predictionHistory s) ->
        (occurrences (predictionHistory s) (classOf p)
         <= occurrences (predictionHistory s) (classOf pred))%nat) /\
     (forall p,
        In p (predictionHistory s) ->
        classOf p <> classOf pred ->
        occurrences (predictionHistory s) (classOf p)
        = occurrences (predictionHistory s) (classOf pred) ->
        exists front q back,
          predictionHistory s = front ++ q :: back /\
          classOf q = classOf pred /\
          forall x, In x front -> classOf x <> classOf p)).
Proof.
  unfold getStabilizedPrediction. split.
  - intro H. apply Nat.ltb_lt in H. rewrite H. reflexivity.
  - intro H. assert (Hge := H). apply Nat.ltb_ge in Hge. rewrite Hge.
    set (h := predictionHistory s) in *. clearbody h.
    unfold mostCommon. rewrite countClasses_spec.
    unfold occurrences.
    set (l := map classOf h) in *.
    destruct (mostCommon_spec (count l) (firstSeen l) 0 None)
      as (M' & S' & Hfold & _ & Hub & Hcase).
    rewrite Hfold.
    assert (Hseen : forall p, In p h -> In (classOf p) (firstSeen l)).
    { intros p Hp. apply firstSeen_In. unfold l. apply in_map, Hp. }
    assert (Hpos : forall p, In p h -> (0 < count l (classOf p))%nat).
    { intros p Hp. apply count_occ_In. unfold l. apply in_map, Hp. }
    destruct Hcase as [(-> & _) | (pre & c & post & Hks & -> & -> & _ & Hpre)].
    { exfalso. destruct h as [|p h]; [cbn in H; lia|].
      specialize (Hub _ (Hseen p (or_introl eq_refl))).
      specialize (Hpos p (or_introl eq_refl)). lia. }
    assert (Hc : In c l).
    { apply firstSeen_In. rewrite Hks. apply in_or_app. right. left.
      reflexivity. }
    destruct (find_last (fun pred => strict_eq (classOf pred) c) h)
      as (before & pred & after & Hh & Hpred & Hafter & Hfind).
    { unfold l in Hc. apply in_map_iff in Hc.
      destruct Hc as (p & Hp & Hin). exists p. split; [exact Hin|].
      apply strict_eq_eq, Hp. }
    apply strict_eq_eq in Hpred. rewrite Hfind.
    exists before, pred, after. rewrite Hpred.
    split; [exact Hh|]. split; [|split; [reflexivity|split]].
    + intros p Hp E. specialize (Hafter p Hp).
      apply strict_eq_eq in E. congruence.
    + intros p Hp. apply Hub, Hseen, Hp.
    + intros p Hp Hne Heq.
      destruct (firstSeen_order l pre c post Hks) as (pl & ql & Hl & Hpl).
      unfold l in Hl. apply map_eq_app in Hl.
      destruct Hl as (front & rest & Hsplit & Hfront & Hrest).
      apply map_eq_cons in Hrest.
      destruct Hrest as (q & back & -> & Hq & _).
      exists front, q, back. split; [exact Hsplit|]. split; [exact Hq|].
      intros x Hx E.
      assert (In (classOf x) pre) as Hin.
      { apply Hpl. rewrite <- Hfront. apply in_map, Hx. }
      specialize (Hpre _ Hin). rewrite E in Hpre. lia.
Qed.

End Stabilisation.

(** A history of one frame, and a history in which two classes were each
    seen twice. *)
Lemma stabilized_is_most_common_example :
  ModelService.getStabilizedPrediction ClassifierInputs.oneFrame
  = ModelService.AsIs (ModelService.lastPrediction ClassifierInputs.oneFrame)
  /\
  exists before pred after,
    ModelService.predictionHistory ClassifierInputs.fourFrames
    = before ++ pred :: after /\
    (forall p,
       In p after ->
       ModelService.cl_predictedClass p
       <> ModelService.cl_predictedClass pred) /\
    ModelService.getStabilizedPrediction ClassifierInputs.fourFrames =
    ModelService.Stable pred
      (StabilisationVocabulary.occurrences
         (ModelService.predictionHistory ClassifierInputs.fourFrames)
         (ModelService.cl_predictedClass pred))
      (length (ModelService.predictionHistory ClassifierInputs.fourFrames))
    /\
    (forall p,
       In p (ModelService.predictionHistory ClassifierInputs.fourFrames) ->
       (StabilisationVocabulary.occurrences
          (ModelService.predictionHistory ClassifierInputs.fourFrames)
          (ModelService.cl_predictedClass p)
        <= StabilisationVocabulary.occurrences
             (ModelService.predictionHistory ClassifierInputs.fourFrames)
             (ModelService.cl_predictedClass pred))%nat) /\
    (forall p,
       In p (ModelService.predictionHistory ClassifierInputs.fourFrames) ->
       ModelService.cl_predictedClass p
       <> ModelService.cl_predictedClass pred ->
       StabilisationVocabulary.occurrences
         (ModelService.predictionHistory ClassifierInputs.fourFrames)
         (ModelService.cl_predictedClass p)
       = StabilisationVocabulary.occurrences
           (ModelService.predictionHistory ClassifierInputs.fourFrames)
           (ModelService.cl_predictedClass pred) ->
       exists front q back,
         ModelService.predictionHistory ClassifierInputs.fourFrames
         = front ++ q :: back /\
         ModelService.cl_predictedClass q
         = ModelService.cl_predictedClass pred /\
         forall x,
           In x front ->
           ModelService.cl_predictedClass x
           <> ModelService.cl_predictedClass p).
Proof.
  split.
  - apply (proj1 (stabilized_is_most_common ClassifierInputs.oneFrame)).
    vm_compute. lia.
  - apply (proj2 (stabilized_is_most_common ClassifierInputs.fourFrames)).
    vm_compute. lia.
Defined.

(* ================================================================== *)
(** * One vocabulary of classes *)
(* ================================================================== *)

Section SharedVocabulary.
Import ModelService GeminiService RemoteVocabulary ResultsScreenTM.

(** X28 -- One vocabulary of classes.  The classes of [MODEL_CONFIG] are
    the classes of the simulated distribution of the remote service.  A
    remote response that names one of the seven classes is formatted with
    the variety, the gender and the flower flag that [classLabels] gives
    to its class; and the variety and the gender read off each label of
    the Teachable Machine model are those of one class of the table.  So
    the three sources of a prediction spell varieties and genders alike,
    which is what the comparison of [comparePredictions] relies on. *)
Theorem shared_class_vocabulary :
  ModelService.classes = GeminiService.classes /\
  (forall r : GeminiResult,
     namesClass (gr_variety r) (gr_gender r) ->
     In (fp_predictedClass (formatPrediction r)) ModelService.classes /\
     exists info,
       classLabels (fp_predictedClass (formatPrediction r)) = Some info /\
       ci_variety info = fp_variety (formatPrediction r) /\
       ci_gender info = fp_gender (formatPrediction r) /\
       ci_isFlower info = fp_isFlower (formatPrediction r)) /\
  (forall label,
     In label ModelServiceTM.TM_LABELS ->
     exists cls info,
       In cls ModelService.classes /\ classLabels cls = Some info /\
       ci_variety info = getVarietyFromLabel label /\
       ci_gender info = Some (getGenderFromLabel label) /\
       ci_isFlower info = true).
Proof.
  split; [reflexivity|]. split.
  - intros r H. unfold formatPrediction.
    cbn [fp_predictedClass fp_variety fp_gender fp_isFlower].
    destruct H as [-> | ((v & -> & Hv) & Hg)].
    + split; [cbn; tauto|]. eexists. repeat split; reflexivity.
    + unfold varieties in Hv. cbn [In] in Hv.
      destruct Hv as [<-|[<-|[<-|[]]]]; destruct Hg as [-> | ->];
        (split; [cbn; tauto|]); eexists; repeat split; reflexivity.
  - intros label H. cbn [ModelServiceTM.TM_LABELS In] in H.
    destruct H as [<-|[<-|[<-|[<-|[<-|[<-|[]]]]]]].
    + exists "ampalaya_bilog_male". eexists.
      repeat split; [cbn; tauto | reflexivity..].
    + exists "ampalaya_bilog_female". eexists.
      repeat split; [cbn; tauto | reflexivity..].
    + exists "patola_female". eexists.
      repeat split; [cbn; tauto | reflexivity..].
    + exists "patola_male". eexists.
      repeat split; [cbn; tauto | reflexivity..].
    + exists "upo_smooth_female". eexists.
      repeat split; [cbn; tauto | reflexivity..].
    + exists "upo_smooth_male". eexists.
      repeat split; [cbn; tauto | reflexivity..].
Qed.

Lemma shared_class_vocabulary_example :
  In (fp_predictedClass ClassifierInputs.patolaRemote) ModelService.classes /\
  exists info,
    classLabels (fp_predictedClass ClassifierInputs.patolaRemote)
    = Some info /\
    ci_variety info = fp_variety ClassifierInputs.patolaRemote /\
    ci_gender info = fp_gender ClassifierInputs.patolaRemote /\
    ci_isFlower info = fp_isFlower ClassifierInputs.patolaRemote.
Proof.
  apply (proj1 (proj2 shared_class_vocabulary)).
  right. split.
  - exists "patola". split; [reflexivity|]. right. left. reflexivity.
  - left. reflexivity.
Defined.

End SharedVocabulary.

(* ================================================================== *)
(** * The first camera screen *)
(* ================================================================== *)

Section PictureAnalysis.
Import ModelService GeminiService GeminiAvailability CameraScreen.
Import ResultsScreenTM.

Lemma agree_fields (compare : Prediction -> Prediction -> ComparisonResult)
  (l r : Prediction) :
  compare = GeminiServiceLegacy.comparePredictions \/
  compare = GeminiService.comparePredictions ->
  (agree (compare l r) = true ->
   variety l = variety r /\ gender l = gender r /\
   recommendation (compare l r) =
   if ge (rawScore r) (rawScore l) then gemini else tflite).
Proof.
  intros [-> | ->] H;
    unfold GeminiServiceLegacy.comparePredictions,
      GeminiService.comparePredictions in *;
    cbn [agree recommendation] in *; rewrite H;
    apply andb_true_iff in H; destruct H as (Hv & Hg);
    apply strict_eq_eq in Hv; apply strict_eq_eq in Hg; auto.
Qed.

(** X29 -- The outcome of [analyzePicture], with either revision of
    [comparePredictions].  Nothing is analysed while the model is
    loading, and a failure of the classifier ends in an alert with a
    message.  The results screen is reached as validated only when the
    remote prediction agrees with the local one on variety and gender,
    and it then shows the one with the higher raw score, the remote one
    on a tie; it is reached with the local prediction alone when the
    remote service is unavailable or fails.  Whenever the two predictions
    disagree the conflict is put to the user: the recommendation of the
    comparison is never applied on a disagreement. *)
Theorem picture_analysis_outcome
  (compare : Prediction -> Prediction -> ComparisonResult)
  (ready : bool) (predict : Outcome Classification) (key : option string)
  (sdkOk : bool) (service : Service)
  (remote : Outcome FormattedPrediction) :
  compare = GeminiServiceLegacy.comparePredictions \/
  compare = GeminiService.comparePredictions ->
  match snd (analyzePicture compare ready predict key sdkOk service remote)
  with
  | ModelLoadingAlert => ready = false
  | AnalysisFailedAlert message =>
      ready = true /\ message <> EmptyString /\
      exists thrown, predict = Thrown thrown
  | PredictionConflict t g c =>
      ready = true /\ predict = Returned t /\ remote = Returned g /\
      c = compare (tfliteFields t) (remoteFields g) /\ agree c = false
  | Results chosen status t shown compared choice =>
      ready = true /\ predict = Returned t /\ choice = None /\
      ((status = "validated" /\
        exists g,
          remote = Returned g /\ shown = Some g /\
          compared = Some (compare (tfliteFields t) (remoteFields g)) /\
          cl_variety t = fp_variety g /\ cl_gender t = fp_gender g /\
          chosen = if ge (fp_rawScore g) (cl_rawScore t)
                   then ChosenGemini g else ChosenTflite t) \/
       (status = "tflite_only" /\ chosen = ChosenTflite t /\
        shown = None /\ compared = None /\
        (isAvailable
           (fst (analyzePicture compare ready predict key sdkOk service
                   remote)) = false \/
         exists thrown, remote = Thrown thrown)))
  end /\
  (forall t g,
     ready = true -> predict = Returned t -> remote = Returned g ->
     isAvailable
       (fst (analyzePicture compare ready predict key sdkOk service remote))
     = true ->
     agree (compare (tfliteFields t) (remoteFields g)) = false ->
     snd (analyzePicture compare ready predict key sdkOk service remote)
     = PredictionConflict t g (compare (tfliteFields t) (remoteFields g))).
Proof.
  intro Hcompare. unfold analyzePicture. split.
  - destruct ready; cbn [negb]; [|reflexivity].
    destruct predict as [t | thrown].
    + set (service' := if negb (isAvailable service)
                       then initialize key sdkOk service else service).
      destruct (isAvailable service') eqn:Ea.
      * destruct remote as [g | thrown].
        -- destruct (agree (compare (tfliteFields t) (remoteFields g)))
             eqn:Eg; cbn [snd].
           ++ destruct (agree_fields compare _ _ Hcompare Eg)
                as (Hv & Hg & Hrec).
              repeat split. left. split; [reflexivity|].
              exists g. repeat split; try assumption.
              rewrite Hrec.
              cbn [tfliteFields remoteFields rawScore].
              destruct (ge (fp_rawScore g) (cl_rawScore t)); reflexivity.
           ++ repeat split. exact Eg.
        -- cbn [snd fst]. repeat split. right. repeat split.
           right. exists thrown. reflexivity.
      * cbn [snd fst]. repeat split. right. repeat split.
        left. exact Ea.
    + cbn [snd]. split; [reflexivity|]. split; [|eauto].
      destruct thrown; cbn; discriminate.
  - intros t g -> -> ->. cbn [negb fst snd].
    set (service' := if negb (isAvailable service)
                     then initialize key sdkOk service else service).
    destruct (isAvailable service') eqn:Ea.
    + destruct (agree (compare (tfliteFields t) (remoteFields g))) eqn:Eg;
        cbn [fst snd]; intros _ H; [discriminate | reflexivity].
    + cbn [fst]. intro H. congruence.
Qed.

(** A local and a remote prediction that agree on a male patola flower,
    and a remote prediction that disagrees. *)
Lemma picture_analysis_outcome_example :
  snd (analyzePicture GeminiService.comparePredictions true
         (Returned (parseMultiClassOutput ClassifierInputs.patolaMale))
         (Some "key") true (construct true)
         (Returned AnalysisInputs.ampalayaRemote))
  = PredictionConflict (parseMultiClassOutput ClassifierInputs.patolaMale)
      AnalysisInputs.ampalayaRemote
      (GeminiService.comparePredictions
         (tfliteFields (parseMultiClassOutput ClassifierInputs.patolaMale))
         (remoteFields AnalysisInputs.ampalayaRemote)).
Proof.
  apply (proj2 (picture_analysis_outcome GeminiService.comparePredictions
                  true
                  (Returned (parseMultiClassOutput
                               ClassifierInputs.patolaMale))
                  (Some "key") true (construct true)
                  (Returned AnalysisInputs.ampalayaRemote)
                  (or_intror eq_refl))); reflexivity.
Defined.

End PictureAnalysis.

(* ================================================================== *)
(** * Ties between labels *)
(* ================================================================== *)

Section Ties.
Import ModelServiceTM SmoothingVocabulary.

(** The first of the largest elements splits the list: strictly smaller
    elements before it, none larger after it. *)
Lemma leftmostMax_split {A : Type} (key : A -> Q) (l : list A) (m : A) :
  Ranking.leftmostMax key l = Some m ->
  exists pre post,
    l = pre ++ m :: post /\
    (forall x, In x pre -> key x < key m) /\
    (forall x, In x post -> key x <= key m).
Proof.
  revert m. induction l as [|a l IH]; intros m H; [discriminate|].
  cbn [Ranking.leftmostMax] in H.
  destruct (Ranking.leftmostMax key l) as [y|] eqn:E.
  - destruct (IH y eq_refl) as (pre & post & -> & Hpre & Hpost).
    destruct (Qle_bool (key y) (key a)) eqn:Ea; injection H as <-.
    + apply Qle_bool_iff in Ea. exists [], (pre ++ y :: post).
      split; [reflexivity|]. split; [intros x []|].
      intros x Hx. apply in_app_iff in Hx.
      destruct Hx as [Hx | [<- | Hx]].
      * specialize (Hpre x Hx). lra.
      * exact Ea.
      * specialize (Hpost x Hx). lra.
    + apply Qle_bool_false in Ea. exists (a :: pre), post.
      split; [reflexivity|]. split; [|exact Hpost].
      intros x [<- | Hx]; [exact Ea | apply Hpre, Hx].
  - injection H as <-. destruct l as [|b l].
    + exists [], []. split; [reflexivity|]. split; intros x [].
    + cbn [Ranking.leftmostMax] in E.
      destruct (Ranking.leftmostMax key l);
        [destruct (Qle_bool _ _)|]; discriminate.
Qed.

(** X30 -- Ties between labels.  The sort of the predictions is stable,
    so the top label is the first label, in the order of the labels of the
    model, among those with the largest probability: every label before
    it has a strictly smaller probability and no label after it has a
    larger one.  This holds for the ranking of the smoothing classifier
    before the reject entry is added, and for the classifier without
    smoothing, whose result lists its seven labels in descending order and
    whose top prediction is never discarded, however small its
    probability. *)
Theorem ties_follow_label_order :
  (forall (h : list (list number)) (o : list number),
     exists pre post,
       labelled (averagedProbs (pushHistory h o))
       = pre ++ first (smoothedRanking h o) :: post /\
       (forall x, In x pre ->
          probability x < probability (first (smoothedRanking h o))) /\
       (forall x, In x post ->
          probability x <= probability (first (smoothedRanking h o)))) /\
  (forall probabilities : list number,
     (exists pre post,
        ModelServiceTMFloat.labelled probabilities
        = pre
          ++ ModelServiceTMFloat.topPrediction
               (ModelServiceTMFloat.predictWithAllProbabilities probabilities)
          :: post /\
        (forall x, In x pre ->
           probability x
           < probability
               (ModelServiceTMFloat.topPrediction
                  (ModelServiceTMFloat.predictWithAllProbabilities
                     probabilities))) /\
        (forall x, In x post ->
           probability x
           <= probability
                (ModelServiceTMFloat.topPrediction
                   (ModelServiceTMFloat.predictWithAllProbabilities
                      probabilities)))) /\
     Permutation
       (map label
          (ModelServiceTMFloat.predictions
             (ModelServiceTMFloat.predictWithAllProbabilities probabilities)))
       ModelServiceTMFloat.TM_LABELS /\
     StronglySorted descendingProbability
       (ModelServiceTMFloat.predictions
          (ModelServiceTMFloat.predictWithAllProbabilities probabilities))).
Proof.
  split.
  - intros h o. apply (leftmostMax_split probability).
    pose proof (smoothedRanking_top h o) as Htop.
    unfold smoothedRanking in *.
    change byProbabilityDesc with (Ranking.descending probability) in *.
    rewrite hd_sort in Htop. exact Htop.
  - intro probabilities.
    unfold ModelServiceTMFloat.predictWithAllProbabilities.
    cbn [ModelServiceTMFloat.topPrediction ModelServiceTMFloat.predictions].
    change byProbabilityDesc with (Ranking.descending probability).
    split; [|split].
    + apply (leftmostMax_split probability).
      rewrite <- hd_sort.
      pose proof (sort_length probability
                    (ModelServiceTMFloat.labelled probabilities)) as Hlen.
      destruct (JsArray.sort _ _) as [|x l]; [discriminate | reflexivity].
    + eapply perm_trans; [apply Permutation_map, sort_perm|].
      apply Permutation_refl.
    + apply (sort_sorted probability).
Qed.

End Ties.

(* ================================================================== *)
(** * The failures of a call of [analyzeFlower] *)
(* ================================================================== *)

Section CallOutcomes.
Import GeminiService GeminiAvailability ResponseParsing GeminiCall.

Variable JSON_parse : string -> option RawResult.
Variable parseFloat : string -> number.
Variable ToNumber : JsValue -> number.
Variable typeErrorMessage : string.

Lemma strictFails_cases (text : string) :
  strictFails JSON_parse text \/
  exists json raw, jsonMatch_re text = Some json /\ JSON_parse json = Some raw.
Proof.
  unfold strictFails.
  destruct (jsonMatch_re text) as [json|]; [|left; left; reflexivity].
  destruct (JSON_parse json) as [raw|] eqn:E.
  - right. eauto.
  - left. right. eauto.
Qed.

Lemma parseRaw_parsed (text json : string) (raw : RawResult) :
  jsonMatch_re text = Some json -> JSON_parse json = Some raw ->
  parseRaw JSON_parse parseFloat text = Returned raw.
Proof. intros Hm Hp. unfold parseRaw. rewrite Hm, Hp. reflexivity. Qed.

(** When strict parsing fails the three patterns decide, and what they
    extract is a typed object with a non-empty variety and gender. *)
Lemma parseRaw_fallback (text : string) :
  strictFails JSON_parse text ->
  (extractionFails text /\
   parseRaw JSON_parse parseFloat text =
   Thrown "Invalid response format from Gemini") \/
  (exists v g c reasoning,
     truthy (Some v) = true /\ truthy (Some g) = true /\
     parseRaw JSON_parse parseFloat text =
     Returned (rawOf (salvaged v g c reasoning)) /\
     extracted parseFloat text reasoning = Some (salvaged v g c reasoning)).
Proof.
  intro Hfail. unfold parseRaw, extractedRaw, extracted, extractionFails.
  destruct (varietyMatch_re text) as [v|] eqn:Ev.
  2: { left. split; [auto|].
       destruct Hfail as [-> | (json & -> & ->)]; reflexivity. }
  destruct (genderMatch_re text) as [g|] eqn:Eg.
  2: { left. split; [auto|].
       destruct Hfail as [-> | (json & -> & ->)]; reflexivity. }
  destruct (confidenceMatch_re text) as [c|] eqn:Ec.
  2: { left. split; [auto|].
       destruct Hfail as [-> | (json & -> & ->)]; reflexivity. }
  right.
  pose proof (quotedField_truthy _ _ _ Ev) as Hv.
  pose proof (quotedField_truthy _ _ _ Eg) as Hg.
  destruct Hfail as [-> | (json & -> & ->)]; cbn [option_map].
  - exists v, g, (parseFloat c),
      (match reasoningMatch_re text with
       | Some r => r
       | None => "Analysis completed"
       end).
    repeat split; assumption || reflexivity.
  - exists v, g, (parseFloat c), "Analysis completed (partial response)".
    repeat split; assumption || reflexivity.
Qed.

Lemma typed_rawOf (r : GeminiResult) : typed (rawOf r) = Some r.
Proof.
  destruct r as [[v|] [g|] [c|] reasoning features]; reflexivity.
Qed.

(** An object that the patterns extracted is complete and is formatted
    without an error. *)
Lemma salvaged_is_formatted (v g : string) (c : number) (reasoning : string) :
  truthy (Some v) = true -> truthy (Some g) = true ->
  incomplete (rawOf (salvaged v g c reasoning)) = false /\
  formatRaw ToNumber typeErrorMessage (rawOf (salvaged v g c reasoning)) =
  Returned (CallReturned (formatPrediction (salvaged v g c reasoning))).
Proof.
  intros Hv Hg. unfold incomplete, formatRaw.
  rewrite typed_rawOf.
  cbn [rawOf salvaged gr_variety gr_gender gr_confidence rawString
       raw_variety raw_gender raw_confidence truthyValue isString negb].
  rewrite Hv, Hg, andb_false_r. split; reflexivity.
Qed.

Lemma rawOf_typed (raw : RawResult) (r : GeminiResult) :
  typed raw = Some r -> raw = rawOf r.
Proof.
  destruct raw as [v g c reasoning features]. unfold typed.
  cbn [raw_variety raw_gender raw_confidence raw_reasoning raw_keyFeatures].
  destruct v; try discriminate; destruct g; try discriminate;
    destruct c; try discriminate; cbn [stringField];
    intro H; injection H as <-; reflexivity.
Qed.

(** On typed objects the call tests and formats as the function of the
    response text does. *)
Lemma format_typed (r : GeminiResult) :
  incomplete (rawOf r) =
  (negb (truthy (gr_variety r)) || negb (truthy (gr_gender r))
   || match gr_confidence r with None => true | Some _ => false end) /\
  (incomplete (rawOf r) = false ->
   formatRaw ToNumber typeErrorMessage (rawOf r) =
   Returned (CallReturned (formatPrediction r))).
Proof.
  unfold incomplete, formatRaw. rewrite typed_rawOf.
  destruct r as [[v|] [g|] [c|] reasoning features];
    cbn [rawOf gr_variety gr_gender gr_confidence rawString raw_variety
         raw_gender raw_confidence truthyValue isString negb];
    rewrite ?andb_false_r, ?orb_true_r; cbn [truthy negb orb];
    split; try reflexivity; try discriminate.
Qed.

Lemma parseRaw_typed (text : string) :
  (forall json raw, JSON_parse json = Some raw -> typed raw <> None) ->
  parseRaw JSON_parse parseFloat text =
  match parseResponse (typedParser JSON_parse) parseFloat text with
  | Returned r => Returned (rawOf r)
  | Thrown message => Thrown message
  end.
Proof.
  intro Htyped.
  unfold parseRaw, parseResponse, strictOrPartial, typedParser, extractedRaw.
  destruct (jsonMatch_re text) as [json|].
  - destruct (JSON_parse json) as [raw|] eqn:Hp.
    + destruct (typed raw) as [r|] eqn:Et;
        [|exfalso; exact (Htyped json raw Hp Et)].
      rewrite (rawOf_typed raw r Et). reflexivity.
    + destruct (extracted parseFloat text _); reflexivity.
  - destruct (extracted parseFloat text _) as [r|]; [reflexivity|].
    destruct (extracted parseFloat text _); reflexivity.
Qed.

(** X8 -- The failures of a call of [analyzeFlower].  The call throws in
    six cases only, each time with a message that begins with the prefix
    of the function: the service is not available after [initialize]; the
    image cannot be read; the remote call fails; strict parsing fails and
    the patterns miss a field; the parsed object lacks the variety, the
    gender or the confidence (it is never completed from the patterns);
    or the parsed object carries a gender that is not a string while it
    is neither the reject class nor uncertain, so that the capital of the
    gender cannot be taken.  When the service is available, the image is
    read and the response received, and every object [JSON.parse] returns
    has fields of the types the prompt asks for, the call ends as the
    function of the response text alone does. *)
Theorem call_failures (key : option string) (sdkOk : bool)
  (service : Service) (readFile generate : Outcome string) :
  (forall message,
     snd (analyzeFlower JSON_parse parseFloat ToNumber typeErrorMessage
            key sdkOk service readFile generate) = CallThrown message ->
     (isAvailable
        (fst (analyzeFlower JSON_parse parseFloat ToNumber typeErrorMessage
                key sdkOk service readFile generate)) = false /\
      message = "Gemini analysis failed: Gemini service not available") \/
     (exists thrown,
        readFile = Thrown thrown /\
        message = ("Gemini analysis failed: " ++ thrown)%string) \/
     (exists thrown,
        generate = Thrown thrown /\
        message = ("Gemini analysis failed: " ++ thrown)%string) \/
     (exists text,
        generate = Returned text /\
        ((message
          = "Gemini analysis failed: Invalid response format from Gemini" /\
          strictFails JSON_parse text /\ extractionFails text) \/
         (exists json raw,
            jsonMatch_re text = Some json /\ JSON_parse json = Some raw /\
            ((message
              = "Gemini analysis failed: Incomplete response from Gemini" /\
              (truthyValue (raw_variety raw) = false \/
               truthyValue (raw_gender raw) = false \/
               raw_confidence raw = VUndefined)) \/
             (message
              = ("Gemini analysis failed: " ++ typeErrorMessage)%string /\
              incomplete raw = false /\
              isString (raw_gender raw) = false /\
              capitalisesGender ToNumber raw = true)))))) /\
  (forall base64Image text,
     isAvailable
       (fst (analyzeFlower JSON_parse parseFloat ToNumber typeErrorMessage
               key sdkOk service readFile generate)) = true ->
     readFile = Returned base64Image ->
     generate = Returned text ->
     (forall json raw, JSON_parse json = Some raw -> typed raw <> None) ->
     snd (analyzeFlower JSON_parse parseFloat ToNumber typeErrorMessage
            key sdkOk service readFile generate)
     = ofText (GeminiService.analyzeFlower (typedParser JSON_parse)
                 parseFloat text)).
Proof.
  unfold analyzeFlower. cbn [fst snd].
  set (service' := if negb (isInitialized service)
                   then initialize key sdkOk service else service).
  split.
  - intros message.
    destruct (isAvailable service') eqn:Ea; cbn [negb].
    2: { intro H. injection H as <-. left. split; reflexivity. }
    destruct readFile as [base64Image | thrown].
    2: { intro H. injection H as <-. right. left. eauto. }
    destruct generate as [text | thrown].
    2: { intro H. injection H as <-. right. right. left. eauto. }
    intro H. right. right. right. exists text. split; [reflexivity|].
    destruct (strictFails_cases text) as [Hfail | (json & raw & Hm & Hp)].
    + left.
      destruct (parseRaw_fallback text Hfail)
        as [(Hx & E) | (v & g & c & reasoning & Hv & Hg & E & _)];
        rewrite E in H.
      * injection H as <-. auto.
      * destruct (salvaged_is_formatted v g c reasoning Hv Hg) as (Hi & Hf).
        rewrite Hi, Hf in H. discriminate.
    + right. exists json, raw. split; [exact Hm|]. split; [exact Hp|].
      rewrite (parseRaw_parsed text json raw Hm Hp) in H.
      destruct (incomplete raw) eqn:Ei.
      * left. injection H as <-. split; [reflexivity|].
        unfold incomplete in Ei.
        destruct (truthyValue (raw_variety raw)); [|auto].
        destruct (truthyValue (raw_gender raw)); [|auto].
        destruct (raw_confidence raw); try discriminate. auto.
      * right. unfold formatRaw in H.
        destruct (capitalisesGender ToNumber raw) eqn:Ec;
          destruct (isString (raw_gender raw)) eqn:Eg; cbn [negb andb] in H;
          try (destruct (typed raw); discriminate).
        injection H as <-. auto.
  - intros base64Image text Ea -> -> Htyped. rewrite Ea. cbn [negb].
    rewrite (parseRaw_typed text Htyped).
    unfold GeminiService.analyzeFlower.
    destruct (parseResponse (typedParser JSON_parse) parseFloat text)
      as [r | thrown]; [|reflexivity].
    destruct (format_typed r) as (Hi & Hf). rewrite <- Hi.
    destruct (incomplete (rawOf r)); [reflexivity|].
    rewrite (Hf eq_refl). reflexivity.
Qed.

End CallOutcomes.

(** A disabled service, and a response whose gender is a number. *)
Lemma call_failures_example :
  snd (GeminiCall.analyzeFlower (fun _ => None) Inputs.parseDecimal
         (fun _ => NaN) "gender.charAt is not a function" (Some "key") true
         (GeminiAvailability.construct false)
         (GeminiService.Returned "image")
         (GeminiService.Returned Inputs.proseResponse))
  = GeminiCall.CallThrown
      "Gemini analysis failed: Gemini service not available" /\
  snd (GeminiCall.analyzeFlower (fun _ => Some GeminiCall.numericGender)
         Inputs.parseDecimal (fun _ => NaN)
         "gender.charAt is not a function" (Some "key") true
         GeminiCall.ready (GeminiService.Returned "image")
         (GeminiService.Returned RevisionInputs.completeResponse))
  = GeminiCall.CallThrown
      "Gemini analysis failed: gender.charAt is not a function" /\
  snd (GeminiCall.analyzeFlower (fun _ => None) Inputs.parseDecimal
         (fun _ => NaN) "gender.charAt is not a function" (Some "key") true
         GeminiCall.ready (GeminiService.Returned "image")
         (GeminiService.Returned Inputs.truncatedResponse))
  = GeminiCall.ofText
      (GeminiService.analyzeFlower
         (GeminiCall.typedParser (fun _ => None)) Inputs.parseDecimal
         Inputs.truncatedResponse).
Proof.
  split; [reflexivity|]. split; [reflexivity|].
  apply (proj2 (call_failures (fun _ => None) Inputs.parseDecimal
                  (fun _ => NaN) "gender.charAt is not a function"
                  (Some "key") true GeminiCall.ready
                  (GeminiService.Returned "image")
                  (GeminiService.Returned Inputs.truncatedResponse))
           "image" Inputs.truncatedResponse);
    [reflexivity | reflexivity | reflexivity | discriminate].
Defined.

(* ================================================================== *)
(** * The rounding of binary64 *)
(* ================================================================== *)

Section Binary64Facts.
Import Binary64.

Lemma pow2_pos (k : Z) : 0 < pow2 k.
Proof. apply Qpower_0_lt. reflexivity. Qed.

Lemma pow2_add (a b : Z) : pow2 (a + b) == pow2 a * pow2 b.
Proof. apply Qpower_plus. discriminate. Qed.

Lemma pow2_le (a b : Z) : (a <= b)%Z -> pow2 a <= pow2 b.
Proof. intro H. apply Qpower_le_compat_l; [exact H | discriminate]. Qed.

Lemma pow2_lt_inv (a b : Z) : pow2 a < pow2 b -> (a < b)%Z.
Proof. intro H. apply (Qpower_lt_compat_l_inv 2); [exact H | reflexivity]. Qed.

Lemma pow2_Z (k : Z) : (0 <= k)%Z -> pow2 k == inject_Z (2 ^ k).
Proof. intro H. unfold pow2. rewrite Zpower_Qpower by exact H. reflexivity. Qed.

(** The integer logarithm brackets a positive integer between two powers
    of two. *)
Lemma log2_bracket (n : Z) :
  (0 < n)%Z ->
  pow2 (Z.log2 n) <= inject_Z n /\ inject_Z n < pow2 (Z.log2 n + 1).
Proof.
  intro Hn. destruct (Z.log2_spec n Hn) as (Hlo & Hhi).
  pose proof (Z.log2_nonneg n) as H0.
  rewrite !pow2_Z by lia. split.
  - rewrite <- Zle_Qle. exact Hlo.
  - rewrite <- Zlt_Qlt. replace (Z.log2 n + 1)%Z with (Z.succ (Z.log2 n)) by lia.
    exact Hhi.
Qed.

Lemma exponent_spec (x : Q) :
  0 < x -> pow2 (exponent x) <= x /\ x < pow2 (exponent x + 1).
Proof.
  intro Hx. unfold exponent.
  set (a := Z.log2 (Qnum x)). set (b := Z.log2 (Z.pos (Qden x))).
  assert (Hn : (0 < Qnum x)%Z).
  { destruct x as [n d]. unfold Qlt in Hx. simpl in *. lia. }
  destruct (log2_bracket (Qnum x) Hn) as (Hna & Hnb). fold a in Hna, Hnb.
  destruct (log2_bracket (Z.pos (Qden x)) eq_refl) as (Hda & Hdb).
  fold b in Hda, Hdb.
  assert (Hxd : x * inject_Z (Z.pos (Qden x)) == inject_Z (Qnum x)).
  { destruct x as [n d]. unfold Qeq, Qmult, inject_Z. simpl. lia. }
  set (n := inject_Z (Qnum x)) in *. set (d := inject_Z (Z.pos (Qden x))) in *.
  pose proof (pow2_pos b) as Hb. pose proof (pow2_pos (a - b)) as Hab.
  assert (Hupper : x < pow2 (a - b + 1)).
  { assert (E : pow2 (a + 1) == pow2 (a - b + 1) * pow2 b).
    { rewrite <- pow2_add. replace (a - b + 1 + b)%Z with (a + 1)%Z by lia.
      reflexivity. }
    assert (x * pow2 b <= x * d).
    { apply Qmult_le_l; [exact Hx | exact Hda]. }
    apply (Qmult_lt_r _ _ (pow2 b)); [exact Hb|]. lra. }
  assert (Hlower : pow2 (a - b - 1) < x).
  { assert (E : pow2 a == pow2 (a - b - 1) * pow2 (b + 1)).
    { rewrite <- pow2_add. replace (a - b - 1 + (b + 1))%Z with a by lia.
      reflexivity. }
    assert (x * d < x * pow2 (b + 1)).
    { apply Qmult_lt_l; [exact Hx | exact Hdb]. }
    apply (Qmult_lt_r _ _ (pow2 (b + 1))); [apply pow2_pos|]. lra. }
  destruct (Qle_bool (pow2 (a - b)) x) eqn:E.
  - apply Qle_bool_iff in E. split; assumption.
  - assert (~ pow2 (a - b) <= x) as Hnot.
    { intro H. apply Qle_bool_iff in H. congruence. }
    replace (a - b - 1 + 1)%Z with (a - b)%Z by lia.
    split; [apply Qlt_le_weak; exact Hlower | lra].
Qed.

Lemma exponent_mono (x y : Q) :
  0 < x -> x <= y -> (exponent x <= exponent y)%Z.
Proof.
  intros Hx Hxy.
  destruct (exponent_spec x Hx) as (Hlo & _).
  destruct (exponent_spec y) as (_ & Hhi); [lra|].
  assert (pow2 (exponent x) < pow2 (exponent y + 1)) as H by lra.
  apply pow2_lt_inv in H. lia.
Qed.

Lemma nearestEven_cases (q : Q) :
  (nearestEven q = Qfloor q /\ q - inject_Z (Qfloor q) <= 1 # 2) \/
  (nearestEven q = (Qfloor q + 1)%Z /\ 1 # 2 <= q - inject_Z (Qfloor q)).
Proof.
  unfold nearestEven.
  destruct (Qcompare_spec (q - inject_Z (Qfloor q)) (1 # 2)) as [E | E | E].
  - destruct (Z.even (Qfloor q)); [left | right]; split; try reflexivity; lra.
  - left. split; [reflexivity | lra].
  - right. split; [reflexivity | lra].
Qed.

Lemma nearestEven_error (q : Q) :
  q - (1 # 2) <= inject_Z (nearestEven q) /\
  inject_Z (nearestEven q) <= q + (1 # 2).
Proof.
  pose proof (Qfloor_le q) as Hlo. pose proof (Qlt_floor q) as Hhi.
  rewrite inject_Z_plus in Hhi. change (inject_Z 1) with 1 in Hhi.
  destruct (nearestEven_cases q) as [(-> & H) | (-> & H)].
  - split; lra.
  - rewrite inject_Z_plus. change (inject_Z 1) with 1. split; lra.
Qed.

Lemma nearestEven_mono (p q : Q) :
  p <= q -> (nearestEven p <= nearestEven q)%Z.
Proof.
  intro Hpq. pose proof (Qfloor_resp_le _ _ Hpq) as Hf.
  destruct (Z.eq_dec (Qfloor p) (Qfloor q)) as [E | Hne].
  - unfold nearestEven. rewrite E.
    destruct (Qcompare_spec (p - inject_Z (Qfloor q)) (1 # 2)) as [Hp | Hp | Hp];
      destruct (Qcompare_spec (q - inject_Z (Qfloor q)) (1 # 2)) as [Hq | Hq | Hq];
      try destruct (Z.even (Qfloor q)); try lia; try lra.
  - destruct (nearestEven_cases p) as [(-> & _) | (-> & _)];
      destruct (nearestEven_cases q) as [(-> & _) | (-> & _)]; lia.
Qed.

Lemma nearestEven_Z (q : Q) (k : Z) : q == inject_Z k -> nearestEven q = k.
Proof.
  intro E.
  assert (H : nearestEven (inject_Z k) = k).
  { unfold nearestEven. rewrite Qfloor_Z.
    destruct (Qcompare_spec (inject_Z k - inject_Z k) (1 # 2)) as [Ek | Ek | Ek];
      try reflexivity; lra. }
  pose proof (nearestEven_mono q (inject_Z k)) as H1.
  pose proof (nearestEven_mono (inject_Z k) q) as H2.
  rewrite H in H1, H2. 
  assert (q <= inject_Z k) by lra. assert (inject_Z k <= q) by lra.
  specialize (H1 ltac:(assumption)). specialize (H2 ltac:(assumption)). lia.
Qed.


Lemma scaled_back (x : Q) (e : Z) :
  x * pow2 (precision - 1 - e) * pow2 (e - (precision - 1)) == x.
Proof.
  rewrite <- Qmult_assoc, <- pow2_add.
  replace (precision - 1 - e + (e - (precision - 1)))%Z with 0%Z by lia.
  change (pow2 0) with 1. lra.
Qed.

Lemma half_ulp (e : Z) :
  (1 # 2) * pow2 (e - (precision - 1)) == u * pow2 e.
Proof.
  unfold u. rewrite <- pow2_add.
  replace (e - (precision - 1))%Z with (- precision + e + 1)%Z by lia.
  rewrite pow2_add. change (pow2 1) with 2. lra.
Qed.

Lemma u_pos : 0 < u.
Proof. apply pow2_pos. Qed.

Lemma eta_pos : 0 < eta.
Proof. apply pow2_pos. Qed.

Lemma roundPositive_error (x : Q) :
  0 < x ->
  x - (u * x + eta) <= roundPositive x /\
  roundPositive x <= x + (u * x + eta).
Proof.
  intro Hx. unfold roundPositive.
  set (e := Z.max (exponent x) emin).
  destruct (nearestEven_error (x * pow2 (precision - 1 - e))) as (Hlo & Hhi).
  set (m := inject_Z (nearestEven (x * pow2 (precision - 1 - e)))) in *.
  pose proof (scaled_back x e) as Hback.
  pose proof (half_ulp e) as Hhalf.
  pose proof (pow2_pos (e - (precision - 1))) as Hs.
  set (s := pow2 (e - (precision - 1))) in *.
  set (t := x * pow2 (precision - 1 - e)) in *.
  assert (H1 : (t - (1 # 2)) * s <= m * s).
  { apply Qmult_le_compat_r; lra. }
  assert (H2 : m * s <= (t + (1 # 2)) * s).
  { apply Qmult_le_compat_r; lra. }
  assert (Hbound : u * pow2 e <= u * x + eta).
  { pose proof u_pos as Hu. pose proof eta_pos as Heta.
    destruct (Z.max_spec (exponent x) emin) as [(_ & E) | (_ & E)];
      fold e in E.
    - rewrite E. unfold u, eta. rewrite <- pow2_add.
      assert (0 < pow2 (- precision) * x).
      { apply Qmult_lt_0_compat; [apply pow2_pos | exact Hx]. }
      replace (- precision + emin)%Z with (emin - precision)%Z by lia. lra.
    - rewrite E. destruct (exponent_spec x Hx) as (Hle & _).
      assert (u * pow2 (exponent x) <= u * x).
      { apply Qmult_le_l; [exact Hu | exact Hle]. }
      lra. }
  split; lra.
Qed.

Lemma roundPositive_nonneg (x : Q) : 0 < x -> 0 <= roundPositive x.
Proof.
  intro Hx. unfold roundPositive.
  set (e := Z.max (exponent x) emin).
  apply Qmult_le_0_compat; [|apply Qlt_le_weak, pow2_pos].
  change 0 with (inject_Z 0). rewrite <- Zle_Qle.
  rewrite <- (nearestEven_Z (inject_Z 0) 0) at 1 by reflexivity.
  apply nearestEven_mono. change (inject_Z 0) with 0.
  apply Qmult_le_0_compat; [lra | apply Qlt_le_weak, pow2_pos].
Qed.

Lemma roundPositive_below_next (x : Q) :
  0 < x ->
  roundPositive x <= pow2 (Z.max (exponent x) emin + 1).
Proof.
  intro Hx. unfold roundPositive.
  set (e := Z.max (exponent x) emin).
  destruct (exponent_spec x Hx) as (_ & Hhi).
  assert (Hxe : x <= pow2 (e + 1)).
  { pose proof (pow2_le (exponent x + 1) (e + 1)) as H.
    assert (exponent x + 1 <= e + 1)%Z by (unfold e; lia).
    specialize (H ltac:(assumption)). lra. }
  assert (Hscaled : x * pow2 (precision - 1 - e) <= inject_Z (2 ^ precision)).
  { rewrite <- pow2_Z by (unfold precision; lia).
    replace precision with (e + 1 + (precision - 1 - e))%Z at 2 by lia.
    rewrite pow2_add.
    apply Qmult_le_compat_r; [exact Hxe | apply Qlt_le_weak, pow2_pos]. }
  apply nearestEven_mono in Hscaled.
  rewrite (nearestEven_Z (inject_Z (2 ^ precision)) (2 ^ precision)) in Hscaled
    by reflexivity.
  rewrite Zle_Qle in Hscaled.
  rewrite <- (pow2_Z precision) in Hscaled by (unfold precision; lia).
  replace (e + 1)%Z with (precision + (e - (precision - 1)))%Z by lia.
  rewrite pow2_add.
  apply Qmult_le_compat_r; [exact Hscaled | apply Qlt_le_weak, pow2_pos].
Qed.

Lemma roundPositive_above_exponent (x : Q) :
  0 < x ->
  (emin <= exponent x)%Z ->
  pow2 (exponent x) <= roundPositive x.
Proof.
  intros Hx Hemin. unfold roundPositive.
  replace (Z.max (exponent x) emin) with (exponent x) by lia.
  set (e := exponent x).
  destruct (exponent_spec x Hx) as (Hlo & _). fold e in Hlo.
  assert (Hscaled :
            inject_Z (2 ^ (precision - 1)) <= x * pow2 (precision - 1 - e)).
  { rewrite <- pow2_Z by (unfold precision; lia).
    replace (precision - 1)%Z with (e + (precision - 1 - e))%Z at 1 by lia.
    rewrite pow2_add.
    apply Qmult_le_compat_r; [exact Hlo | apply Qlt_le_weak, pow2_pos]. }
  apply nearestEven_mono in Hscaled.
  rewrite (nearestEven_Z (inject_Z (2 ^ (precision - 1))) (2 ^ (precision - 1)))
    in Hscaled by reflexivity.
  rewrite Zle_Qle in Hscaled.
  rewrite <- (pow2_Z (precision - 1)) in Hscaled by (unfold precision; lia).
  replace e with (precision - 1 + (e - (precision - 1)))%Z at 1 by lia.
  rewrite pow2_add.
  apply Qmult_le_compat_r; [exact Hscaled | apply Qlt_le_weak, pow2_pos].
Qed.

Lemma roundPositive_mono (x y : Q) :
  0 < x -> x <= y -> roundPositive x <= roundPositive y.
Proof.
  intros Hx Hxy. assert (Hy : 0 < y) by lra.
  pose proof (exponent_mono x y Hx Hxy) as He.
  destruct (Z.eq_dec (Z.max (exponent x) emin) (Z.max (exponent y) emin))
    as [E | Hne].
  - unfold roundPositive. rewrite E.
    set (e := Z.max (exponent y) emin).
    apply Qmult_le_compat_r; [|apply Qlt_le_weak, pow2_pos].
    rewrite <- Zle_Qle. apply nearestEven_mono.
    apply Qmult_le_compat_r; [exact Hxy | apply Qlt_le_weak, pow2_pos].
  - assert (Hlt : (Z.max (exponent x) emin < exponent y)%Z) by lia.
    pose proof (roundPositive_below_next x Hx) as Hbelow.
    pose proof (roundPositive_above_exponent y Hy ltac:(lia)) as Habove.
    pose proof (pow2_le (Z.max (exponent x) emin + 1) (exponent y)
                  ltac:(lia)) as Hpow.
    lra.
Qed.

Lemma round_zero (x : Q) : x == 0 -> round x = 0.
Proof.
  intro E. unfold round.
  destruct (Qcompare_spec x 0) as [H | H | H]; [reflexivity | lra | lra].
Qed.

Lemma round_positive (x : Q) : 0 < x -> round x = roundPositive x.
Proof.
  intro Hx. unfold round.
  destruct (Qcompare_spec x 0) as [H | H | H]; [lra | lra | reflexivity].
Qed.

Lemma round_negative (x : Q) : x < 0 -> round x = - roundPositive (- x).
Proof.
  intro Hx. unfold round.
  destruct (Qcompare_spec x 0) as [H | H | H]; [lra | reflexivity | lra].
Qed.

(** Rounding is monotone. *)
Lemma round_mono (x y : Q) : x <= y -> round x <= round y.
Proof.
  intro Hxy.
  destruct (Q_dec x 0) as [[Hx | Hx] | Hx];
    destruct (Q_dec y 0) as [[Hy | Hy] | Hy]; try lra.
  - rewrite (round_negative x Hx), (round_negative y Hy).
    pose proof (roundPositive_mono (- y) (- x)) as H.
    assert (0 < - y) by lra. assert (- y <= - x) by lra.
    specialize (H ltac:(assumption) ltac:(assumption)). lra.
  - rewrite (round_negative x Hx), (round_positive y Hy).
    pose proof (roundPositive_nonneg (- x)) as H1.
    pose proof (roundPositive_nonneg y Hy) as H2.
    assert (0 < - x) by lra. specialize (H1 ltac:(assumption)). lra.
  - rewrite (round_negative x Hx), (round_zero y Hy).
    pose proof (roundPositive_nonneg (- x)) as H1.
    assert (0 < - x) by lra. specialize (H1 ltac:(assumption)). lra.
  - rewrite (round_positive x Hx), (round_positive y Hy).
    apply roundPositive_mono; assumption.
  - rewrite (round_zero x Hx), (round_positive y Hy).
    apply roundPositive_nonneg, Hy.
  - rewrite (round_zero x Hx), (round_zero y Hy). lra.
Qed.

(** Rounding does not depend on the fraction that represents a number. *)
Lemma round_eq (x y : Q) : x == y -> round x == round y.
Proof.
  intro E. apply Qle_antisym; apply round_mono; lra.
Qed.

(** The error of one rounding of a number that is not negative. *)
Lemma round_error (x : Q) :
  0 <= x ->
  x - (u * x + eta) <= round x /\ round x <= x + (u * x + eta).
Proof.
  intro Hx. destruct (Q_dec x 0) as [[H | H] | H]; [lra | |].
  - rewrite (round_positive x H). apply roundPositive_error, H.
  - rewrite (round_zero x H). pose proof eta_pos. pose proof u_pos.
    assert (u * x == 0) by (rewrite H; lra). lra.
Qed.

(** Integers below [2^53] are numbers of the format. *)
Lemma round_integer (z : Z) :
  (0 <= z < 2 ^ precision)%Z -> round (inject_Z z) == inject_Z z.
Proof.
  intros (H0 & Hz). destruct (Z.eq_dec z 0) as [-> | Hne].
  - reflexivity.
  - assert (Hpos : 0 < inject_Z z).
    { change 0 with (inject_Z 0). rewrite <- Zlt_Qlt. lia. }
    rewrite (round_positive _ Hpos). unfold roundPositive.
    set (e := Z.max (exponent (inject_Z z)) emin).
    assert (He : (e <= precision - 1)%Z).
    { destruct (exponent_spec _ Hpos) as (Hlo & _).
      assert (inject_Z z < pow2 precision).
      { rewrite pow2_Z by (unfold precision; lia). rewrite <- Zlt_Qlt. exact Hz. }
      assert (Hlt : pow2 (exponent (inject_Z z)) < pow2 precision) by lra.
      apply pow2_lt_inv in Hlt. unfold e, emin, precision in *. lia. }
    rewrite (nearestEven_Z _ (z * 2 ^ (precision - 1 - e))).
    + rewrite inject_Z_mult, <- pow2_Z by lia. apply scaled_back.
    + rewrite inject_Z_mult, <- pow2_Z by lia. reflexivity.
Qed.


(** Rounding keeps a number between two integers of the format. *)
Lemma round_between (x : Q) (a b : Z) :
  (0 <= a < 2 ^ precision)%Z ->
  (0 <= b < 2 ^ precision)%Z ->
  inject_Z a <= x -> x <= inject_Z b ->
  inject_Z a <= round x /\ round x <= inject_Z b.
Proof.
  intros Ha Hb Hax Hxb.
  pose proof (round_mono _ _ Hax) as H1.
  pose proof (round_mono _ _ Hxb) as H2.
  rewrite (round_integer a Ha) in H1. rewrite (round_integer b Hb) in H2.
  split; assumption.
Qed.

(** The error of one rounding of a number between 0 and a bound. *)
Lemma round_error_below (x bound : Q) :
  0 <= x -> x <= bound ->
  x - (u * bound + eta) <= round x /\ round x <= x + (u * bound + eta).
Proof.
  intros H0 Hb. destruct (round_error x H0) as (Hlo & Hhi).
  assert (u * x <= u * bound).
  { apply Qmult_le_l; [apply u_pos | exact Hb]. }
  split; lra.
Qed.

End Binary64Facts.

(* ================================================================== *)
(** * The smoothed distribution in binary64 *)
(* ================================================================== *)

Section SmoothingInBinary64.
Import ModelServiceTM SmoothingVocabulary.

Lemma count_succ (n : nat) :
  inject_Z (Z.of_nat (n + 1)) == inject_Z (Z.of_nat n) + 1.
Proof.
  rewrite Nat2Z.inj_add, inject_Z_plus. reflexivity.
Qed.

Lemma count_le (n m : nat) :
  (n <= m)%nat -> inject_Z (Z.of_nat n) <= inject_Z (Z.of_nat m).
Proof. intro H. rewrite <- Zle_Qle. lia. Qed.

(** The running sum of the smoother over a window of at most five
    outputs: it stays between 0 and the number of outputs added, and each
    addition adds an error of at most [5 u + eta]. *)
Lemma rounded_sum (h : list (list number)) (i : nat) :
  (length h <= 5)%nat ->
  Forall (fun output => 0 <= valueAt output i <= 1) h ->
  (0 <= fold_left
          (fun sum historyItem =>
             Binary64.round (sum + orZero (nth_error historyItem i))) h 0
   /\ fold_left
        (fun sum historyItem =>
           Binary64.round (sum + orZero (nth_error historyItem i))) h 0
      <= inject_Z (Z.of_nat (length h))) /\
  (Qsum (map (fun output => valueAt output i) h)
   - inject_Z (Z.of_nat (length h)) * (5 * Binary64.u + Binary64.eta)
   <= fold_left
        (fun sum historyItem =>
           Binary64.round (sum + orZero (nth_error historyItem i))) h 0
   /\ fold_left
        (fun sum historyItem =>
           Binary64.round (sum + orZero (nth_error historyItem i))) h 0
      <= Qsum (map (fun output => valueAt output i) h)
         + inject_Z (Z.of_nat (length h)) * (5 * Binary64.u + Binary64.eta)).
Proof.
  induction h as [|o h IH] using rev_ind; intros Hlen Hall.
  - simpl. change (inject_Z 0) with 0. repeat split; lra.
  - rewrite length_app in *. cbn [length] in *.
    apply Forall_app in Hall. destruct Hall as (Hh & Ho).
    inversion Ho as [|? ? Hv _]; subst.
    destruct (IH ltac:(lia) Hh) as ((Hs0 & Hsk) & (Hlo & Hhi)).
    rewrite fold_left_app, map_app, Qsum_app. cbn [fold_left map].
    set (s := fold_left
                (fun sum historyItem =>
                   Binary64.round (sum + orZero (nth_error historyItem i)))
                h 0) in *.
    set (total := Qsum (map (fun output => valueAt output i) h)) in *.
    unfold valueAt in *. set (v := orZero (nth_error o i)) in *.
    change (Qsum [v]) with (v + 0).
    pose proof (count_succ (length h)) as Hk.
    pose proof (count_le (length h + 1) 5 Hlen) as Hfive.
    change (inject_Z (Z.of_nat 5)) with 5 in Hfive.
    set (k := inject_Z (Z.of_nat (length h))) in *.
    set (k' := inject_Z (Z.of_nat (length h + 1))) in *.
    destruct (round_between (s + v) 0 (Z.of_nat (length h + 1)))
      as (Hr0 & Hr1).
    { unfold Binary64.precision. lia. }
    { unfold Binary64.precision. lia. }
    { change (inject_Z 0) with 0. lra. }
    { fold k'. lra. }
    change (inject_Z 0) with 0 in Hr0. fold k' in Hr1.
    destruct (round_error_below (s + v) 5) as (He0 & He1); [lra | lra |].
    split; [split; assumption|].
    rewrite Hk. split; lra.
Qed.

(** The averaged probability the code computes, against the exact mean of
    the window. *)
Lemma averaged_error (h : list (list number)) (i : nat) :
  h <> [] ->
  (length h <= 5)%nat ->
  Forall (fun output => 0 <= valueAt output i <= 1) h ->
  (0 <= Binary64.averagedProb h i /\ Binary64.averagedProb h i <= 1) /\
  averagedProb h i - (6 * Binary64.u + 2 * Binary64.eta) <= Binary64.averagedProb h i /\
  Binary64.averagedProb h i <= averagedProb h i + (6 * Binary64.u + 2 * Binary64.eta).
Proof.
  intros Hne Hlen Hall.
  destruct (rounded_sum h i Hlen Hall) as ((Hs0 & Hsk) & (Hlo & Hhi)).
  pose proof (averagedProb_mean h i) as Hmean.
  unfold Binary64.averagedProb.
  set (s := fold_left
              (fun sum historyItem =>
                 Binary64.round (sum + orZero (nth_error historyItem i)))
              h 0) in *.
  set (total := Qsum (map (fun output => valueAt output i) h)) in *.
  assert (Hpos : 0 < inject_Z (Z.of_nat (length h))).
  { apply length_positive. destruct h; [congruence | simpl; lia]. }
  set (k := inject_Z (Z.of_nat (length h))) in *.
  set (d := 5 * Binary64.u + Binary64.eta) in *.
  assert (Hq0 : 0 <= s / k) by (apply Qle_shift_div_l; lra).
  assert (Hq1 : s / k <= 1) by (apply Qle_shift_div_r; lra).
  assert (Hqlo : total / k - d <= s / k).
  { assert (E : total / k - d == (total - k * d) / k) by (field; lra).
    rewrite E. apply Qmult_le_compat_r; [exact Hlo|].
    apply Qlt_le_weak, Qinv_lt_0_compat, Hpos. }
  assert (Hqhi : s / k <= total / k + d).
  { assert (E : total / k + d == (total + k * d) / k) by (field; lra).
    rewrite E. apply Qmult_le_compat_r; [exact Hhi|].
    apply Qlt_le_weak, Qinv_lt_0_compat, Hpos. }
  destruct (round_between (s / k) 0 1) as (Hr0 & Hr1);
    [unfold Binary64.precision; lia | unfold Binary64.precision; lia
     | exact Hq0 | exact Hq1 |].
  change (inject_Z 0) with 0 in Hr0. change (inject_Z 1) with 1 in Hr1.
  destruct (round_error_below (s / k) 1 Hq0 Hq1) as (He0 & He1).
  unfold d in *.
  split; [split; assumption|]. split; lra.
Qed.


Lemma label_values_bounded (output : list number) (i : nat) :
  (i < length TM_LABELS)%nat ->
  Forall (fun v => 0 <= v <= 1) (labelValues output) ->
  0 <= valueAt output i <= 1.
Proof.
  intros Hi Hall. rewrite Forall_forall in Hall. apply Hall.
  unfold labelValues. apply in_map, in_seq. lia.
Qed.

(** The column totals of a window whose outputs each add up to a number
    between [a] and [b]. *)
Lemma column_totals_between (a b : Q) (h : list (list number)) :
  Forall (fun output =>
            a <= Qsum (labelValues output) /\
            Qsum (labelValues output) <= b) h ->
  a * inject_Z (Z.of_nat (length h))
  <= Qsum (map (fun i => Qsum (map (fun output => valueAt output i) h))
             (seq 0 (length TM_LABELS))) /\
  Qsum (map (fun i => Qsum (map (fun output => valueAt output i) h))
          (seq 0 (length TM_LABELS)))
  <= b * inject_Z (Z.of_nat (length h)).
Proof.
  induction 1 as [|o h Ho _ IH].
  - simpl. change (inject_Z 0) with 0. split; lra.
  - unfold labelValues in Ho.
    cbn [length TM_LABELS seq map Qsum fold_right] in *.
    rewrite Nat2Z.inj_succ. unfold Z.succ. rewrite inject_Z_plus.
    change (inject_Z 1) with 1. unfold Qsum in IH. split; lra.
Qed.

Lemma mean_total_between (a b : Q) (h : list (list number)) :
  h <> [] ->
  Forall (fun output =>
            a <= Qsum (labelValues output) /\
            Qsum (labelValues output) <= b) h ->
  a <= Qsum (ModelServiceTM.averagedProbs h) /\
  Qsum (ModelServiceTM.averagedProbs h) <= b.
Proof.
  intros Hne Hall. pose proof (column_totals_between a b h Hall) as Htot.
  assert (Hpos : 0 < inject_Z (Z.of_nat (length h))).
  { apply length_positive. destruct h; [congruence | simpl; lia]. }
  unfold ModelServiceTM.averagedProbs.
  cbn [length TM_LABELS seq map Qsum fold_right] in *.
  rewrite !averagedProb_mean.
  set (n := inject_Z (Z.of_nat (length h))) in *.
  set (c0 := Qsum (map (fun output => valueAt output 0) h)) in *.
  set (c1 := Qsum (map (fun output => valueAt output 1) h)) in *.
  set (c2 := Qsum (map (fun output => valueAt output 2) h)) in *.
  set (c3 := Qsum (map (fun output => valueAt output 3) h)) in *.
  set (c4 := Qsum (map (fun output => valueAt output 4) h)) in *.
  set (c5 := Qsum (map (fun output => valueAt output 5) h)) in *.
  assert (E : c0 / n + (c1 / n + (c2 / n + (c3 / n + (c4 / n + (c5 / n + 0)))))
              == (c0 + (c1 + (c2 + (c3 + (c4 + (c5 + 0)))))) / n)
    by (field; lra).
  rewrite E. destruct Htot as (Hlo & Hhi). split.
  - apply Qle_shift_div_l; [exact Hpos | exact Hlo].
  - apply Qle_shift_div_r; [exact Hpos | exact Hhi].
Qed.

Lemma window_length (outs : list (list number)) :
  (length (fst (feed [] outs None)) <= 5)%nat.
Proof.
  rewrite feed_history by (simpl; lia). rewrite slice_last_length.
  unfold historySize. lia.
Qed.

(** X14 -- Smoothing converges on a steady input, up to rounding.  Take an
    output tensor that gives a label a value between 0 and 1.  Once the
    tensor has been fed five times in a row, whatever came before, and
    also after any number of calls on a fresh classifier that fed nothing
    else, the averaged probability the code computes in binary64 for the
    label is within [6 u + 2 eta] of that value, where [u] is 2^-53 and
    [eta] is 2^-1075. *)
Theorem smoothing_converges (o : list number) (i : nat) :
  0 <= valueAt o i <= 1 ->
  (forall older : list (list number),
     Qabs (Binary64.averagedProb
             (fst (feed [] (older ++ repeat o historySize) None)) i
           - valueAt o i)
     <= 6 * Binary64.u + 2 * Binary64.eta) /\
  (forall k : nat,
     (0 < k)%nat ->
     Qabs (Binary64.averagedProb (fst (feed [] (repeat o k) None)) i
           - valueAt o i)
     <= 6 * Binary64.u + 2 * Binary64.eta).
Proof.
  intro Hv.
  assert (Hrepeat : forall n : nat,
             (0 < n <= 5)%nat ->
             Qabs (Binary64.averagedProb (repeat o n) i - valueAt o i)
             <= 6 * Binary64.u + 2 * Binary64.eta).
  { intros n Hn.
    destruct (averaged_error (repeat o n) i) as (_ & Hlo & Hhi).
    - destruct n; [lia | discriminate].
    - rewrite repeat_length. lia.
    - apply Forall_forall. intros x Hx. apply repeat_spec in Hx.
      subst x. exact Hv.
    - rewrite (averagedProb_repeat o n i) in Hlo, Hhi by lia.
      apply Qabs_Qle_condition. split; lra. }
  split.
  - intro older. rewrite feed_history by (simpl; lia). cbn [app].
    rewrite <- (repeat_length o historySize) at 1.
    rewrite slice_last_app_exact.
    apply Hrepeat. unfold historySize. lia.
  - intros k Hk. rewrite feed_history by (simpl; lia). cbn [app].
    rewrite slice_last_repeat. apply Hrepeat. unfold historySize. lia.
Qed.

(** Three times the tensor that gives 0.7 and 0.2 to the first two
    labels: the averages are 0.6999999999999998 and
    0.20000000000000004. *)
Lemma smoothing_converges_example :
  0 <= valueAt Binary64Inputs.steady 0 <= 1 /\
  Qabs (Binary64.averagedProb
          (fst (feed [] (repeat Binary64Inputs.steady 3%nat) None)) 0%nat
        - valueAt Binary64Inputs.steady 0)
  <= 6 * Binary64.u + 2 * Binary64.eta /\
  Binary64.averagedProb
    (fst (feed [] (repeat Binary64Inputs.steady 3%nat) None)) 0%nat
  == Binary64.round 0.6999999999999998 /\
  Binary64.averagedProb
    (fst (feed [] (repeat Binary64Inputs.steady 3%nat) None)) 1%nat
  == Binary64.round 0.20000000000000004 /\
  ~ Binary64.averagedProb
      (fst (feed [] (repeat Binary64Inputs.steady 3%nat) None)) 0%nat
    == valueAt Binary64Inputs.steady 0.
Proof.
  assert (H : 0 <= valueAt Binary64Inputs.steady 0 <= 1).
  { split; unfold Qle; vm_compute; discriminate. }
  split; [exact H|]. split; [|split; [|split]].
  - apply (proj2 (smoothing_converges Binary64Inputs.steady 0%nat H) 3%nat).
    lia.
  - unfold Qeq. vm_compute. reflexivity.
  - unfold Qeq. vm_compute. reflexivity.
  - unfold Qeq. vm_compute. discriminate.
Defined.

(** X17 -- Smoothing keeps distributions distributions, up to rounding.
    After any non-empty run of calls on a fresh classifier: if every
    output fed so far gives a label a value between 0 and 1, the averaged
    probability the code computes in binary64 for the label lies between
    0 and 1 as well, and is within [6 u + 2 eta] of the exact mean of the
    window; and if moreover the six values of every output add up to 1
    within a tolerance [tau], the six averaged probabilities add up to 1
    within [tau + 36 u + 12 eta].  [u] is 2^-53 and [eta] is 2^-1075. *)
Theorem smoothing_keeps_distributions (outs : list (list number)) :
  outs <> [] ->
  (forall i : nat,
     Forall (fun output => 0 <= valueAt output i <= 1) outs ->
     0 <= Binary64.averagedProb (fst (feed [] outs None)) i <= 1 /\
     Qabs (Binary64.averagedProb (fst (feed [] outs None)) i
           - averagedProb (fst (feed [] outs None)) i)
     <= 6 * Binary64.u + 2 * Binary64.eta) /\
  (forall tau : Q,
     Forall (fun output =>
               Forall (fun v => 0 <= v <= 1) (labelValues output) /\
               Qabs (Qsum (labelValues output) - 1) <= tau) outs ->
     Qabs (Qsum (Binary64.averagedProbs (fst (feed [] outs None))) - 1)
     <= tau + 36 * Binary64.u + 12 * Binary64.eta).
Proof.
  intro Hne.
  pose proof (window_length outs) as Hlen.
  assert (Hwindow : fst (feed [] outs None) <> []).
  { rewrite feed_history by (simpl; lia). cbn [app].
    apply slice_last_nonempty, Hne. }
  assert (Hkeep : forall P : list number -> Prop,
             Forall P outs -> Forall P (fst (feed [] outs None))).
  { intros P HP. rewrite feed_history by (simpl; lia). cbn [app].
    apply slice_last_Forall, HP. }
  set (h := fst (feed [] outs None)) in *.
  split.
  - intros i Hall.
    destruct (averaged_error h i Hwindow Hlen (Hkeep _ Hall))
      as (Hb & Hlo & Hhi).
    split; [exact Hb|]. apply Qabs_Qle_condition. split; lra.
  - intros tau Hall. apply Hkeep in Hall.
    assert (Hsum : 1 - tau <= Qsum (ModelServiceTM.averagedProbs h) /\
                   Qsum (ModelServiceTM.averagedProbs h) <= 1 + tau).
    { apply mean_total_between; [exact Hwindow|].
      eapply Forall_impl; [|exact Hall].
      intros output (_ & Htau). apply Qabs_Qle_condition in Htau.
      split; lra. }
    assert (Herr : forall i : nat,
               (i < length TM_LABELS)%nat ->
               averagedProb h i - (6 * Binary64.u + 2 * Binary64.eta)
               <= Binary64.averagedProb h i /\
               Binary64.averagedProb h i
               <= averagedProb h i + (6 * Binary64.u + 2 * Binary64.eta)).
    { intros i Hi. apply (averaged_error h i Hwindow Hlen).
      eapply Forall_impl; [|exact Hall].
      intros output (Hv & _). apply label_values_bounded; assumption. }
    unfold Binary64.averagedProbs, ModelServiceTM.averagedProbs in *.
    cbn [length TM_LABELS seq map Qsum fold_right] in *.
    pose proof (Herr 0%nat ltac:(lia)) as H0.
    pose proof (Herr 1%nat ltac:(lia)) as H1.
    pose proof (Herr 2%nat ltac:(lia)) as H2.
    pose proof (Herr 3%nat ltac:(lia)) as H3.
    pose proof (Herr 4%nat ltac:(lia)) as H4.
    pose proof (Herr 5%nat ltac:(lia)) as H5.
    apply Qabs_Qle_condition. split; lra.
Qed.

Lemma smoothing_keeps_distributions_example :
  Qabs (Qsum (Binary64.averagedProbs
                (fst (feed [] [Binary64Inputs.steady; Binary64Inputs.sharp]
                        None)))
        - 1)
  <= Binary64.u + 36 * Binary64.u + 12 * Binary64.eta.
Proof.
  apply (smoothing_keeps_distributions
           [Binary64Inputs.steady; Binary64Inputs.sharp]).
  - discriminate.
  - repeat constructor; unfold Qle; vm_compute; discriminate.
Defined.

End SmoothingInBinary64.

(* ================================================================== *)
(** * The formatted remote prediction in binary64 *)
(* ================================================================== *)

Section RemoteFormatInBinary64.
Import GeminiService RemoteVocabulary SmoothingVocabulary.

(** The percentage the code computes: the three roundings and the
    [Math.round] between them. *)
Lemma percentage_steps (c : Q) :
  0 <= c <= 1 ->
  exists z : Z,
    (0 <= z <= 1000)%Z /\
    Binary64.confidencePercent c = Binary64.round (inject_Z z / 10) /\
    1000 * c - ((1 # 2) + 2000 * Binary64.u + 11 * Binary64.eta)
    <= inject_Z z /\
    inject_Z z
    <= 1000 * c + ((1 # 2) + 2000 * Binary64.u + 11 * Binary64.eta).
Proof.
  intros (Hc0 & Hc1). unfold Binary64.confidencePercent.
  destruct (round_between (c * 100) 0 100) as (Ha0 & Ha1);
    [unfold Binary64.precision; lia | unfold Binary64.precision; lia
     | change (inject_Z 0) with 0; lra | change (inject_Z 100) with 100; lra |].
  destruct (round_error_below (c * 100) 100) as (Hea0 & Hea1); [lra | lra |].
  change (inject_Z 0) with 0 in Ha0. change (inject_Z 100) with 100 in Ha1.
  set (a := Binary64.round (c * 100)) in *.
  destruct (round_between (a * 10) 0 1000) as (Hb0 & Hb1);
    [unfold Binary64.precision; lia | unfold Binary64.precision; lia
     | change (inject_Z 0) with 0; lra
     | change (inject_Z 1000) with 1000; lra |].
  destruct (round_error_below (a * 10) 1000) as (Heb0 & Heb1); [lra | lra |].
  change (inject_Z 0) with 0 in Hb0. change (inject_Z 1000) with 1000 in Hb1.
  set (b := Binary64.round (a * 10)) in *.
  destruct (round_half_up_bounds b) as (Hz0 & Hz1).
  pose proof (round_half_up_mono 0 b Hb0) as Hzlo.
  pose proof (round_half_up_mono b 1000 Hb1) as Hzhi.
  change (inject_Z (Qround_half_up 0)) with (inject_Z 0) in Hzlo.
  change (inject_Z (Qround_half_up 1000)) with (inject_Z 1000) in Hzhi.
  exists (Qround_half_up b). split; [|split; [reflexivity|]].
  - rewrite <- Zle_Qle in Hzlo, Hzhi. lia.
  - split; lra.
Qed.

(** X7 -- The percentage of [formatPrediction], as the code computes it in
    binary64.  For a confidence [c] between 0 and 1 the reported
    percentage is within [0.05 + 300 u + 3 eta] of [100 c] ([u] is
    2^-53, [eta] is 2^-1075); it lies between 0 and 100; it is the
    number of the format nearest to a multiple of one tenth; and it does
    not decrease when the confidence increases.  The percentage of the
    exact formatter [formatPrediction] differs from it by at most
    [0.1 + 300 u + 3 eta]. *)
Theorem percentage_is_rounded (c : Q) :
  0 <= c <= 1 ->
  Qabs (Binary64.confidencePercent c - 100 * c)
  <= (1 # 20) + 300 * Binary64.u + 3 * Binary64.eta /\
  0 <= Binary64.confidencePercent c <= 100 /\
  (exists z : Z,
     (0 <= z <= 1000)%Z /\
     Binary64.confidencePercent c = Binary64.round (inject_Z z / 10)) /\
  (forall c' : Q,
     c <= c' ->
     Binary64.confidencePercent c <= Binary64.confidencePercent c') /\
  (forall r : GeminiResult,
     gr_confidence r = Some (Num c) ->
     exists pct,
       fp_confidence (formatPrediction r) = Num pct /\
       Qabs (pct - Binary64.confidencePercent c)
       <= (1 # 10) + 300 * Binary64.u + 3 * Binary64.eta).
Proof.
  intro Hc. destruct (percentage_steps c Hc) as (z & Hz & E & Hlo & Hhi).
  pose proof u_pos as Hu. pose proof eta_pos as Heta.
  assert (Hq0 : 0 <= inject_Z z / 10).
  { apply Qle_shift_div_l; [reflexivity|].
    assert (inject_Z 0 <= inject_Z z) by (rewrite <- Zle_Qle; lia).
    change (inject_Z 0) with 0 in *. lra. }
  assert (Hq1 : inject_Z z / 10 <= 100).
  { apply Qle_shift_div_r; [reflexivity|].
    assert (inject_Z z <= inject_Z 1000) by (rewrite <- Zle_Qle; lia).
    change (inject_Z 1000) with 1000 in *. lra. }
  destruct (round_between (inject_Z z / 10) 0 100) as (Hp0 & Hp1);
    [unfold Binary64.precision; lia | unfold Binary64.precision; lia
     | exact Hq0 | exact Hq1 |].
  change (inject_Z 0) with 0 in Hp0. change (inject_Z 100) with 100 in Hp1.
  destruct (round_error_below (inject_Z z / 10) 100 Hq0 Hq1) as (He0 & He1).
  rewrite E.
  assert (Hdiv : inject_Z z / 10 == inject_Z z * (1 # 10)) by reflexivity.
  assert (Hnear :
            100 * c - ((1 # 20) + 300 * Binary64.u + 3 * Binary64.eta)
            <= Binary64.round (inject_Z z / 10) /\
            Binary64.round (inject_Z z / 10)
            <= 100 * c + ((1 # 20) + 300 * Binary64.u + 3 * Binary64.eta)).
  { split; lra. }
  split; [apply Qabs_Qle_condition; split; lra|].
  split; [split; assumption|].
  split; [exists z; split; [exact Hz | reflexivity]|].
  split.
  - intros c' Hcc'. rewrite <- E. unfold Binary64.confidencePercent.
    apply round_mono. apply Qmult_le_compat_r; [|discriminate].
    apply round_half_up_mono. apply round_mono.
    apply Qmult_le_compat_r; [|discriminate].
    apply round_mono. apply Qmult_le_compat_r; [exact Hcc' | discriminate].
  - intros r Hr. unfold formatPrediction. cbn [fp_confidence]. rewrite Hr.
    cbn [toNumber mul round divq]. eexists. split; [reflexivity|].
    destruct (round_half_up_bounds (c * 100 * 10)) as (Hx0 & Hx1).
    set (x := inject_Z (Qround_half_up (c * 100 * 10))) in *.
    change (x / 10) with (x * (1 # 10)).
    apply Qabs_Qle_condition. split; lra.
Qed.

(** At 0.875 every step is exact; at 0.8765 the product is
    876.4999999999999, and the percentage is 87.6. *)
Lemma percentage_example :
  0 <= 0.875 <= 1 /\
  Qabs (Binary64.confidencePercent 0.875 - 100 * 0.875)
  <= (1 # 20) + 300 * Binary64.u + 3 * Binary64.eta /\
  Binary64.confidencePercent 0.875 == 87.5 /\
  Binary64.confidencePercent Binary64Inputs.confidence_8765
  == Binary64.round 87.6.
Proof.
  assert (H : 0 <= 0.875 <= 1) by (split; discriminate).
  split; [exact H|].
  split; [exact (proj1 (percentage_is_rounded 0.875 H))|].
  split; unfold Qeq; vm_compute; reflexivity.
Defined.

Lemma other_classes (c : Q) :
  0 <= c <= 1 ->
  (0 <= Binary64.otherClassProb c /\ Binary64.otherClassProb c <= 1) /\
  (1 - c) * (1 # 6) - ((1 # 3) * Binary64.u + (7 # 6) * Binary64.eta)
  <= Binary64.otherClassProb c /\
  Binary64.otherClassProb c
  <= (1 - c) * (1 # 6) + ((1 # 3) * Binary64.u + (7 # 6) * Binary64.eta).
Proof.
  intros (Hc0 & Hc1). unfold Binary64.otherClassProb.
  change (inject_Z (Z.of_nat (length classes)) - 1) with (inject_Z 7 - 1).
  destruct (round_between (1 - c) 0 1) as (Hr0 & Hr1);
    [unfold Binary64.precision; lia | unfold Binary64.precision; lia
     | change (inject_Z 0) with 0; lra | change (inject_Z 1) with 1; lra |].
  destruct (round_error_below (1 - c) 1) as (Her0 & Her1); [lra | lra |].
  change (inject_Z 0) with 0 in Hr0. change (inject_Z 1) with 1 in Hr1.
  set (r := Binary64.round (1 - c)) in *.
  change (r / (inject_Z 7 - 1)) with (r * (1 # 6)).
  destruct (round_between (r * (1 # 6)) 0 1) as (Ho0 & Ho1);
    [unfold Binary64.precision; lia | unfold Binary64.precision; lia
     | change (inject_Z 0) with 0; lra | change (inject_Z 1) with 1; lra |].
  destruct (round_error_below (r * (1 # 6)) (1 # 6)) as (Heo0 & Heo1);
    [lra | lra |].
  change (inject_Z 0) with 0 in Ho0. change (inject_Z 1) with 1 in Ho1.
  split; [split; assumption|]. split; lra.
Qed.

(** X4 -- The simulated distribution of [buildProbabilities], as the code
    computes it in binary64, for a confidence between 0 and 1.  It has one
    entry per class, in the order of the classes, each between 0 and 1.
    For a response that names one of the seven classes its entries add up
    to 1 within [2 u + 7 eta]; for a flower whose variety and gender do
    not form a class (a gender [unknown], say) no entry carries the
    confidence and they add up to seven sixths of the remaining
    probability within [3 u + 9 eta].  [u] is 2^-53 and [eta] is
    2^-1075. *)
Theorem simulated_distribution_total (variety gender : option string)
  (c : Q) :
  0 <= c <= 1 ->
  map fst (Binary64.buildProbabilities variety gender c) = classes /\
  Forall (fun entry => 0 <= snd entry <= 1)
    (Binary64.buildProbabilities variety gender c) /\
  (namesClass variety gender ->
   Qabs (Qsum (map snd (Binary64.buildProbabilities variety gender c)) - 1)
   <= 2 * Binary64.u + 7 * Binary64.eta) /\
  (variety <> Some "not_flower" ->
   ~ In (interpolate variety ++ "_" ++ interpolate gender)%string classes ->
   Qabs (Qsum (map snd (Binary64.buildProbabilities variety gender c))
         - (7 # 6) * (1 - c))
   <= 3 * Binary64.u + 9 * Binary64.eta).
Proof.
  intro Hc. destruct (other_classes c Hc) as ((Ho0 & Ho1) & Hlo & Hhi).
  pose proof u_pos as Hu. pose proof eta_pos as Heta.
  split; [reflexivity|]. split; [|split].
  - unfold Binary64.buildProbabilities. apply Forall_forall.
    intros entry Hin. apply in_map_iff in Hin.
    destruct Hin as (cls & <- & _). cbn [snd].
    destruct (String.eqb cls _); [exact Hc | split; assumption].
  - intros [-> | ((v & -> & Hv) & Hg)].
    + unfold Binary64.buildProbabilities.
      set (o := Binary64.otherClassProb c) in *.
      cbv [map snd Qsum fold_right classes strict_eq String.eqb Ascii.eqb
           Bool.eqb interpolate String.append].
      apply Qabs_Qle_condition. split; lra.
    + unfold varieties in Hv. simpl in Hv.
      destruct Hv as [<- | [<- | [<- | []]]]; destruct Hg as [-> | ->];
        unfold Binary64.buildProbabilities;
        set (o := Binary64.otherClassProb c) in *;
        cbv [map snd Qsum fold_right classes strict_eq String.eqb Ascii.eqb
             Bool.eqb interpolate String.append];
        apply Qabs_Qle_condition; split; lra.
  - intros Hv Hnot. unfold Binary64.buildProbabilities.
    assert (strict_eq variety (Some "not_flower") = false) as ->.
    { destruct variety as [v|]; [|reflexivity]. simpl.
      apply String.eqb_neq. congruence. }
    set (cls := (interpolate variety ++ "_" ++ interpolate gender)%string)
      in *.
    unfold classes in *. simpl in Hnot. cbn [map].
    repeat match goal with
      | |- context [String.eqb ?k cls] =>
          rewrite (eqb_false_of_neq k cls) by tauto
      end.
    cbn [snd Qsum fold_right].
    set (o := Binary64.otherClassProb c) in *.
    apply Qabs_Qle_condition. split; lra.
Qed.

(** At 0.9 the other classes get 0.016666666666666663 each. *)
Lemma simulated_distribution_example :
  0 <= Binary64Inputs.confidence_09 <= 1 /\
  namesClass (Some "patola") (Some "male") /\
  Qabs (Qsum (map snd (Binary64.buildProbabilities
                         (Some "patola") (Some "male")
                         Binary64Inputs.confidence_09)) - 1)
  <= 2 * Binary64.u + 7 * Binary64.eta /\
  Binary64.otherClassProb Binary64Inputs.confidence_09
  == Binary64.round 0.016666666666666663.
Proof.
  assert (Hc : 0 <= Binary64Inputs.confidence_09 <= 1).
  { split; unfold Qle; vm_compute; discriminate. }
  assert (H : namesClass (Some "patola") (Some "male")).
  { right. split; [|left; reflexivity].
    exists "patola". split; [reflexivity|]. right. left. reflexivity. }
  split; [exact Hc|]. split; [exact H|]. split.
  - exact (proj1 (proj2 (proj2 (simulated_distribution_total
                                  (Some "patola") (Some "male")
                                  Binary64Inputs.confidence_09 Hc))) H).
  - unfold Qeq. vm_compute. reflexivity.
Defined.

End RemoteFormatInBinary64.
